(** * QuantDesk backtesting core: a shallow embedding and its properties

    The Python sources under [app/] are embedded module by module:
    - [app/core/risk.py] as [Risk];
    - [app/core/portfolio.py] as [PortfolioM];
    - [app/signals/indicators.py] (SMA, EMA, RSI, ATR, ROC, ADX and their
      helpers) as [Indicators];
    - [app/signals/rules.py] and [app/signals/pipeline.py] as [Rules], over
      the syntax trees of [ast]; what the rule engine takes from Python
      itself (the parser, the built-in functions, the power operator) is an
      interface, [Rules.PyRuntime], with a model of it in [PyLib];
    - [app/backtest/metrics.py] as [Metrics];
    - the body of the simulation loop of [app/backtest/engine.py] as
      [Engine].

    Numbers.  Python floats are idealised as exact rationals ([Q]); the
    not-a-number sentinel that the indicator code writes with
    [float("nan")] is a separate constructor where the code can produce
    it.  Rounding and overflow of binary64 are outside the model.

    Exceptions.  A Python function that can raise returns a [result].

    Mutation.  A method that mutates its object returns the new object; a
    position that is changed through a reference is stored back under its
    symbol. *)

From Stdlib Require Import QArith Qabs Qminmax Qround Lia Lqa ZArith String Ascii.
From stdpp Require Import gmap strings list.

Open Scope Q_scope.

(** ** Exceptions and the error monad *)

Inductive exn : Type :=
  | NameError (msg : string)
  | ValueError (msg : string)
  | KeyError (msg : string)
  | IndexError
  | TypeError
  | SyntaxError
  | OverflowError
  | ZeroDivisionError.

Inductive result (A : Type) : Type :=
  | Ok (a : A)
  | Raise (e : exn).

Arguments Ok {A} a.
Arguments Raise {A} e.

Definition rbind {A B : Type} (m : result A) (k : A -> result B) : result B :=
  match m with
  | Ok a => k a
  | Raise e => Raise e
  end.

Notation "'let!' x ':=' m 'in' k" := (rbind m (fun x => k))
  (at level 10, x name, m at level 100, k at level 200).

Definition is_ok {A : Type} (m : result A) : bool :=
  match m with Ok _ => true | Raise _ => false end.

(** A list comprehension whose element expression can raise: the elements
    are computed from the left and the first exception ends it. *)
Section MapM.
Context {A B : Type} (f : A -> result B).

Fixpoint mapM (l : list A) : result (list B) :=
  match l with
  | [] => Ok []
  | x :: rest =>
      let! y := f x in
      let! ys := mapM rest in
      Ok (y :: ys)
  end.

End MapM.

(** ** Rational helpers with Python's conventions *)

Definition Qlt_bool (a b : Q) : bool := negb (Qle_bool b a).

Lemma Qlt_bool_iff (a b : Q) : Qlt_bool a b = true <-> a < b.
Proof.
  unfold Qlt_bool. rewrite negb_true_iff.
  destruct (Qle_bool b a) eqn:E.
  - apply Qle_bool_iff in E. split; [discriminate | intros H; lra].
  - split; [intros _ | reflexivity].
    destruct (Qlt_le_dec a b) as [H | H]; [exact H |].
    apply Qle_bool_iff in H. congruence.
Qed.

Lemma Qlt_bool_false (a b : Q) : Qlt_bool a b = false <-> b <= a.
Proof.
  unfold Qlt_bool. rewrite negb_false_iff. apply Qle_bool_iff.
Qed.

Lemma Qle_bool_false (a b : Q) : Qle_bool a b = false <-> b < a.
Proof.
  rewrite <- Qlt_bool_iff. unfold Qlt_bool.
  destruct (Qle_bool a b); simpl; split; congruence.
Qed.

(** [max(a, b)] of two numbers: Python keeps the first argument unless a
    later one is strictly greater. *)
Definition py_max (a b : Q) : Q := if Qlt_bool a b then b else a.

(** [min(a, b)]: the first argument unless a later one is strictly
    smaller. *)
Definition py_min (a b : Q) : Q := if Qlt_bool b a then b else a.

(** True division [a / b]; a zero divisor raises. *)
Definition py_div (a b : Q) : result Q :=
  if Qeq_bool b 0 then Raise ZeroDivisionError else Ok (a / b).

Lemma py_max_ge_r (a b : Q) : b <= py_max a b.
Proof.
  unfold py_max. destruct (Qlt_bool a b) eqn:E; [lra |].
  apply Qlt_bool_false in E. exact E.
Qed.

Lemma py_max_l (a b : Q) : b <= a -> py_max a b = a.
Proof.
  intros H. unfold py_max.
  destruct (Qlt_bool a b) eqn:E; [| reflexivity].
  apply Qlt_bool_iff in E. lra.
Qed.

Lemma py_max_r (a b : Q) : a < b -> py_max a b = b.
Proof.
  intros H. unfold py_max.
  destruct (Qlt_bool a b) eqn:E; [reflexivity |].
  apply Qlt_bool_false in E. lra.
Qed.

Lemma py_div_ok (a b : Q) : ~ b == 0 -> py_div a b = Ok (a / b).
Proof.
  intros H. unfold py_div.
  destruct (Qeq_bool b 0) eqn:E; [| reflexivity].
  apply Qeq_bool_iff in E. contradiction.
Qed.

Lemma py_div_zero (a b : Q) : b == 0 -> py_div a b = Raise ZeroDivisionError.
Proof.
  intros H. unfold py_div.
  apply Qeq_bool_iff in H. rewrite H. reflexivity.
Qed.

(** ** app/core/risk.py *)

Module Risk.

Record RiskParameters : Type := {
  max_positions : Z;
  max_gross_exposure : Q;
  max_position_pct : Q
}.

Definition position_size_vol_target
    (equity price atr risk_per_trade atr_multiple : Q) : Q :=
  if Qle_bool price 0 || Qle_bool atr 0 then 0
  else
    let dollar_risk := equity * risk_per_trade in
    let stop_distance := atr * atr_multiple in
    if Qle_bool stop_distance 0 then 0
    else
      let shares := dollar_risk / stop_distance in
      py_max shares 0.

Definition apply_position_limits
    (desired_qty price equity : Q) (params : RiskParameters)
    (current_positions : Z) (gross_exposure : Q) : result Q :=
  if negb (max_positions params =? 0)%Z
     && (max_positions params <=? current_positions)%Z
  then Ok 0
  else if Qle_bool equity 0 then Ok 0
  else
    let max_position_value := equity * max_position_pct params in
    let desired_value := desired_qty * price in
    let! desired_qty :=
      (if Qlt_bool max_position_value desired_value
       then py_div max_position_value price
       else Ok desired_qty) in
    let! used := py_div (Qabs (desired_qty * price)) equity in
    let projected_exposure := gross_exposure + used in
    let! desired_qty :=
      (if Qlt_bool (max_gross_exposure params) projected_exposure
       then
         let allowed_value :=
           py_max (max_gross_exposure params - gross_exposure) 0 * equity in
         py_div allowed_value price
       else Ok desired_qty) in
    Ok (py_max desired_qty 0).

(** [stop_from_atr]; the direction is the string the engine passes. *)
Definition stop_from_atr (entry_price atr multiple : Q) (direction : string)
    : option Q :=
  if Qle_bool atr 0 then None
  else if String.eqb direction "long" then Some (entry_price - atr * multiple)
  else if String.eqb direction "short" then Some (entry_price + atr * multiple)
  else None.

(** The example of [tests/backtest/test_risk_utils.py]. *)
Example test_position_size_vol_target :
  position_size_vol_target 100000 100 2 0.01 2 == 250.
Proof. vm_compute. reflexivity. Qed.

Example test_apply_position_limits :
  exists qty,
    apply_position_limits 1000 100 100000
      {| max_positions := 5; max_gross_exposure := 1; max_position_pct := 0.2 |}
      2 0.4 = Ok qty /\ qty <= 200.
Proof. eexists. split; [vm_compute; reflexivity | vm_compute; discriminate]. Qed.

(** *** Sizing *)

Lemma position_size_vol_target_guard (equity price atr rpt mult : Q) :
  atr <= 0 \/ price <= 0 ->
  position_size_vol_target equity price atr rpt mult = 0.
Proof.
  intros H. unfold position_size_vol_target.
  destruct (Qle_bool price 0) eqn:Ep; [reflexivity |].
  destruct (Qle_bool atr 0) eqn:Ea; [reflexivity |].
  apply Qle_bool_false in Ep. apply Qle_bool_false in Ea.
  destruct H; lra.
Qed.

Lemma position_size_vol_target_floor (equity price atr rpt mult : Q) :
  0 < price -> 0 < atr -> 0 < atr * mult ->
  position_size_vol_target equity price atr rpt mult
  = py_max (equity * rpt / (atr * mult)) 0.
Proof.
  intros Hp Ha Hs. unfold position_size_vol_target.
  apply Qle_bool_false in Hp. apply Qle_bool_false in Ha.
  apply Qle_bool_false in Hs. rewrite Hp, Ha, Hs. reflexivity.
Qed.

Lemma Qdiv_nonneg (a b : Q) : 0 <= a -> 0 < b -> 0 <= a / b.
Proof. intros Ha Hb. apply Qle_shift_div_l; lra. Qed.

Lemma Qdiv_neg (a b : Q) : a < 0 -> 0 < b -> a / b < 0.
Proof. intros Ha Hb. apply Qlt_shift_div_r; lra. Qed.

(** C5 (as amended).  With a positive price, a positive ATR and a positive
    stop distance, [position_size_vol_target] returns exactly
    [(equity * risk_per_trade) / (atr * atr_multiple)] when that dollar risk
    is non-negative, and the floor 0 when it is negative; it returns exactly
    0 whenever [atr <= 0] or [price <= 0]; equity 100000, price 100, ATR 2,
    risk 0.01 and multiple 2 give 250 shares. *)
Theorem position_size_vol_target_spec (equity price atr rpt mult : Q) :
  (0 < price -> 0 < atr -> 0 < atr * mult -> 0 <= equity * rpt ->
   position_size_vol_target equity price atr rpt mult
   = equity * rpt / (atr * mult))
  /\ (0 < price -> 0 < atr -> 0 < atr * mult -> equity * rpt < 0 ->
      position_size_vol_target equity price atr rpt mult = 0)
  /\ (atr <= 0 \/ price <= 0 ->
      position_size_vol_target equity price atr rpt mult = 0)
  /\ position_size_vol_target 100000 100 2 0.01 2 == 250.
Proof.
  split; [| split; [| split]].
  - intros Hp Ha Hs He.
    rewrite position_size_vol_target_floor by assumption.
    apply py_max_l. now apply Qdiv_nonneg.
  - intros Hp Ha Hs He.
    rewrite position_size_vol_target_floor by assumption.
    apply py_max_r. now apply Qdiv_neg.
  - apply position_size_vol_target_guard.
  - exact test_position_size_vol_target.
Qed.

Lemma position_size_vol_target_spec_witness :
  position_size_vol_target 100000 100 2 0.01 2 = 100000 * 0.01 / (2 * 2).
Proof.
  apply (proj1 (position_size_vol_target_spec 100000 100 2 0.01 2));
    vm_compute; congruence.
Defined.

(** C5 as stated fails for a negative dollar risk: the quotient is
    negative and the code floors it at 0. *)
Lemma position_size_vol_target_negative_risk :
  0 < 100 /\ 0 < 2 /\ 0 < 2 * 2
  /\ ~ position_size_vol_target (-100) 100 2 0.01 2
       == (-100) * 0.01 / (2 * 2).
Proof. vm_compute. repeat split; congruence. Qed.

(** *** Portfolio limits *)

(** What C4 asks of a returned quantity [r]: it is non-negative, the
    post-trade gross exposure stays within [max_gross_exposure], and the
    notional stays within [max_position_pct * equity]. *)
Definition within_limits (price equity : Q) (params : RiskParameters)
    (gross_exposure r : Q) : Prop :=
  0 <= r
  /\ gross_exposure + Qabs (r * price) / equity <= max_gross_exposure params
  /\ r * price <= max_position_pct params * equity.

Lemma Qabs_mult_zero (r p e : Q) : r == 0 -> Qabs (r * p) / e == 0.
Proof.
  intros Hr. assert (H : r * p == 0) by (rewrite Hr; ring).
  rewrite H. reflexivity.
Qed.

Lemma Qabs_mult_zero_r (r p e : Q) : p == 0 -> Qabs (r * p) / e == 0.
Proof.
  intros Hp. assert (H : r * p == 0) by (rewrite Hp; ring).
  rewrite H. reflexivity.
Qed.

Lemma within_limits_zero (p e : Q) (params : RiskParameters) (g r : Q) :
  r == 0 -> 0 < e -> 0 <= max_position_pct params ->
  g <= max_gross_exposure params ->
  within_limits p e params g r.
Proof.
  intros Hr He Hpct Hg. unfold within_limits.
  rewrite (Qabs_mult_zero r p e Hr). rewrite Hr.
  repeat split; try lra. nra.
Qed.

(** The notional cap: the first adjustment of [desired_qty]. *)
Lemma notional_cap_ok (q p mpv : Q) :
  0 <= q -> 0 <= mpv ->
  exists q1,
    (if Qlt_bool mpv (q * p) then py_div mpv p else Ok q) = Ok q1
    /\ 0 <= q1 /\ q1 * p <= mpv.
Proof.
  intros Hq Hm. destruct (Qlt_bool mpv (q * p)) eqn:E.
  - apply Qlt_bool_iff in E.
    assert (Hp : 0 < p) by nra.
    exists (mpv / p). rewrite py_div_ok by lra.
    split; [reflexivity |]. split; [now apply Qdiv_nonneg |].
    assert (H : mpv / p * p == mpv) by (field; lra). lra.
  - apply Qlt_bool_false in E. exists q. auto.
Qed.

Lemma Qabs_nonneg_eq (x : Q) : 0 <= x -> Qabs x == x.
Proof. intros H. now rewrite Qabs_pos. Qed.

(** C4 (as amended).  With [equity > 0], a non-negative desired quantity, a
    non-negative [max_position_pct] and a prior gross exposure that is
    itself within [max_gross_exposure], [apply_position_limits] returns (for
    every price, without raising) a quantity [r >= 0] whose post-trade gross
    exposure [gross + |r * price| / equity] does not exceed
    [max_gross_exposure] and whose notional [r * price] does not exceed
    [max_position_pct * equity]. *)
Theorem apply_position_limits_within_limits
    (q p e : Q) (params : RiskParameters) (cur : Z) (g : Q) :
  0 < e -> 0 <= q -> 0 <= max_position_pct params ->
  g <= max_gross_exposure params ->
  exists r,
    apply_position_limits q p e params cur g = Ok r
    /\ within_limits p e params g r.
Proof.
  intros He Hq Hpct Hg. unfold apply_position_limits.
  destruct (negb (max_positions params =? 0)%Z
            && (max_positions params <=? cur)%Z).
  { exists 0. split; [reflexivity |]. now apply within_limits_zero. }
  assert (Ee : Qle_bool e 0 = false) by now apply Qle_bool_false.
  rewrite Ee.
  destruct (notional_cap_ok q p (e * max_position_pct params) Hq)
    as (q1 & -> & Hq1 & Hcap); [nra |].
  cbn [rbind]. rewrite (py_div_ok _ e) by lra. cbn [rbind].
  destruct (Qlt_bool (max_gross_exposure params) (g + Qabs (q1 * p) / e))
    eqn:E.
  - apply Qlt_bool_iff in E.
    rewrite (py_max_l (max_gross_exposure params - g) 0) by lra.
    set (allowed := (max_gross_exposure params - g) * e).
    assert (Hall : 0 <= allowed) by (unfold allowed; nra).
    destruct (Qlt_le_dec 0 p) as [Hp | Hp].
    + (* a positive price: the allowed notional is bought *)
      rewrite py_div_ok by lra. cbn [rbind].
      assert (Hq2 : 0 <= allowed / p) by now apply Qdiv_nonneg.
      rewrite (py_max_l _ 0 Hq2).
      exists (allowed / p). split; [reflexivity |].
      assert (Hmul : allowed / p * p == allowed) by (field; lra).
      assert (Hq1p : 0 <= q1 * p) by nra.
      rewrite (Qabs_nonneg_eq _ Hq1p) in E.
      assert (Hlt : allowed < q1 * p).
      { assert (H1 : max_gross_exposure params - g < q1 * p / e) by lra.
        assert (H2 : q1 * p / e * e == q1 * p) by (field; lra).
        unfold allowed. nra. }
      unfold within_limits. rewrite Hmul.
      rewrite (Qabs_nonneg_eq _ Hall).
      assert (H3 : allowed / e == max_gross_exposure params - g)
        by (unfold allowed; field; lra).
      repeat split; lra.
    + (* a non-positive price cannot carry the excess: nothing is bought *)
      destruct (Qeq_dec p 0) as [Hz | Hnz].
      { exfalso. rewrite (Qabs_mult_zero_r q1 p e Hz) in E. lra. }
      rewrite py_div_ok by assumption. cbn [rbind].
      assert (Hq2 : allowed / p <= 0).
      { assert (H : 0 <= allowed / (- p)) by (apply Qdiv_nonneg; lra).
        assert (H' : allowed / (- p) == - (allowed / p)) by (field; lra).
        lra. }
      exists (py_max (allowed / p) 0). split; [reflexivity |].
      apply within_limits_zero; try assumption.
      pose proof (py_max_ge_r (allowed / p) 0) as H0.
      unfold py_max in *. destruct (Qlt_bool (allowed / p) 0); lra.
  - apply Qlt_bool_false in E. cbn [rbind].
    rewrite (py_max_l q1 0 Hq1).
    exists q1. split; [reflexivity |].
    unfold within_limits. repeat split; try assumption. lra.
Qed.

Lemma apply_position_limits_within_limits_witness :
  exists r,
    apply_position_limits 1000 100 100000
      {| max_positions := 5; max_gross_exposure := 1; max_position_pct := 0.2 |}
      2 0.4 = Ok r
    /\ within_limits 100 100000
         {| max_positions := 5; max_gross_exposure := 1;
            max_position_pct := 0.2 |} 0.4 r.
Proof.
  apply apply_position_limits_within_limits; vm_compute; congruence.
Defined.

(** C4 as stated fails.  With a negative desired quantity the notional cap
    is not applied and the exposure cap then hands back a positive quantity
    of 1000 shares, five times the allowed notional; a prior gross exposure
    already above the limit stays above it whatever is returned; and under a
    negative [max_position_pct] no returned quantity meets the notional
    cap. *)
Lemma apply_position_limits_exceeds :
  let params := {| max_positions := 5; max_gross_exposure := 1;
                   max_position_pct := 0.2 |} in
  0 < 100000
  /\ (exists r, apply_position_limits (-2000) 100 100000 params 0 0 = Ok r
                /\ r == 1000
                /\ ~ r * 100 <= max_position_pct params * 100000)
  /\ (exists r, apply_position_limits 10 100 100000 params 0 1.5 = Ok r
                /\ r == 0
                /\ ~ 1.5 + Qabs (r * 100) / 100000
                     <= max_gross_exposure params)
  /\ (exists r, apply_position_limits 10 100 100000
                  {| max_positions := 5; max_gross_exposure := 1;
                     max_position_pct := -0.1 |} 0 0 = Ok r
                /\ r == 0 /\ ~ r * 100 <= -0.1 * 100000).
Proof.
  split; [reflexivity |]. repeat split.
  - eexists. split; [vm_compute; reflexivity |].
    split; vm_compute; congruence.
  - eexists. split; [vm_compute; reflexivity |].
    split; vm_compute; congruence.
  - eexists. split; [vm_compute; reflexivity |].
    split; vm_compute; congruence.
Qed.

(** C10.  With [max_positions = 0] the position-count check never rejects:
    the result does not depend on the number of open positions, and it is
    the result obtained under a limit that the current count does not reach,
    that is, the notional and gross-exposure caps alone decide. *)
Theorem max_positions_zero_is_unlimited
    (q p e mg pct : Q) (cur cur' : Z) (g : Q) :
  let unlimited := {| max_positions := 0; max_gross_exposure := mg;
                      max_position_pct := pct |} in
  apply_position_limits q p e unlimited cur g
  = apply_position_limits q p e unlimited cur' g
  /\ apply_position_limits q p e unlimited cur g
     = apply_position_limits q p e
         {| max_positions := cur + 1; max_gross_exposure := mg;
            max_position_pct := pct |} cur g.
Proof.
  intros unlimited. split.
  - reflexivity.
  - unfold apply_position_limits, unlimited. cbn [max_positions].
    replace (cur + 1 <=? cur)%Z with false by (symmetry; apply Z.leb_gt; lia).
    rewrite andb_false_r. reflexivity.
Qed.

(** A limit of 0 against a limit of 1 with one position open: the first
    trades, the second rejects. *)
Example max_positions_zero_trades :
  apply_position_limits 10 100 100000
    {| max_positions := 0; max_gross_exposure := 1; max_position_pct := 0.2 |}
    1 0 = Ok 10
  /\ apply_position_limits 10 100 100000
       {| max_positions := 1; max_gross_exposure := 1;
          max_position_pct := 0.2 |}
       1 0 = Ok 0.
Proof. split; vm_compute; reflexivity. Qed.

End Risk.

(** ** app/core/portfolio.py *)

Module PortfolioM.

(** Timestamps are day numbers. *)
Definition timestamp : Type := Z.

Record Order : Type := mkOrder {
  order_symbol : string;
  order_quantity : Q;
  order_price : Q;
  side : string;
  reason : string
}.

Record Position : Type := mkPosition {
  symbol : string;
  quantity : Q;
  avg_price : Q;
  stop_price : option Q;
  trailing_multiple : option Q
}.

Definition market_value_of (pos : Position) (last_price : Q) : Q :=
  quantity pos * last_price.

(** [Position.update_stop]: the object is mutated in place; here the
    updated record is returned and the caller stores it back. *)
Definition update_stop (pos : Position) (new_stop : Q) : Position :=
  let set := {| symbol := symbol pos; quantity := quantity pos;
                avg_price := avg_price pos; stop_price := Some new_stop;
                trailing_multiple := trailing_multiple pos |} in
  match stop_price pos with
  | None => set
  | Some s => if Qlt_bool s new_stop then set else pos
  end.

Record Portfolio : Type := mkPortfolio {
  cash : Q;
  positions : gmap string Position;
  equity_history : list (timestamp * Q)
}.

Definition position (pf : Portfolio) (sym : string) : option Position :=
  positions pf !! sym.

Definition add_position (pf : Portfolio) (order : Order) : result Portfolio :=
  if negb (String.eqb (side order) "buy")
  then Raise (ValueError "Can only add positions from buy orders")
  else
    match positions pf !! order_symbol order with
    | Some existing =>
        let total_qty := quantity existing + order_quantity order in
        if Qle_bool total_qty 0
        then Ok {| cash := cash pf;
                   positions := delete (order_symbol order) (positions pf);
                   equity_history := equity_history pf |}
        else
          let! new_avg :=
            py_div (avg_price existing * quantity existing
                    + order_price order * order_quantity order) total_qty in
          let existing' :=
            {| symbol := symbol existing; quantity := total_qty;
               avg_price := new_avg; stop_price := stop_price existing;
               trailing_multiple := trailing_multiple existing |} in
          Ok {| cash := cash pf - order_quantity order * order_price order;
                positions := <[order_symbol order := existing']> (positions pf);
                equity_history := equity_history pf |}
    | None =>
        let fresh :=
          {| symbol := order_symbol order; quantity := order_quantity order;
             avg_price := order_price order; stop_price := None;
             trailing_multiple := None |} in
        Ok {| cash := cash pf - order_quantity order * order_price order;
              positions := <[order_symbol order := fresh]> (positions pf);
              equity_history := equity_history pf |}
    end.

Definition remove_position (pf : Portfolio) (order : Order) : result Portfolio :=
  if negb (String.eqb (side order) "sell")
  then Raise (ValueError "Can only remove positions from sell orders")
  else
    match positions pf !! order_symbol order with
    | None => Ok pf
    | Some existing =>
        let sell_qty := py_min (order_quantity order) (quantity existing) in
        let existing' :=
          {| symbol := symbol existing; quantity := quantity existing - sell_qty;
             avg_price := avg_price existing; stop_price := stop_price existing;
             trailing_multiple := trailing_multiple existing |} in
        let proceeds := sell_qty * order_price order in
        Ok {| cash := cash pf + proceeds;
              positions :=
                if Qle_bool (quantity existing') 0
                then delete (order_symbol order) (positions pf)
                else <[order_symbol order := existing']> (positions pf);
              equity_history := equity_history pf |}
    end.

(** [Portfolio.market_value]: cash plus the value of every position that
    has a price in [prices]. *)
Definition market_value (pf : Portfolio) (prices : gmap string Q) : Q :=
  map_fold
    (fun sym pos value =>
       match prices !! sym with
       | None => value
       | Some price => value + market_value_of pos price
       end)
    (cash pf) (positions pf).

Definition update_equity (pf : Portfolio) (ts : timestamp) (value : Q)
    : Portfolio :=
  {| cash := cash pf; positions := positions pf;
     equity_history := equity_history pf ++ [(ts, value)] |}.

(** An executed order reaches the portfolio through [add_position] when it
    is a buy and through [remove_position] otherwise, as in the engine. *)
Definition apply_order (pf : Portfolio) (order : Order) : result Portfolio :=
  if String.eqb (side order) "buy" then add_position pf order
  else remove_position pf order.

Fixpoint apply_orders (pf : Portfolio) (orders : list Order)
    : result Portfolio :=
  match orders with
  | [] => Ok pf
  | o :: rest => let! pf' := apply_order pf o in apply_orders pf' rest
  end.

(** Every stored position sits under its own symbol. *)
Definition keyed (m : gmap string Position) : Prop :=
  forall k pos, m !! k = Some pos -> symbol pos = k.

(** No stored position has a negative quantity. *)
Definition nonneg_quantities (m : gmap string Position) : Prop :=
  forall k pos, m !! k = Some pos -> 0 <= quantity pos.

(** *** The position map under buys and sells *)

Lemma py_min_le_r (a b : Q) : py_min a b <= b.
Proof.
  unfold py_min. destruct (Qlt_bool b a) eqn:E; [lra |].
  apply Qlt_bool_false in E. exact E.
Qed.

Lemma add_position_buy_ok (pf : Portfolio) (o : Order) :
  side o = "buy"%string -> exists pf', add_position pf o = Ok pf'.
Proof.
  intros Hs. unfold add_position. rewrite Hs, String.eqb_refl. cbn [negb].
  destruct (positions pf !! order_symbol o) as [ex |]; [| eauto].
  destruct (Qle_bool (quantity ex + order_quantity o) 0) eqn:E; [eauto |].
  apply Qle_bool_false in E. rewrite py_div_ok by lra. cbn [rbind]. eauto.
Qed.

Lemma remove_position_sell_ok (pf : Portfolio) (o : Order) :
  side o = "sell"%string -> exists pf', remove_position pf o = Ok pf'.
Proof.
  intros Hs. unfold remove_position. rewrite Hs, String.eqb_refl. cbn [negb].
  destruct (positions pf !! order_symbol o); eauto.
Qed.

Lemma add_position_keyed (pf pf' : Portfolio) (o : Order) :
  keyed (positions pf) -> add_position pf o = Ok pf' ->
  keyed (positions pf').
Proof.
  unfold add_position. intros Hk H.
  destruct (negb (String.eqb (side o) "buy")); [discriminate |].
  destruct (positions pf !! order_symbol o) as [ex |] eqn:Hex.
  - destruct (Qle_bool (quantity ex + order_quantity o) 0).
    + injection H as <-. cbn [positions]. intros k pos Hl.
      apply lookup_delete_Some in Hl as [_ Hl]. eauto.
    + destruct (py_div _ _) as [avg |]; [| discriminate].
      cbn [rbind] in H. injection H as <-. cbn [positions].
      intros k pos Hl. apply lookup_insert_Some in Hl as [[<- <-] | [_ Hl]].
      * cbn [symbol]. eauto.
      * eauto.
  - injection H as <-. cbn [positions]. intros k pos Hl.
    apply lookup_insert_Some in Hl as [[<- <-] | [_ Hl]]; [reflexivity | eauto].
Qed.

Lemma add_position_nonneg (pf pf' : Portfolio) (o : Order) :
  0 <= order_quantity o ->
  nonneg_quantities (positions pf) -> add_position pf o = Ok pf' ->
  nonneg_quantities (positions pf').
Proof.
  unfold add_position. intros Hq Hn H.
  destruct (negb (String.eqb (side o) "buy")); [discriminate |].
  destruct (positions pf !! order_symbol o) as [ex |] eqn:Hex.
  - destruct (Qle_bool (quantity ex + order_quantity o) 0) eqn:E.
    + injection H as <-. cbn [positions]. intros k pos Hl.
      apply lookup_delete_Some in Hl as [_ Hl]. eauto.
    + destruct (py_div _ _) as [avg |]; [| discriminate].
      cbn [rbind] in H. injection H as <-. cbn [positions].
      apply Qle_bool_false in E.
      intros k pos Hl. apply lookup_insert_Some in Hl as [[<- <-] | [_ Hl]].
      * cbn [quantity]. lra.
      * eauto.
  - injection H as <-. cbn [positions]. intros k pos Hl.
    apply lookup_insert_Some in Hl as [[<- <-] | [_ Hl]]; [exact Hq | eauto].
Qed.

Lemma remove_position_keyed (pf pf' : Portfolio) (o : Order) :
  keyed (positions pf) -> remove_position pf o = Ok pf' ->
  keyed (positions pf').
Proof.
  unfold remove_position. intros Hk H.
  destruct (negb (String.eqb (side o) "sell")); [discriminate |].
  destruct (positions pf !! order_symbol o) as [ex |] eqn:Hex.
  - injection H as <-. cbn [positions quantity].
    destruct (Qle_bool _ 0); intros k pos Hl.
    + apply lookup_delete_Some in Hl as [_ Hl]. eauto.
    + apply lookup_insert_Some in Hl as [[<- <-] | [_ Hl]]; [| eauto].
      cbn [symbol]. eauto.
  - injection H as <-. exact Hk.
Qed.

(** A sell never drives a quantity below zero, whatever its size: at most
    the held quantity is sold. *)
Lemma remove_position_nonneg (pf pf' : Portfolio) (o : Order) :
  nonneg_quantities (positions pf) -> remove_position pf o = Ok pf' ->
  nonneg_quantities (positions pf').
Proof.
  unfold remove_position. intros Hn H.
  destruct (negb (String.eqb (side o) "sell")); [discriminate |].
  destruct (positions pf !! order_symbol o) as [ex |] eqn:Hex.
  - injection H as <-. cbn [positions quantity].
    destruct (Qle_bool _ 0); intros k pos Hl.
    + apply lookup_delete_Some in Hl as [_ Hl]. eauto.
    + apply lookup_insert_Some in Hl as [[<- <-] | [_ Hl]]; [| eauto].
      cbn [quantity].
      pose proof (py_min_le_r (order_quantity o) (quantity ex)). lra.
  - injection H as <-. exact Hn.
Qed.

(** A sell of at least the held quantity closes the position. *)
Lemma remove_position_oversell (pf pf' : Portfolio) (o : Order) (ex : Position) :
  positions pf !! order_symbol o = Some ex ->
  quantity ex <= order_quantity o ->
  remove_position pf o = Ok pf' ->
  positions pf' !! order_symbol o = None.
Proof.
  unfold remove_position. intros Hex Hq H. rewrite Hex in H.
  destruct (negb (String.eqb (side o) "sell")); [discriminate |].
  injection H as <-. cbn [positions quantity].
  assert (E : Qle_bool (quantity ex - py_min (order_quantity o) (quantity ex)) 0
              = true).
  { apply Qle_bool_iff. unfold py_min.
    destruct (Qlt_bool (quantity ex) (order_quantity o)) eqn:E; [lra |].
    apply Qlt_bool_false in E. lra. }
  rewrite E. apply lookup_delete_eq.
Qed.

(** Buys of non-negative size and sells of any size keep every stored
    position under its own symbol and with a non-negative quantity, and no
    order of such a sequence raises. *)
Lemma apply_orders_invariant (orders : list Order) (pf : Portfolio) :
  Forall (fun o => side o = "buy"%string /\ 0 <= order_quantity o
                   \/ side o = "sell"%string) orders ->
  keyed (positions pf) -> nonneg_quantities (positions pf) ->
  exists pf',
    apply_orders pf orders = Ok pf'
    /\ keyed (positions pf') /\ nonneg_quantities (positions pf').
Proof.
  intros Hall. revert pf.
  induction Hall as [| o rest Ho _ IH]; intros pf Hk Hn; [cbn; eauto |].
  cbn [apply_orders]. unfold apply_order.
  destruct Ho as [[Hs Hq] | Hs]; rewrite Hs; cbn [String.eqb Ascii.eqb Bool.eqb].
  - destruct (add_position_buy_ok pf o Hs) as [pf1 H1]. rewrite H1.
    cbn [rbind]. apply IH.
    + eapply add_position_keyed; eauto.
    + eapply add_position_nonneg; eauto.
  - destruct (remove_position_sell_ok pf o Hs) as [pf1 H1]. rewrite H1.
    cbn [rbind]. apply IH.
    + eapply remove_position_keyed; eauto.
    + eapply remove_position_nonneg; eauto.
Qed.

(** C7.  The quantity invariant is broken by the first buy of a symbol:
    [add_position] removes an existing position whose total falls to zero or
    below, but stores a new position with whatever quantity the order
    carries.  A buy of -5 shares into an empty portfolio leaves an open
    position of -5 shares (and a buy of 0 shares an open position of 0). *)
Theorem add_position_negative_quantity :
  let pf := {| cash := 1000; positions := ∅; equity_history := [] |} in
  let order := mkOrder "AAA" (-5) 10 "buy" "entry" in
  exists pf' pos,
    add_position pf order = Ok pf'
    /\ positions pf' !! "AAA"%string = Some pos
    /\ quantity pos == -5 /\ quantity pos < 0.
Proof.
  intros pf order. unfold add_position, pf, order.
  cbn [side order_symbol positions String.eqb Ascii.eqb Bool.eqb negb].
  rewrite lookup_empty. eexists _, _. split; [reflexivity |].
  cbn [positions]. rewrite lookup_insert_eq.
  split; [reflexivity |]. cbn [quantity order_quantity]. split; [reflexivity | lra].
Qed.

End PortfolioM.

(** ** app/signals/indicators.py *)

Module Indicators.

(** A float of an indicator series: a number or the not-a-number sentinel. *)
Inductive fl : Type :=
  | F (q : Q)
  | NaN.

Definition is_nan (x : fl) : bool :=
  match x with NaN => true | F _ => false end.

Definition fadd (a b : fl) : fl :=
  match a, b with F x, F y => F (x + y) | _, _ => NaN end.

Definition fsub (a b : fl) : fl :=
  match a, b with F x, F y => F (x - y) | _, _ => NaN end.

Definition fmul (a b : fl) : fl :=
  match a, b with F x, F y => F (x * y) | _, _ => NaN end.

(** [a / b]: a zero divisor raises, also under a not-a-number dividend. *)
Definition fdiv (a b : fl) : result fl :=
  match b with
  | F y =>
      if Qeq_bool y 0 then Raise ZeroDivisionError
      else match a with F x => Ok (F (x / y)) | NaN => Ok NaN end
  | NaN => Ok NaN
  end.

Definition fabs (a : fl) : fl :=
  match a with F x => F (Qabs x) | NaN => NaN end.

(** [a == 0]; every comparison with not-a-number is false. *)
Definition feq0 (a : fl) : bool :=
  match a with F x => Qeq_bool x 0 | NaN => false end.

(** [data/providers.py]: a price bar.  Its fields are finite numbers. *)
Record PriceBar : Type := mkBar {
  timestamp : Z;
  open : Q;
  high : Q;
  low : Q;
  close : Q;
  volume : Q
}.

(** [int(x)]: truncation towards zero. *)
Definition py_int (x : Q) : Z := (Qnum x ÷ Zpos (Qden x))%Z.

(** [int(params.get("window", dflt))] *)
Definition window_param (params : gmap string Q) (dflt : Z) : Z :=
  py_int (default (inject_Z dflt) (params !! "window"%string)).

(** [values[a:b]] for bounds [0 <= a] and [0 <= b]. *)
Definition py_slice {A : Type} (a b : Z) (l : list A) : list A :=
  take (Z.to_nat (b - a)) (drop (Z.to_nat a) l).

(** [values[i]] for an index [0 <= i]; out of range raises. *)
Definition py_index {A : Type} (l : list A) (i : Z) : result A :=
  match l !! Z.to_nat i with
  | Some x => Ok x
  | None => Raise IndexError
  end.

(** [sum(values)]: starts from 0 and adds from the left. *)
Definition fsum (l : list fl) : fl := fold_left fadd l (F 0).

(** [range(n)] as integers. *)
Definition py_range (n : nat) : list Z := map Z.of_nat (seq 0 n).

Definition _get_close (bars : list PriceBar) : list Q := map close bars.

Definition _rolling_mean (values : list fl) (window : Z) : result (list fl) :=
  mapM
    (fun i : Z =>
       if (i + 1 <? window)%Z then Ok NaN
       else
         let window_slice := py_slice (i + 1 - window) (i + 1) values in
         fdiv (fsum window_slice) (F (inject_Z window)))
    (py_range (length values)).

(** The loop of [_ema]; [ema_value] is [None] before the first value. *)
Fixpoint ema_loop (alpha : fl) (ema_value : option fl) (values : list fl)
    : list fl :=
  match values with
  | [] => []
  | value :: rest =>
      let ema_value' :=
        match ema_value with
        | None => value
        | Some e => fadd (fmul alpha value) (fmul (fsub (F 1) alpha) e)
        end in
      ema_value' :: ema_loop alpha (Some ema_value') rest
  end.

Definition _ema (values : list fl) (window : Z) : result (list fl) :=
  let! alpha := fdiv (F 2) (F (inject_Z (window + 1))) in
  Ok (ema_loop alpha None values).

(** The loop of [_true_range]; the fields of a bar are finite, and so is
    every true range. *)
Fixpoint true_range_loop (prev_close : option Q) (bars : list PriceBar)
    : list Q :=
  match bars with
  | [] => []
  | bar :: rest =>
      let high_low := high bar - low bar in
      let tr :=
        match prev_close with
        | None => high_low
        | Some pc =>
            let high_close := Qabs (high bar - pc) in
            let low_close := Qabs (low bar - pc) in
            py_max (py_max high_low high_close) low_close
        end in
      tr :: true_range_loop (Some (close bar)) rest
  end.

Definition _true_range (bars : list PriceBar) : list fl :=
  map F (true_range_loop None bars).

(** [[nan if i + 1 < window else v for i, v in enumerate(values)]] *)
Definition mask_warmup (window : Z) (values : list fl) : list fl :=
  imap (fun i v => if (Z.of_nat i + 1 <? window)%Z then NaN else v) values.

Definition _sma (bars : list PriceBar) (params : gmap string Q)
    : result (list fl) :=
  let window := window_param params 14 in
  let closes := map F (_get_close bars) in
  _rolling_mean closes window.

Definition _ema_indicator (bars : list PriceBar) (params : gmap string Q)
    : result (list fl) :=
  let window := window_param params 14 in
  let closes := map F (_get_close bars) in
  let! ema_values := _ema closes window in
  Ok (mask_warmup window ema_values).

(** [closes[i] - closes[i - 1]] for [i] in [range(1, len(closes))]. *)
Fixpoint changes (closes : list Q) : list Q :=
  match closes with
  | prev :: (cur :: _) as rest => (cur - prev) :: changes rest
  | _ => []
  end.

Definition _rsi (bars : list PriceBar) (params : gmap string Q)
    : result (list fl) :=
  let window := window_param params 14 in
  let closes := _get_close bars in
  let gains := F 0 :: map (fun change => F (py_max change 0)) (changes closes) in
  let losses := F 0 :: map (fun change => F (py_max (- change) 0)) (changes closes) in
  let! avg_gain := _ema gains window in
  let! avg_loss := _ema losses window in
  mapM
    (fun i : Z =>
       if (i + 1 <? window)%Z then Ok NaN
       else
         let! l := py_index avg_loss i in
         if feq0 l then Ok (F 100)
         else
           let! g := py_index avg_gain i in
           let! rs := fdiv g l in
           let! t := fdiv (F 100) (fadd (F 1) rs) in
           Ok (fsub (F 100) t))
    (py_range (length closes)).

Definition _atr (bars : list PriceBar) (params : gmap string Q)
    : result (list fl) :=
  let window := window_param params 14 in
  let tr := _true_range bars in
  let! atr_raw := _ema tr window in
  Ok (mask_warmup window atr_raw).

Definition _roc (bars : list PriceBar) (params : gmap string Q)
    : result (list fl) :=
  let window := window_param params 12 in
  let closes := _get_close bars in
  mapM
    (fun '(i, price) =>
       if (i <? window)%Z then Ok NaN
       else
         let! prev := py_index closes (i - window) in
         if Qeq_bool prev 0 then Ok NaN
         else
           let! r := py_div (price - prev) prev in
           Ok (F (r * 100)))
    (zip (py_range (length closes)) closes).

(** The directional moves of [_adx], for [i] in [range(1, len(bars))]. *)
Fixpoint dm_loop (bars : list PriceBar) : list (Q * Q) :=
  match bars with
  | prev :: (cur :: _) as rest =>
      let up_move := high cur - high prev in
      let down_move := low prev - low cur in
      (if Qlt_bool down_move up_move then py_max up_move 0 else 0,
       if Qlt_bool up_move down_move then py_max down_move 0 else 0)
      :: dm_loop rest
  | _ => []
  end.

Definition _adx (bars : list PriceBar) (params : gmap string Q)
    : result (list fl) :=
  let window := window_param params 14 in
  let plus_dm := F 0 :: map (fun d => F (fst d)) (dm_loop bars) in
  let minus_dm := F 0 :: map (fun d => F (snd d)) (dm_loop bars) in
  let tr := _true_range bars in
  let! plus_di_raw := _ema plus_dm window in
  let! minus_di_raw := _ema minus_dm window in
  let! adx_values :=
    mapM
      (fun i : Z =>
         let! tr_i := py_index tr i in
         if feq0 tr_i then Ok NaN
         else
           let! p := py_index plus_di_raw i in
           let! plus_di := fdiv (fmul (F 100) p) tr_i in
           let! m := py_index minus_di_raw i in
           let! minus_di := fdiv (fmul (F 100) m) tr_i in
           let denom := fadd plus_di minus_di in
           if feq0 denom then Ok NaN
           else
             let! r := fdiv (fabs (fsub plus_di minus_di)) denom in
             Ok (fmul r (F 100)))
      (py_range (length bars)) in
  _ema adx_values window.

(** The bars of [tests/signals/test_indicators.py]. *)
Definition _bars (values : list Z) : list PriceBar :=
  imap (fun i v => mkBar (Z.of_nat i) (inject_Z v) (inject_Z v + 1)
                         (inject_Z v - 1) (inject_Z v) 1000000) values.

Definition fl_eqb (a b : fl) : bool :=
  match a, b with
  | F x, F y => Qeq_bool x y
  | NaN, NaN => true
  | _, _ => false
  end.

Definition series_eqb (r : result (list fl)) (expected : list fl) : bool :=
  match r with
  | Ok l => (length l =? length expected)%nat
            && forallb (fun p => fl_eqb (fst p) (snd p)) (zip l expected)
  | Raise _ => false
  end.

Example test_sma_indicator :
  series_eqb (_sma (_bars [1; 2; 3; 4; 5; 6]%Z) {["window"%string := 3]})
             [NaN; NaN; F 2; F 3; F 4; F 5] = true.
Proof. vm_compute. reflexivity. Qed.

(** *** Warm-up of the series *)

(** [warm_up first l]: not-a-number at every index before [first], a number
    at every index from [first] on. *)
Definition warm_up (first : Z) (l : list fl) : Prop :=
  forall (i : nat) (x : fl), l !! i = Some x ->
    if (Z.of_nat i <? first)%Z then x = NaN else is_nan x = false.

Definition all_numbers (l : list fl) : Prop :=
  Forall (fun x => is_nan x = false) l.

Definition nonneg_number (x : fl) : Prop :=
  match x with F q => 0 <= q | NaN => False end.

Lemma mapM_ok {A B : Type} (f : A -> result B) (P : A -> B -> Prop)
    (l : list A) :
  (forall x, x ∈ l -> exists y, f x = Ok y /\ P x y) ->
  exists l', mapM f l = Ok l' /\ Forall2 P l l'.
Proof.
  induction l as [| a l IH]; intros H; cbn [mapM].
  - exists []. split; [reflexivity | constructor].
  - destruct (H a) as (y & Hy & HP); [left |].
    destruct IH as (l' & Hl' & HF).
    { intros x Hx. apply H. now right. }
    rewrite Hy, Hl'. cbn [rbind]. exists (y :: l').
    split; [reflexivity | now constructor].
Qed.

Lemma py_range_lookup (n i : nat) :
  (i < n)%nat -> py_range n !! i = Some (Z.of_nat i).
Proof.
  intros H. unfold py_range. rewrite list_lookup_fmap.
  rewrite lookup_seq_lt by exact H. reflexivity.
Qed.

Lemma py_range_elem (n : nat) (z : Z) :
  z ∈ py_range n -> exists i : nat, z = Z.of_nat i /\ (i < n)%nat.
Proof.
  unfold py_range. intros H. apply list_elem_of_fmap in H as (i & -> & Hi).
  apply elem_of_seq in Hi. exists i. split; [reflexivity | lia].
Qed.

Lemma py_range_length (n : nat) : length (py_range n) = n.
Proof. unfold py_range. now rewrite length_fmap, length_seq. Qed.

(** A series computed index by index over [range(n)]. *)
Lemma mapM_range (f : Z -> result fl) (P : Z -> fl -> Prop) (n : nat) :
  (forall i : nat, (i < n)%nat -> exists y, f (Z.of_nat i) = Ok y
                                          /\ P (Z.of_nat i) y) ->
  exists l,
    mapM f (py_range n) = Ok l /\ length l = n
    /\ forall (i : nat) x, l !! i = Some x -> P (Z.of_nat i) x.
Proof.
  intros H. destruct (mapM_ok f P (py_range n)) as (l & Hl & HF).
  { intros z Hz. apply py_range_elem in Hz as (i & -> & Hi). now apply H. }
  exists l. split; [exact Hl |].
  pose proof (Forall2_length _ _ _ HF) as Hlen.
  rewrite py_range_length in Hlen. split; [now symmetry |].
  intros i x Hx.
  assert (Hi : (i < n)%nat) by (rewrite Hlen; eapply lookup_lt_Some; eauto).
  destruct (Forall2_lookup_l _ _ _ _ _ HF (py_range_lookup n i Hi))
    as (y & Hy & HP).
  congruence.
Qed.

Lemma fadd_number (a b : fl) :
  is_nan a = false -> is_nan b = false -> is_nan (fadd a b) = false.
Proof. destruct a, b; cbn; congruence. Qed.

Lemma fsum_number (l : list fl) : all_numbers l -> is_nan (fsum l) = false.
Proof.
  unfold fsum. generalize (F 0) (eq_refl : is_nan (F 0) = false).
  induction l as [| x l IH]; intros acc Hacc Hall; cbn [fold_left].
  - exact Hacc.
  - inversion Hall; subst. apply IH; [| assumption].
    now apply fadd_number.
Qed.

Lemma all_numbers_map_F (l : list Q) : all_numbers (map F l).
Proof. unfold all_numbers. apply Forall_fmap, Forall_true. reflexivity. Qed.

Lemma py_slice_numbers (a b : Z) (l : list fl) :
  all_numbers l -> all_numbers (py_slice a b l).
Proof. intros H. unfold py_slice. now apply Forall_take, Forall_drop. Qed.

Lemma inject_Z_nonzero (w : Z) : (w <> 0)%Z -> Qeq_bool (inject_Z w) 0 = false.
Proof.
  intros H. destruct (Qeq_bool (inject_Z w) 0) eqn:E; [| reflexivity].
  apply Qeq_bool_iff in E. unfold Qeq in E. cbn in E. lia.
Qed.

Lemma rolling_mean_warm_up (values : list fl) (window : Z) :
  (1 <= window)%Z -> all_numbers values ->
  exists l,
    _rolling_mean values window = Ok l /\ length l = length values
    /\ warm_up (window - 1) l.
Proof.
  intros Hw Hall. unfold _rolling_mean.
  destruct (mapM_range
    (fun i : Z =>
       if (i + 1 <? window)%Z then Ok NaN
       else fdiv (fsum (py_slice (i + 1 - window) (i + 1) values))
                 (F (inject_Z window)))
    (fun i y => if (i <? window - 1)%Z then y = NaN else is_nan y = false)
    (length values)) as (l & Hl & Hlen & Hp).
  - intros i _.
    destruct (Z.of_nat i + 1 <? window)%Z eqn:E.
    + exists NaN. split; [reflexivity |].
      apply Z.ltb_lt in E.
      replace (Z.of_nat i <? window - 1)%Z with true
        by (symmetry; apply Z.ltb_lt; lia).
      reflexivity.
    + apply Z.ltb_ge in E.
      replace (Z.of_nat i <? window - 1)%Z with false
        by (symmetry; apply Z.ltb_ge; lia).
      pose proof (fsum_number _ (py_slice_numbers
                    (Z.of_nat i + 1 - window) (Z.of_nat i + 1) values Hall)) as Hs.
      destruct (fsum _) as [sq |]; [| discriminate].
      unfold fdiv. rewrite inject_Z_nonzero by lia. eauto.
  - exists l. split; [exact Hl |]. split; [exact Hlen |]. exact Hp.
Qed.

Lemma ema_loop_length (alpha : fl) (st : option fl) (values : list fl) :
  length (ema_loop alpha st values) = length values.
Proof.
  revert st. induction values as [| v l IH]; intros st; cbn; [| rewrite IH];
    reflexivity.
Qed.

Lemma ema_loop_numbers (a : Q) (st : option fl) (values : list fl) :
  match st with Some e => is_nan e = false | None => True end ->
  all_numbers values -> all_numbers (ema_loop (F a) st values).
Proof.
  revert st. induction values as [| v l IH]; intros st Hst Hall;
    cbn [ema_loop]; [constructor |].
  inversion Hall as [| ? ? Hv Hl]; subst.
  assert (Hnew : is_nan match st with
                        | None => v
                        | Some e => fadd (fmul (F a) v)
                                         (fmul (fsub (F 1) (F a)) e)
                        end = false).
  { destruct st as [[e |] |]; cbn in *; try congruence.
    destruct v; cbn in *; congruence. }
  constructor; [exact Hnew |]. now apply IH.
Qed.

Lemma ema_ok (values : list fl) (window : Z) :
  (window + 1 <> 0)%Z ->
  _ema values window
  = Ok (ema_loop (F (2 / inject_Z (window + 1))) None values).
Proof.
  intros H. unfold _ema, fdiv. now rewrite inject_Z_nonzero.
Qed.

Lemma mask_warmup_length (window : Z) (values : list fl) :
  length (mask_warmup window values) = length values.
Proof. unfold mask_warmup. apply length_imap. Qed.

Lemma mask_warm_up (window : Z) (values : list fl) :
  all_numbers values -> warm_up (window - 1) (mask_warmup window values).
Proof.
  intros Hall i x Hx. unfold mask_warmup in Hx.
  rewrite list_lookup_imap in Hx.
  destruct (values !! i) as [v |] eqn:Hv; [| discriminate].
  cbn in Hx. injection Hx as <-.
  destruct (Z.of_nat i + 1 <? window)%Z eqn:E.
  - apply Z.ltb_lt in E.
    replace (Z.of_nat i <? window - 1)%Z with true
      by (symmetry; apply Z.ltb_lt; lia).
    reflexivity.
  - apply Z.ltb_ge in E.
    replace (Z.of_nat i <? window - 1)%Z with false
      by (symmetry; apply Z.ltb_ge; lia).
    unfold all_numbers in Hall. rewrite Forall_lookup in Hall. eauto.
Qed.

Lemma true_range_loop_length (prev : option Q) (bars : list PriceBar) :
  length (true_range_loop prev bars) = length bars.
Proof.
  revert prev. induction bars as [| b l IH]; intros prev; cbn;
    [| rewrite IH]; reflexivity.
Qed.

Lemma true_range_length (bars : list PriceBar) :
  length (_true_range bars) = length bars.
Proof.
  unfold _true_range. now rewrite length_fmap, true_range_loop_length.
Qed.

Lemma sma_warm_up (bars : list PriceBar) (params : gmap string Q) :
  (1 <= window_param params 14)%Z ->
  exists l,
    _sma bars params = Ok l /\ length l = length bars
    /\ warm_up (window_param params 14 - 1) l.
Proof.
  intros Hw. unfold _sma.
  destruct (rolling_mean_warm_up (map F (_get_close bars))
              (window_param params 14) Hw (all_numbers_map_F _))
    as (l & Hl & Hlen & Hwarm).
  exists l. split; [exact Hl |]. split; [| exact Hwarm].
  rewrite Hlen. unfold _get_close. now rewrite !length_map.
Qed.

Lemma ema_indicator_warm_up (bars : list PriceBar) (params : gmap string Q) :
  (1 <= window_param params 14)%Z ->
  exists l,
    _ema_indicator bars params = Ok l /\ length l = length bars
    /\ warm_up (window_param params 14 - 1) l.
Proof.
  intros Hw. unfold _ema_indicator. rewrite ema_ok by lia. cbn [rbind].
  eexists. split; [reflexivity |]. split.
  - rewrite mask_warmup_length, ema_loop_length. unfold _get_close.
    now rewrite !length_map.
  - apply mask_warm_up, ema_loop_numbers; [exact I |].
    apply all_numbers_map_F.
Qed.

Lemma atr_warm_up (bars : list PriceBar) (params : gmap string Q) :
  (1 <= window_param params 14)%Z ->
  exists l,
    _atr bars params = Ok l /\ length l = length bars
    /\ warm_up (window_param params 14 - 1) l.
Proof.
  intros Hw. unfold _atr. rewrite ema_ok by lia. cbn [rbind].
  eexists. split; [reflexivity |]. split.
  - now rewrite mask_warmup_length, ema_loop_length, true_range_length.
  - apply mask_warm_up, ema_loop_numbers; [exact I |].
    apply all_numbers_map_F.
Qed.

Lemma changes_length (closes : list Q) :
  length (changes closes) = pred (length closes).
Proof.
  induction closes as [| a [| b l] IH]; cbn [changes length pred] in *;
    [reflexivity | reflexivity |].
  now rewrite IH.
Qed.

Lemma ema_loop_nonneg (a : Q) (st : option fl) (values : list fl) :
  0 <= a -> a <= 1 ->
  match st with Some e => nonneg_number e | None => True end ->
  Forall nonneg_number values ->
  Forall nonneg_number (ema_loop (F a) st values).
Proof.
  intros Ha0 Ha1. revert st.
  induction values as [| v l IH]; intros st Hst Hall; cbn [ema_loop];
    [constructor |].
  inversion Hall as [| ? ? Hv Hl]; subst.
  assert (Hnew : nonneg_number match st with
                               | None => v
                               | Some e => fadd (fmul (F a) v)
                                                (fmul (fsub (F 1) (F a)) e)
                               end).
  { destruct st as [[e |] |]; cbn in *; try contradiction; try assumption.
    destruct v as [vq |]; cbn in *; [nra | contradiction]. }
  constructor; [exact Hnew |]. now apply IH.
Qed.

Lemma alpha_range (w : Z) :
  (1 <= w)%Z -> 0 <= 2 / inject_Z (w + 1) /\ 2 / inject_Z (w + 1) <= 1.
Proof.
  intros Hw.
  assert (H2 : 2 <= inject_Z (w + 1)).
  { change 2 with (inject_Z 2). rewrite <- Zle_Qle. lia. }
  split.
  - apply Qle_shift_div_l; lra.
  - apply Qle_shift_div_r; lra.
Qed.

Lemma py_index_ok {A : Type} (l : list A) (i : nat) (x : A) :
  l !! i = Some x -> py_index l (Z.of_nat i) = Ok x.
Proof. intros H. unfold py_index. now rewrite Nat2Z.id, H. Qed.

Lemma warm_up_case (w i : Z) (y : fl) :
  (if (i + 1 <? w)%Z then y = NaN else is_nan y = false) ->
  if (i <? w - 1)%Z then y = NaN else is_nan y = false.
Proof.
  destruct (i + 1 <? w)%Z eqn:E; intros H.
  - apply Z.ltb_lt in E.
    replace (i <? w - 1)%Z with true by (symmetry; apply Z.ltb_lt; lia).
    exact H.
  - apply Z.ltb_ge in E.
    replace (i <? w - 1)%Z with false by (symmetry; apply Z.ltb_ge; lia).
    exact H.
Qed.

Lemma rsi_warm_up (bars : list PriceBar) (params : gmap string Q) :
  (1 <= window_param params 14)%Z ->
  exists l,
    _rsi bars params = Ok l /\ length l = length bars
    /\ warm_up (window_param params 14 - 1) l.
Proof.
  intros Hw. unfold _rsi. rewrite !ema_ok by lia. cbn [rbind].
  set (w := window_param params 14) in *.
  set (alpha := 2 / inject_Z (w + 1)).
  set (closes := _get_close bars).
  set (avg_gain := ema_loop (F alpha) None
                     (F 0 :: map (fun change => F (py_max change 0)) _)).
  set (avg_loss := ema_loop (F alpha) None
                     (F 0 :: map (fun change => F (py_max (- change) 0)) _)).
  destruct (alpha_range w Hw) as [Ha0 Ha1]. fold alpha in Ha0, Ha1.
  assert (Hgain : Forall nonneg_number avg_gain).
  { apply ema_loop_nonneg; try assumption; [exact I |].
    constructor; [cbn; lra |]. apply Forall_fmap, Forall_true.
    intros c. cbn. apply py_max_ge_r. }
  assert (Hloss : Forall nonneg_number avg_loss).
  { apply ema_loop_nonneg; try assumption; [exact I |].
    constructor; [cbn; lra |]. apply Forall_fmap, Forall_true.
    intros c. cbn. apply py_max_ge_r. }
  assert (Hlg : (length closes <= length avg_gain)%nat).
  { unfold avg_gain. rewrite ema_loop_length. cbn [length].
    rewrite length_map, changes_length. lia. }
  assert (Hll : (length closes <= length avg_loss)%nat).
  { unfold avg_loss. rewrite ema_loop_length. cbn [length].
    rewrite length_map, changes_length. lia. }
  match goal with
  | |- exists l, mapM ?f _ = _ /\ _ =>
      destruct (mapM_range f
        (fun i y => if (i + 1 <? w)%Z then y = NaN else is_nan y = false)
        (length closes)) as (l & Hl & Hlen & Hp)
  end.
  - intros i Hi. destruct (Z.of_nat i + 1 <? w)%Z; [eauto |].
    destruct (lookup_lt_is_Some_2 avg_loss i) as [lo Hlo]; [lia |].
    destruct (lookup_lt_is_Some_2 avg_gain i) as [ga Hga]; [lia |].
    rewrite (py_index_ok _ _ _ Hlo). cbn [rbind].
    destruct (feq0 lo) eqn:Ez; [eauto |].
    rewrite (py_index_ok _ _ _ Hga). cbn [rbind].
    rewrite Forall_lookup in Hgain, Hloss.
    specialize (Hgain _ _ Hga). specialize (Hloss _ _ Hlo).
    destruct lo as [lq |]; [| contradiction].
    destruct ga as [gq |]; [| contradiction].
    cbn [nonneg_number] in Hgain, Hloss. cbn [feq0] in Ez.
    unfold fdiv at 1. rewrite Ez. cbn [rbind fadd].
    assert (Hlq : 0 < lq).
    { destruct (Qeq_dec lq 0) as [E0 | E0]; [| lra].
      apply Qeq_bool_iff in E0. congruence. }
    assert (Hrs : 0 <= gq / lq) by now apply Risk.Qdiv_nonneg.
    unfold fdiv.
    destruct (Qeq_bool (1 + gq / lq) 0) eqn:E1.
    { apply Qeq_bool_iff in E1. lra. }
    cbn [rbind fsub]. eauto.
  - exists l. split; [exact Hl |]. split.
    + rewrite Hlen. unfold closes, _get_close. now rewrite length_map.
    + intros i x Hx. apply warm_up_case. exact (Hp i x Hx).
Qed.

(** The rate of change: not-a-number at every index before [window]; from
    [window] on, a number exactly when the close [window] bars back is not
    zero. *)
Definition roc_warm_up (window : Z) (closes : list Q) (l : list fl) : Prop :=
  forall (i : nat) (x : fl), l !! i = Some x ->
    if (Z.of_nat i <? window)%Z then x = NaN
    else exists prev,
        closes !! (i - Z.to_nat window)%nat = Some prev
        /\ if Qeq_bool prev 0 then x = NaN else is_nan x = false.

Lemma roc_warm_up_ok (bars : list PriceBar) (params : gmap string Q) :
  (0 <= window_param params 12)%Z ->
  exists l,
    _roc bars params = Ok l /\ length l = length bars
    /\ roc_warm_up (window_param params 12) (_get_close bars) l.
Proof.
  intros Hw. unfold _roc.
  set (w := window_param params 12) in *.
  set (closes := _get_close bars).
  match goal with
  | |- exists l, mapM ?f ?xs = _ /\ _ =>
      destruct (mapM_ok f
        (fun '(i, price) y =>
           if (i <? w)%Z then y = NaN
           else exists prev,
               closes !! Z.to_nat (i - w) = Some prev
               /\ if Qeq_bool prev 0 then y = NaN else is_nan y = false)
        xs) as (l & Hl & HF)
  end.
  - intros [i price] Hin.
    apply list_elem_of_lookup in Hin as [k Hk].
    apply lookup_zip_with_Some in Hk as (i' & p' & [= <- <-] & Hi & Hp).
    assert (Hkn : (k < length closes)%nat) by (eapply lookup_lt_Some; eauto).
    rewrite py_range_lookup in Hi by exact Hkn. injection Hi as <-.
    destruct (Z.of_nat k <? w)%Z eqn:E; [eauto |].
    apply Z.ltb_ge in E.
    destruct (lookup_lt_is_Some_2 closes (Z.to_nat (Z.of_nat k - w)))
      as [prev Hprev]; [lia |].
    unfold py_index. rewrite Hprev. cbn [rbind].
    destruct (Qeq_bool prev 0) eqn:E0.
    + exists NaN. split; [reflexivity |]. exists prev. now rewrite E0.
    + unfold py_div. rewrite E0. cbn [rbind]. eexists. split; [reflexivity |].
      exists prev. now rewrite E0.
  - exists l. split; [exact Hl |].
    pose proof (Forall2_length _ _ _ HF) as Hlen.
    rewrite length_zip_with, py_range_length, Nat.min_id in Hlen.
    split.
    + rewrite <- Hlen. unfold closes, _get_close. now rewrite length_map.
    + intros i x Hx.
      assert (Hi : (i < length closes)%nat)
        by (rewrite Hlen; eapply lookup_lt_Some; eauto).
      destruct (lookup_lt_is_Some_2 closes i Hi) as [price Hprice].
      assert (Hz : zip (py_range (length closes)) closes !! i
                   = Some (Z.of_nat i, price)).
      { apply lookup_zip_with_Some. exists (Z.of_nat i), price.
        split; [reflexivity |]. split; [now apply py_range_lookup | exact Hprice]. }
      destruct (Forall2_lookup_l _ _ _ _ _ HF Hz) as (y & Hy & HP).
      assert (y = x) by congruence. subst y. cbn in HP.
      destruct (Z.of_nat i <? w)%Z eqn:E; [exact HP |].
      apply Z.ltb_ge in E.
      replace (i - Z.to_nat w)%nat with (Z.to_nat (Z.of_nat i - w)) by lia.
      exact HP.
Qed.

(** *** The directional index *)

Lemma fmul_nan_r (a : fl) : fmul a NaN = NaN.
Proof. now destruct a. Qed.

Lemma fadd_nan_r (a : fl) : fadd a NaN = NaN.
Proof. now destruct a. Qed.

(** Once the running average is not-a-number it stays so. *)
Lemma ema_loop_nan (alpha : fl) (values : list fl) :
  Forall (fun x => x = NaN) (ema_loop alpha (Some NaN) values).
Proof.
  induction values as [| v l IH]; cbn [ema_loop]; [constructor |].
  rewrite fmul_nan_r, fadd_nan_r. now constructor.
Qed.

Lemma dm_loop_length (bars : list PriceBar) :
  length (dm_loop bars) = pred (length bars).
Proof.
  induction bars as [| a [| b l] IH]; cbn [dm_loop length pred] in *;
    [reflexivity | reflexivity |].
  now rewrite IH.
Qed.

Lemma number_inv (x : fl) : is_nan x = false -> exists q, x = F q.
Proof. destruct x; [eauto | discriminate]. Qed.

(** The first entry of [adx_values] is always not-a-number (both
    directional moves start at 0, so either the true range or the sum of the
    two indices is zero), and the final smoothing is seeded with it: the
    whole ADX series is not-a-number. *)
Lemma adx_all_nan (bars : list PriceBar) (params : gmap string Q) :
  (window_param params 14 + 1 <> 0)%Z ->
  exists l,
    _adx bars params = Ok l /\ length l = length bars
    /\ forall (i : nat) (x : fl), l !! i = Some x -> x = NaN.
Proof.
  intros Hw. unfold _adx. rewrite !ema_ok by exact Hw. cbn [rbind].
  set (w := window_param params 14) in *.
  set (alpha := 2 / inject_Z (w + 1)).
  set (plus_di_raw := ema_loop (F alpha) None
                        (F 0 :: map (fun d => F (fst d)) _)).
  set (minus_di_raw := ema_loop (F alpha) None
                         (F 0 :: map (fun d => F (snd d)) _)).
  set (tr := _true_range bars).
  assert (Hplus : all_numbers plus_di_raw).
  { apply ema_loop_numbers; [exact I |]. constructor; [reflexivity |].
    apply Forall_fmap, Forall_true. reflexivity. }
  assert (Hminus : all_numbers minus_di_raw).
  { apply ema_loop_numbers; [exact I |]. constructor; [reflexivity |].
    apply Forall_fmap, Forall_true. reflexivity. }
  assert (Hlp : (length bars <= length plus_di_raw)%nat).
  { unfold plus_di_raw. rewrite ema_loop_length. cbn [length].
    rewrite length_map, dm_loop_length. lia. }
  assert (Hlm : (length bars <= length minus_di_raw)%nat).
  { unfold minus_di_raw. rewrite ema_loop_length. cbn [length].
    rewrite length_map, dm_loop_length. lia. }
  assert (Hltr : length tr = length bars) by apply true_range_length.
  assert (Htr : all_numbers tr) by apply all_numbers_map_F.
  match goal with
  | |- exists l, (let! adx_values := mapM ?f _ in _) = _ /\ _ =>
      destruct (mapM_range f (fun i y => i = 0%Z -> y = NaN) (length bars))
        as (adx_values & Hadx & Hlen & Hp)
  end.
  - intros i Hi.
    destruct (lookup_lt_is_Some_2 tr i) as [tr_i Htri]; [lia |].
    destruct (lookup_lt_is_Some_2 plus_di_raw i) as [pl Hpl]; [lia |].
    destruct (lookup_lt_is_Some_2 minus_di_raw i) as [mi Hmi]; [lia |].
    rewrite (py_index_ok _ _ _ Htri). cbn [rbind].
    destruct (feq0 tr_i) eqn:Ez; [eauto |].
    rewrite (py_index_ok _ _ _ Hpl). cbn [rbind].
    unfold all_numbers in Hplus, Hminus, Htr.
    rewrite Forall_lookup in Hplus, Hminus, Htr.
    destruct (number_inv _ (Htr _ _ Htri)) as [t ->].
    destruct (number_inv _ (Hplus _ _ Hpl)) as [pq ->].
    destruct (number_inv _ (Hminus _ _ Hmi)) as [mq ->].
    cbn [feq0] in Ez. cbn [fmul]. unfold fdiv at 1. rewrite Ez. cbn [rbind].
    rewrite (py_index_ok _ _ _ Hmi). cbn [rbind fmul].
    unfold fdiv at 1. rewrite Ez. cbn [rbind fadd feq0].
    destruct (Qeq_bool (100 * pq / t + 100 * mq / t) 0) eqn:Ed.
    + eauto.
    + cbn [fsub fabs]. unfold fdiv. rewrite Ed. cbn [rbind fmul].
      eexists. split; [reflexivity |]. intros Hi0.
      assert (i = 0%nat) by lia. subst i.
      cbn in Hpl, Hmi. injection Hpl as <-. injection Hmi as <-.
      exfalso.
      assert (H0 : 100 * 0 / t + 100 * 0 / t == 0)
        by (unfold Qdiv; ring).
      apply Qeq_bool_iff in H0. congruence.
  - rewrite Hadx. cbn [rbind]. rewrite ema_ok by exact Hw.
    eexists. split; [reflexivity |]. split.
    + now rewrite ema_loop_length.
    + destruct adx_values as [| y rest]; [intros i x Hx; discriminate |].
      assert (Hy : y = NaN) by (apply (Hp 0%nat y); reflexivity).
      subst y. cbn [ema_loop].
      pose proof (ema_loop_nan (F (2 / inject_Z (w + 1))) rest) as Hn.
      rewrite Forall_lookup in Hn.
      intros [| i] x Hx; cbn in Hx; [congruence | eauto].
Qed.

Lemma window_param_roc (params : gmap string Q) :
  (1 <= window_param params 14)%Z -> (1 <= window_param params 12)%Z.
Proof.
  unfold window_param. destruct (params !! "window"%string); cbn [default].
  - intros H. exact H.
  - intros _. vm_compute. intros H. discriminate H.
Qed.

(** C3 (as amended).  For every bar series and every configured window of
    at least 1: SMA, EMA, RSI and ATR are computed without error, have one
    entry per bar, are not-a-number at every index [i] with
    [i + 1 < window] and a number at every later index; ROC is computed
    without error, has one entry per bar, is not-a-number at every index
    [i < window], and at an index [i >= window] is a number exactly when the
    close [window] bars back is not zero (not-a-number when it is zero).
    Nothing is stated about ADX. *)
Theorem indicators_warm_up (bars : list PriceBar) (params : gmap string Q) :
  (1 <= window_param params 14)%Z ->
  (forall f, f ∈ [_sma; _ema_indicator; _rsi; _atr] ->
     exists l, f bars params = Ok l /\ length l = length bars
               /\ warm_up (window_param params 14 - 1) l)
  /\ (exists l, _roc bars params = Ok l /\ length l = length bars
                /\ roc_warm_up (window_param params 12) (_get_close bars) l).
Proof.
  intros Hw. split.
  - intros f Hf. repeat (apply elem_of_cons in Hf as [-> | Hf]).
    + now apply sma_warm_up.
    + now apply ema_indicator_warm_up.
    + now apply rsi_warm_up.
    + now apply atr_warm_up.
    + now apply elem_of_nil in Hf.
  - apply roc_warm_up_ok. pose proof (window_param_roc params Hw). lia.
Qed.

Lemma indicators_warm_up_witness :
  exists l,
    _rsi (_bars [1; 2; 3; 2; 3; 4; 5; 6]%Z) {["window"%string := 2]} = Ok l
    /\ length l = 8%nat /\ warm_up 1 l.
Proof.
  assert (Hw : (1 <= window_param {["window"%string := 2%Q]} 14)%Z)
    by (vm_compute; intros H; discriminate H).
  destruct (indicators_warm_up (_bars [1; 2; 3; 2; 3; 4; 5; 6]%Z)
              {["window"%string := 2]} Hw) as [H _].
  apply (H _rsi). set_solver.
Defined.

(** C3 as stated fails for ROC: with window 1 and closes 0, 5 the entry at
    index 1, past the warm-up, is not-a-number because the earlier close is
    zero. *)
Lemma roc_nan_after_warm_up :
  let bars := [mkBar 0 0 1 0 0 1000; mkBar 1 5 6 4 5 1000] in
  let params : gmap string Q := {["window"%string := 1]} in
  window_param params 12 = 1%Z /\ (1 <= length bars)%nat
  /\ exists l, _roc bars params = Ok l /\ l !! 1%nat = Some NaN.
Proof.
  split; [vm_compute; reflexivity |]. split; [cbn; lia |].
  eexists. split; vm_compute; reflexivity.
Qed.

(** The ADX series of the bars of the indicator tests. *)
Example adx_test_bars :
  series_eqb (_adx (_bars [1; 2; 3; 2; 3; 4; 5; 6]%Z) {["window"%string := 2]})
             [NaN; NaN; NaN; NaN; NaN; NaN; NaN; NaN] = true.
Proof. vm_compute. reflexivity. Qed.

End Indicators.

(** ** app/signals/rules.py and app/signals/pipeline.py *)

(** The syntax trees of Python's [ast] module, as far as [SafeEval] tells
    them apart.  A node of a class for which [SafeEval] has no [visit_]
    method is an [Other] node: only its class name and its child nodes, in
    field order, matter to [generic_visit] (operator and context nodes have
    no children and no effect, and are left out). *)
Module ast.

#[local] Set Warnings "-register-all".

Inductive boolop : Type := And | Or.

Inductive unaryop : Type := Not | USub | UAdd | Invert.

Inductive operator : Type :=
  | Add | Sub | Mult | Div | Pow | Mod | FloorDiv.

Inductive cmpop : Type :=
  | Gt | GtE | Lt | LtE | Eq | NotEq | Is | IsNot | In | NotIn.

(** The values a rule can compute: [None], a boolean, or a number (an
    integer or a float, not told apart). *)
Inductive value : Type :=
  | VNone
  | VBool (b : bool)
  | VNum (x : Indicators.fl).

Inductive expr : Type :=
  | Name (id : string)
  | Constant (v : value)
  | BoolOp (op : boolop) (values : list expr)
  | UnaryOp (op : unaryop) (operand : expr)
  | BinOp (left : expr) (op : operator) (right : expr)
  | Compare (left : expr) (ops : list cmpop) (comparators : list expr)
  | Call (func : expr) (args : list expr) (keywords : list (string * expr))
  | Other (kind : string) (children : list expr).

End ast.

Module Rules.

Import Indicators.
Export ast.

(** What the rule engine takes from Python itself: the parser behind
    [ast.parse(text, mode="eval")] (here it gives the body of the
    [Expression] node, which [visit_Expression] hands on to [visit]), the
    built-in functions behind [ALLOWED_FUNCS] (called with positional and
    keyword arguments), and the power operator on numbers. *)
Class PyRuntime : Type := {
  ast_parse : string -> result expr;
  call_builtin : string -> list value -> list (string * value) -> result value;
  number_pow : fl -> fl -> result fl
}.

(** [bool(v)] *)
Definition truthy (v : value) : bool :=
  match v with
  | VNone => false
  | VBool b => b
  | VNum (F q) => negb (Qeq_bool q 0)
  | VNum NaN => true
  end.

(** The number a value stands for in arithmetic and ordering; [None] has
    none. *)
Definition as_number (v : value) : option fl :=
  match v with
  | VNone => None
  | VBool b => Some (F (if b then 1 else 0))
  | VNum x => Some x
  end.

(** [float(v)] *)
Definition to_float (v : value) : result fl :=
  match as_number v with
  | Some x => Ok x
  | None => Raise TypeError
  end.

Definition fl_lt (a b : fl) : bool :=
  match a, b with F x, F y => Qlt_bool x y | _, _ => false end.

Definition fl_le (a b : fl) : bool :=
  match a, b with F x, F y => Qle_bool x y | _, _ => false end.

Definition fl_eq (a b : fl) : bool :=
  match a, b with F x, F y => Qeq_bool x y | _, _ => false end.

(** [a == b] *)
Definition value_eq (a b : value) : bool :=
  match as_number a, as_number b with
  | Some x, Some y => fl_eq x y
  | None, None => true
  | _, _ => false
  end.

(** An ordering comparison; [None] cannot be ordered. *)
Definition value_order (test : fl -> fl -> bool) (a b : value) : result bool :=
  match as_number a, as_number b with
  | Some x, Some y => Ok (test x y)
  | _, _ => Raise TypeError
  end.

Definition ALLOWED_FUNCS : list string := ["max"; "min"; "abs"; "round"]%string.

Section SafeEval.

Context `{PyRuntime}.
Variable context : gmap string value.

Definition visit_UnaryOp (op : unaryop) (operand : value) : result value :=
  match op with
  | Not => Ok (VBool (negb (truthy operand)))
  | USub =>
      match as_number operand with
      | Some x => Ok (VNum (fsub (F 0) x))
      | None => Raise TypeError
      end
  | UAdd =>
      match as_number operand with
      | Some x => Ok (VNum x)
      | None => Raise TypeError
      end
  | Invert => Raise (ValueError "Unsupported unary operator")
  end.

Definition visit_BinOp (op : operator) (lhs rhs : value) : result value :=
  match op with
  | Mod | FloorDiv => Raise (ValueError "Unsupported binary operator")
  | _ =>
      match as_number lhs, as_number rhs with
      | Some x, Some y =>
          match op with
          | Add => Ok (VNum (fadd x y))
          | Sub => Ok (VNum (fsub x y))
          | Mult => Ok (VNum (fmul x y))
          | Div => let! r := fdiv x y in Ok (VNum r)
          | _ => let! r := number_pow x y in Ok (VNum r)
          end
      | _, _ => Raise TypeError
      end
  end.

(** One round of the loop of [visit_Compare]: [result and (left op right)];
    the comparison is evaluated only while the result is still true. *)
Definition compare_step (op : cmpop) (res : bool) (lhs rhs : value)
    : result bool :=
  let lazy (c : result bool) := if res then c else Ok false in
  match op with
  | Gt => lazy (value_order (fun x y => fl_lt y x) lhs rhs)
  | GtE => lazy (value_order (fun x y => fl_le y x) lhs rhs)
  | Lt => lazy (value_order fl_lt lhs rhs)
  | LtE => lazy (value_order fl_le lhs rhs)
  | Eq => lazy (Ok (value_eq lhs rhs))
  | NotEq => lazy (Ok (negb (value_eq lhs rhs)))
  | _ => Raise (ValueError "Unsupported comparison operator")
  end.

(** [SafeEval.visit]: the dispatch on the node class, with
    [generic_visit] as the fallback for [Other] nodes. *)
Fixpoint visit (node : expr) : result value :=
  match node with
  | Name id =>
      match context !! id with
      | None => Raise (NameError ("Unknown identifier in rule: " ++ id))
      | Some v => Ok v
      end
  | Constant v => Ok v
  | BoolOp op values =>
      let! values := mapM visit values in
      match op with
      | And => Ok (VBool (forallb truthy values))
      | Or => Ok (VBool (existsb truthy values))
      end
  | UnaryOp op operand =>
      let! operand := visit operand in
      visit_UnaryOp op operand
  | BinOp lhs op rhs =>
      let! lhs := visit lhs in
      let! rhs := visit rhs in
      visit_BinOp op lhs rhs
  | Compare lhs ops comparators =>
      let! lhs := visit lhs in
      (fix loop (lhs : value) (res : bool) (ops : list cmpop)
           (comparators : list expr) {struct comparators} : result value :=
         match ops, comparators with
         | op :: ops, comparator :: comparators =>
             let! rhs := visit comparator in
             let! res := compare_step op res lhs rhs in
             loop rhs res ops comparators
         | _, _ => Ok (VBool res)
         end) lhs true ops comparators
  | Call func args keywords =>
      match func with
      | Name func_name =>
          if bool_decide (func_name ∈ ALLOWED_FUNCS)
          then
            let! args := mapM visit args in
            let! kwargs :=
              mapM (fun kw : string * expr =>
                      let (arg, v) := kw in
                      let! v := visit v in Ok (arg, v)) keywords in
            call_builtin func_name args kwargs
          else Raise (ValueError ("Function " ++ func_name
                                  ++ " is not allowed in rules"))
      | _ => Raise (ValueError "Only simple function calls are allowed")
      end
  | Other _ children =>
      (* generic_visit: visit every child, return None *)
      let! _ := mapM visit children in
      Ok VNone
  end.

End SafeEval.

(** *** Strings *)

(** [str.isspace] on the ASCII range: tab to carriage return, the four
    separator controls, and the space. *)
Definition is_space (c : ascii) : bool :=
  let n := nat_of_ascii c in
  ((9 <=? n) && (n <=? 13) || (28 <=? n) && (n <=? 32))%nat.

Fixpoint drop_while {A : Type} (p : A -> bool) (l : list A) : list A :=
  match l with
  | [] => []
  | x :: rest => if p x then drop_while p rest else l
  end.

Fixpoint take_while {A : Type} (p : A -> bool) (l : list A) : list A :=
  match l with
  | [] => []
  | x :: rest => if p x then x :: take_while p rest else []
  end.

(** [s.strip(chars)], with the set of characters as a predicate. *)
Definition strip_chars (p : ascii -> bool) (s : string) : string :=
  string_of_list_ascii
    (rev (drop_while p (rev (drop_while p (list_ascii_of_string s))))).

(** [s.strip()] *)
Definition py_strip (s : string) : string := strip_chars is_space s.

(** [s.startswith(prefix)] *)
Definition startswith (s pre : string) : bool := String.prefix pre s.

(** [s[n:]] *)
Definition drop_prefix (n : nat) (s : string) : string :=
  String.substring n (String.length s - n) s.

(** *** The [between] rewriting *)

Definition is_ident_start (c : ascii) : bool :=
  let n := nat_of_ascii c in
  ((65 <=? n) && (n <=? 90) || (97 <=? n) && (n <=? 122) || (n =? 95))%nat.

Definition is_ident_char (c : ascii) : bool :=
  let n := nat_of_ascii c in
  (is_ident_start c || (48 <=? n) && (n <=? 57))%nat.

Fixpoint strip_literal (lit l : list ascii) : option (list ascii) :=
  match lit, l with
  | [], _ => Some l
  | a :: lit', b :: l' => if Ascii.eqb a b then strip_literal lit' l' else None
  | _ :: _, [] => None
  end.

(** One or more characters satisfying [p], as many as there are. *)
Definition some_of (p : ascii -> bool) (l : list ascii)
    : option (list ascii * list ascii) :=
  match take_while p l with
  | [] => None
  | run => Some (run, drop_while p l)
  end.

(** A match of [_BETWEEN_PATTERN] starting at the head of [l]: the three
    groups and the text after the match.  Every repetition of the pattern is
    followed by something it cannot itself match, so only the longest runs
    can lead to a match. *)
Definition match_between (l : list ascii)
    : option (list ascii * list ascii * list ascii * list ascii) :=
  match l with
  | c :: _ =>
      if is_ident_start c then
        let lhs := take_while is_ident_char l in
        '(_, l) ← some_of is_space (drop_while is_ident_char l);
        l ← strip_literal (list_ascii_of_string "between") l;
        '(_, l) ← some_of is_space l;
        '(low, l) ← some_of (fun c => negb (is_space c)) l;
        '(_, l) ← some_of is_space l;
        l ← strip_literal (list_ascii_of_string "and") l;
        '(_, l) ← some_of is_space l;
        '(high, l) ← some_of (fun c => negb (is_space c)) l;
        Some (lhs, low, high, l)
      else None
  | [] => None
  end.

(** [repl]: [f"(({lhs} >= {low}) and ({lhs} <= {high}))"] *)
Definition repl (lhs low high : list ascii) : list ascii :=
  list_ascii_of_string "((" ++ lhs ++ list_ascii_of_string " >= " ++ low
  ++ list_ascii_of_string ") and (" ++ lhs ++ list_ascii_of_string " <= "
  ++ high ++ list_ascii_of_string "))".

(** [_BETWEEN_PATTERN.sub(repl, ...)]: the leftmost match is replaced and
    the scan goes on after it. *)
Fixpoint sub_between (fuel : nat) (l : list ascii) : list ascii :=
  match fuel, l with
  | O, _ => l
  | _, [] => []
  | S fuel, c :: rest =>
      match match_between l with
      | Some (lhs, low, high, after) => repl lhs low high ++ sub_between fuel after
      | None => c :: sub_between fuel rest
      end
  end.

Definition _preprocess_expression (expression : string) : string :=
  let l := list_ascii_of_string expression in
  string_of_list_ascii (sub_between (length l) l).

(** *** Rules *)

Record RuleOutcome : Type := mkOutcome {
  entry : bool;
  exit_reasons : list string;
  trailing_stop : option fl
}.

(** The [rules] dictionary: its keys ["entry"] and ["exit"], each of which
    may be absent. *)
Record RuleDict : Type := mkRules {
  rules_entry : option string;
  rules_exit : option (list string)
}.

Section Evaluate.

Context `{PyRuntime}.

Definition evaluate_expression (expression : string)
    (context : gmap string value) : result value :=
  let processed := _preprocess_expression expression in
  let! tree := ast_parse processed in
  visit context tree.

(** [{**features, **latest}]: on a shared key the later dictionary wins. *)
Definition merged_context (latest features : gmap string value)
    : gmap string value :=
  latest ∪ features.

(** The loop of [evaluate_rules] over the exit rules. *)
Fixpoint exit_loop (context : gmap string value)
    (trailing_stop_value : option fl) (exit_reasons : list string)
    (rules : list string) : result (option fl * list string) :=
  match rules with
  | [] => Ok (trailing_stop_value, exit_reasons)
  | rule :: rest =>
      let rule := py_strip rule in
      if startswith rule "trailing_stop" then
        let inner :=
          strip_chars (fun c => bool_decide (c ∈ list_ascii_of_string "() "))
                      (drop_prefix (String.length "trailing_stop") rule) in
        let! v := evaluate_expression inner context in
        let! x := to_float v in
        exit_loop context (Some x) exit_reasons rest
      else
        let! v := evaluate_expression rule context in
        if truthy v
        then exit_loop context trailing_stop_value (exit_reasons ++ [rule]) rest
        else exit_loop context trailing_stop_value exit_reasons rest
  end.

Definition evaluate_rules (rules : RuleDict)
    (latest features : gmap string value) : result RuleOutcome :=
  let context := merged_context latest features in
  let entry_rule := default "True"%string (rules_entry rules) in
  let! entry_value := evaluate_expression entry_rule context in
  let entry_result := truthy entry_value in
  let! exits := exit_loop context None [] (default [] (rules_exit rules)) in
  let (trailing_stop_value, exit_reasons) := exits in
  Ok {| entry := entry_result; exit_reasons := exit_reasons;
        trailing_stop := trailing_stop_value |}.

(** [pipeline.py]: one signal row per bar. *)
Record Signal : Type := mkSignal {
  sig_timestamp : Z;
  sig_entry : bool;
  sig_exit_reasons : list string;
  sig_trailing_stop : option fl;
  sig_features : gmap string fl
}.

Definition latest_of (bar : PriceBar) : gmap string value :=
  {[ "open"%string := VNum (F (open bar));
     "high"%string := VNum (F (high bar));
     "low"%string := VNum (F (low bar));
     "close"%string := VNum (F (close bar));
     "volume"%string := VNum (F (volume bar)) ]}.

Definition generate_signals (price_data : list PriceBar)
    (indicator_frame : list (gmap string fl)) (entry_rule : string)
    (exit_rules : list string) : result (list Signal) :=
  let rule_dict := {| rules_entry := Some entry_rule;
                      rules_exit := Some exit_rules |} in
  mapM
    (fun '(bar, feature_row) =>
       let latest := latest_of bar in
       let! outcome := evaluate_rules rule_dict latest (VNum <$> feature_row) in
       Ok {| sig_timestamp := timestamp bar; sig_entry := entry outcome;
             sig_exit_reasons := exit_reasons outcome;
             sig_trailing_stop := trailing_stop outcome;
             sig_features := feature_row |})
    (zip price_data indicator_frame).

End Evaluate.

(** *** The evaluation context *)

Section ContextFacts.

Context `{PyRuntime}.

Lemma merged_context_latest (latest features : gmap string value)
    (k : string) (v : value) :
  latest !! k = Some v -> merged_context latest features !! k = Some v.
Proof. intros Hk. unfold merged_context. now apply lookup_union_Some_l. Qed.

Lemma merged_context_feature (latest features : gmap string value)
    (k : string) :
  latest !! k = None ->
  merged_context latest features !! k = features !! k.
Proof. intros Hk. unfold merged_context. now apply lookup_union_r. Qed.

Lemma merged_context_shadow (latest features : gmap string value)
    (k : string) (v fv : value) :
  latest !! k = Some v ->
  merged_context latest (<[k := fv]> features)
  = merged_context latest (delete k features).
Proof.
  intros Hk. apply map_eq. intros j. unfold merged_context.
  destruct (decide (j = k)) as [-> | Hne].
  - rewrite !(lookup_union_Some_l _ _ _ _ Hk). reflexivity.
  - rewrite !lookup_union, lookup_insert_ne, lookup_delete_ne by congruence.
    reflexivity.
Qed.

(** C1 (as amended).  When a feature key collides with a key of the bar
    context, the identifier is bound to the bar's value: the merged context
    maps the key to the bar's value, and [evaluate_rules] gives the same
    outcome whatever value the feature row holds under that key (the same as
    without the feature). *)
Theorem latest_takes_precedence (rules : RuleDict)
    (latest features : gmap string value) (k : string) (v fv : value) :
  latest !! k = Some v ->
  merged_context latest (<[k := fv]> features) !! k = Some v
  /\ evaluate_rules rules latest (<[k := fv]> features)
     = evaluate_rules rules latest (delete k features).
Proof.
  intros Hk. split.
  - now apply merged_context_latest.
  - unfold evaluate_rules.
    now rewrite (merged_context_shadow latest features k v fv Hk).
Qed.

(** *** Nodes without a handler *)

(** [generic_visit] answers [None] as soon as the children evaluate. *)
Lemma visit_other_none (context : gmap string value) (kind : string)
    (children : list expr) :
  is_ok (mapM (visit context) children) = true ->
  visit context (Other kind children) = Ok VNone.
Proof.
  intros Hc. cbn [visit].
  destruct (mapM (visit context) children); [reflexivity | discriminate].
Qed.

(** No error of [visit] on a node without a handler comes from the node
    itself: it is the error of one of its children. *)
Lemma visit_other_raise (context : gmap string value) (kind : string)
    (children : list expr) (e : exn) :
  visit context (Other kind children) = Raise e ->
  mapM (visit context) children = Raise e.
Proof.
  cbn [visit]. destruct (mapM (visit context) children); cbn [rbind];
    congruence.
Qed.

(** *** The exit rules *)

(** A stripped rule text is a trailing-stop directive when it starts with
    [trailing_stop]. *)
Definition is_directive (rule : string) : bool :=
  startswith rule "trailing_stop".

(** The text of a directive inside [trailing_stop( ... )]. *)
Definition inner_of (rule : string) : string :=
  strip_chars (fun c => bool_decide (c ∈ list_ascii_of_string "() "))
              (drop_prefix (String.length "trailing_stop") rule).

(** The number a directive evaluates to. *)
Definition directive_value (context : gmap string value) (rule : string)
    : result fl :=
  let! v := evaluate_expression (inner_of rule) context in to_float v.

(** An ordinary rule fires when it evaluates to a true value. *)
Definition fires (context : gmap string value) (rule : string) : bool :=
  match evaluate_expression rule context with
  | Ok v => truthy v
  | Raise _ => false
  end.

(** Every rule of the list can be evaluated. *)
Definition evaluable (context : gmap string value) (rule : string) : Prop :=
  if is_directive rule
  then is_ok (directive_value context rule) = true
  else is_ok (evaluate_expression rule context) = true.

Definition stop_of (context : gmap string value) (rule : string) : option fl :=
  if is_directive rule
  then match directive_value context rule with
       | Ok x => Some x
       | Raise _ => None
       end
  else None.

Lemma exit_loop_spec (context : gmap string value) (rules : list string) :
  forall (stop0 : option fl) (reasons0 : list string),
  Forall (evaluable context) (map py_strip rules) ->
  exit_loop context stop0 reasons0 rules
  = Ok (match last (omap (stop_of context) (map py_strip rules)) with
        | Some x => Some x
        | None => stop0
        end,
        reasons0
        ++ List.filter (fun r => negb (is_directive r) && fires context r)
                       (map py_strip rules)).
Proof.
  induction rules as [| rule rest IH]; intros stop0 reasons0 Hall.
  - cbn. now rewrite app_nil_r.
  - cbn [map] in Hall. inversion Hall as [| ? ? Hrule Hrest]; subst.
    cbn [exit_loop map List.filter omap]. unfold evaluable in Hrule.
    fold (is_directive (py_strip rule)). fold (inner_of (py_strip rule)).
    unfold list_omap. fold (@list_omap string fl (stop_of context)).
    unfold stop_of at 1. unfold fires at 1.
    destruct (is_directive (py_strip rule)) eqn:Hd; cbn [negb andb].
    + unfold directive_value in *.
      destruct (evaluate_expression (inner_of (py_strip rule)) context)
        as [v |]; [| discriminate].
      cbn [rbind] in *. destruct (to_float v) as [x |]; [| discriminate].
      cbn [rbind]. rewrite IH by assumption. rewrite last_cons.
      destruct (last _); reflexivity.
    + destruct (evaluate_expression (py_strip rule) context) as [v |];
        [| discriminate].
      cbn [rbind]. destruct (truthy v); rewrite IH by assumption.
      * now rewrite <- app_assoc.
      * reflexivity.
Qed.

(** C6 (as amended).  When the entry rule and every exit rule can be
    evaluated, [evaluate_rules] returns an outcome in which: every exit rule
    is first stripped of surrounding whitespace; a stripped rule that starts
    with [trailing_stop] has that prefix and the surrounding parentheses and
    spaces removed and the remainder evaluated as a number, and the value of
    the last such directive is the trailing stop ([None] without one); every
    other rule that evaluates to a true value contributes its stripped text
    to [exit_reasons], all of them, in list order. *)
Theorem exit_rules_spec (rules : RuleDict)
    (latest features : gmap string value) :
  let context := merged_context latest features in
  let stripped := map py_strip (default [] (rules_exit rules)) in
  is_ok (evaluate_expression (default "True"%string (rules_entry rules))
                             context) = true ->
  Forall (evaluable context) stripped ->
  exists outcome,
    evaluate_rules rules latest features = Ok outcome
    /\ exit_reasons outcome
       = List.filter (fun r => negb (is_directive r) && fires context r)
                     stripped
    /\ trailing_stop outcome = last (omap (stop_of context) stripped).
Proof.
  intros context stripped Hentry Hexit. unfold evaluate_rules.
  fold context.
  destruct (evaluate_expression _ context) as [ev |]; [| discriminate].
  cbn [rbind]. rewrite exit_loop_spec by exact Hexit. cbn [rbind app].
  eexists. split; [reflexivity |]. cbn [exit_reasons trailing_stop].
  split; [reflexivity |]. fold stripped.
  destruct (last _); reflexivity.
Qed.

End ContextFacts.

End Rules.

(** ** A model of the Python side of the rule engine

    [py_parse] covers the part of Python's expression grammar that rule
    texts are made of: decimal numbers, names, [True], [False], [None],
    parentheses, calls, attribute access, subscripts, the unary and binary
    arithmetic operators, comparisons, [not], [and], [or], conditional
    expressions, [lambda] with plain parameters and [(name := value)].  A
    text outside that part is answered with [SyntaxError] although Python may
    accept it.  The general statements about the rule engine hold for every
    [PyRuntime]; this one serves the examples. *)
Module PyLib.

Import Indicators.
Import Rules.

Inductive token : Type :=
  | TNum (q : Q)
  | TName (s : string)
  | TOp (s : string).

Definition is_digit (c : ascii) : bool :=
  let n := nat_of_ascii c in ((48 <=? n) && (n <=? 57))%nat.

Definition digit_value (c : ascii) : Z := Z.of_nat (nat_of_ascii c) - 48.

Definition digits_value (ds : list ascii) : Z :=
  fold_left (fun acc c => acc * 10 + digit_value c)%Z ds 0%Z.

(** The value of [int_part . frac_part]. *)
Definition decimal_value (int_part frac_part : list ascii) : Q :=
  Qred (Qmake (digits_value (int_part ++ frac_part))
              (Z.to_pos (10 ^ Z.of_nat (length frac_part)))).

Definition two_char_ops : list string :=
  ["**"; "<="; ">="; "=="; "!="; "//"; ":="]%string.

Definition one_char_ops : list string :=
  ["+"; "-"; "*"; "/"; "%"; "<"; ">"; "("; ")"; ","; "."; "["; "]"; ":";
   "~"; "="]%string.

Fixpoint tokenize (fuel : nat) (l : list ascii) : result (list token) :=
  match fuel, l with
  | _, [] => Ok []
  | O, _ => Raise SyntaxError
  | S fuel, c :: rest =>
      if is_space c then tokenize fuel rest
      else if is_digit c
              || (Ascii.eqb c "." && match rest with
                                     | d :: _ => is_digit d
                                     | [] => false
                                     end)
      then
        let int_part := take_while is_digit l in
        let after_int := drop_while is_digit l in
        let '(frac_part, after, is_float) :=
          match after_int with
          | dot :: more =>
              if Ascii.eqb dot "."
              then (take_while is_digit more, drop_while is_digit more, true)
              else ([], after_int, false)
          | [] => ([], after_int, false)
          end in
        let leading_zero :=
          negb is_float
          && match int_part with
             | z :: _ :: _ => Ascii.eqb z "0" && negb (forallb (Ascii.eqb "0") int_part)
             | _ => false
             end in
        let glued :=
          match after with
          | d :: _ => is_ident_char d
          | [] => false
          end in
        if leading_zero || glued then Raise SyntaxError
        else
          let! ts := tokenize fuel after in
          Ok (TNum (decimal_value int_part frac_part) :: ts)
      else if is_ident_start c then
        let! ts := tokenize fuel (drop_while is_ident_char l) in
        Ok (TName (string_of_list_ascii (take_while is_ident_char l)) :: ts)
      else
        let two := string_of_list_ascii (take 2 l) in
        let one := string_of_list_ascii [c] in
        if bool_decide (two ∈ two_char_ops)
        then let! ts := tokenize fuel (drop 2 l) in Ok (TOp two :: ts)
        else if bool_decide (one ∈ one_char_ops)
        then let! ts := tokenize fuel rest in Ok (TOp one :: ts)
        else Raise SyntaxError
  end.

Definition keywords : list string :=
  ["and"; "or"; "not"; "if"; "else"; "lambda"; "in"; "is"; "True"; "False";
   "None"]%string.

(** The tokens after a leading name [s] (or operator [s]), if that is how
    the tokens start. *)
Definition eat_name (s : string) (ts : list token) : option (list token) :=
  match ts with
  | TName s' :: rest => if String.eqb s s' then Some rest else None
  | _ => None
  end.

Definition eat_op (s : string) (ts : list token) : option (list token) :=
  match ts with
  | TOp s' :: rest => if String.eqb s s' then Some rest else None
  | _ => None
  end.

Definition expect_op (s : string) (ts : list token) : result (list token) :=
  match eat_op s ts with
  | Some rest => Ok rest
  | None => Raise SyntaxError
  end.

(** The first operator of a table that the tokens start with. *)
Fixpoint eat_any {A : Type} (table : list (string * A)) (ts : list token)
    : option (A * list token) :=
  match table with
  | [] => None
  | (s, a) :: table' =>
      match eat_op s ts with
      | Some rest => Some (a, rest)
      | None => eat_any table' ts
      end
  end.

Definition arith_ops : list (string * operator) :=
  [("+", Add); ("-", Sub)]%string.

Definition term_ops : list (string * operator) :=
  [("*", Mult); ("/", Div); ("//", FloorDiv); ("%", Mod)]%string.

Definition unary_ops : list (string * unaryop) :=
  [("-", USub); ("+", UAdd); ("~", Invert)]%string.

Definition compare_ops : list (string * cmpop) :=
  [("<", Lt); ("<=", LtE); (">", Gt); (">=", GtE); ("==", Eq);
   ("!=", NotEq)]%string.

(** Grammar levels, from the loosest binding to the tightest. *)
Inductive level : Type :=
  | LTest | LOr | LAnd | LNot | LCompare | LArith | LTerm | LFactor | LPower
  | LPrimary.

Definition bool_node (op : boolop) (first : expr) (more : list expr) : expr :=
  match more with
  | [] => first
  | _ => BoolOp op (first :: more)
  end.

Fixpoint parse (fuel : nat) (lvl : level) (ts : list token)
    : result (expr * list token) :=
  match fuel with
  | O => Raise SyntaxError
  | S n =>
      (* [first (op next)*] for a left-associative binary level *)
      let binary (table : list (string * operator)) (next : level) :=
        let! fr := parse n next ts in
        (fix more (k : nat) (acc : expr) (ts : list token)
           : result (expr * list token) :=
           match k with
           | O => Raise SyntaxError
           | S k =>
               match eat_any table ts with
               | Some (op, rest) =>
                   let! rr := parse n next rest in
                   more k (BinOp acc op (fst rr)) (snd rr)
               | None => Ok (acc, ts)
               end
           end) n (fst fr) (snd fr) in
      (* [first (word next)*] for [and] and [or] *)
      let boolean (word : string) (op : boolop) (next : level) :=
        let! fr := parse n next ts in
        let! mr :=
          (fix more (k : nat) (acc : list expr) (ts : list token)
             : result (list expr * list token) :=
             match k with
             | O => Raise SyntaxError
             | S k =>
                 match eat_name word ts with
                 | Some rest =>
                     let! rr := parse n next rest in
                     more k (acc ++ [fst rr]) (snd rr)
                 | None => Ok (acc, ts)
                 end
             end) n [] (snd fr) in
        Ok (bool_node op (fst fr) (fst mr), snd mr) in
      match lvl with
      | LTest =>
          match eat_name "lambda" ts with
          | Some rest =>
              let! pr :=
                (fix params (k : nat) (acc : list expr) (ts : list token)
                   : result (list expr * list token) :=
                   match k, ts with
                   | S k, TName x :: TOp sep :: rest =>
                       if bool_decide (x ∈ keywords) then Raise SyntaxError
                       else if String.eqb sep ","
                       then params k (acc ++ [Other "arg" []]) rest
                       else if String.eqb sep ":"
                       then Ok (acc ++ [Other "arg" []], rest)
                       else Raise SyntaxError
                   | S k, TOp sep :: rest =>
                       match acc with
                       | [] => if String.eqb sep ":" then Ok ([], rest)
                               else Raise SyntaxError
                       | _ => Raise SyntaxError
                       end
                   | _, _ => Raise SyntaxError
                   end) n [] rest in
              let! br := parse n LTest (snd pr) in
              Ok (Other "Lambda" [Other "arguments" (fst pr); fst br], snd br)
          | None =>
              let! fr := parse n LOr ts in
              match eat_name "if" (snd fr) with
              | Some rest =>
                  let! cr := parse n LOr rest in
                  match eat_name "else" (snd cr) with
                  | Some rest =>
                      let! er := parse n LTest rest in
                      Ok (Other "IfExp" [fst cr; fst fr; fst er], snd er)
                  | None => Raise SyntaxError
                  end
              | None => Ok fr
              end
          end
      | LOr => boolean "or"%string Or LAnd
      | LAnd => boolean "and"%string And LNot
      | LNot =>
          match eat_name "not" ts with
          | Some rest =>
              let! r := parse n LNot rest in
              Ok (UnaryOp Not (fst r), snd r)
          | None => parse n LCompare ts
          end
      | LCompare =>
          let! fr := parse n LArith ts in
          let! mr :=
            (fix more (k : nat) (ops : list cmpop) (cs : list expr)
                 (ts : list token)
               : result (list cmpop * list expr * list token) :=
               match k with
               | O => Raise SyntaxError
               | S k =>
                   match eat_any compare_ops ts with
                   | Some (op, rest) =>
                       let! rr := parse n LArith rest in
                       more k (ops ++ [op]) (cs ++ [fst rr]) (snd rr)
                   | None => Ok (ops, cs, ts)
                   end
               end) n [] [] (snd fr) in
          match mr with
          | ([], _, rest) => Ok (fst fr, rest)
          | (ops, cs, rest) => Ok (Compare (fst fr) ops cs, rest)
          end
      | LArith => binary arith_ops LTerm
      | LTerm => binary term_ops LFactor
      | LFactor =>
          match eat_any unary_ops ts with
          | Some (op, rest) =>
              let! r := parse n LFactor rest in
              Ok (UnaryOp op (fst r), snd r)
          | None => parse n LPower ts
          end
      | LPower =>
          let! br := parse n LPrimary ts in
          match eat_op "**" (snd br) with
          | Some rest =>
              let! er := parse n LFactor rest in
              Ok (BinOp (fst br) Pow (fst er), snd er)
          | None => Ok br
          end
      | LPrimary =>
          let! ar :=
            match ts with
            | TNum q :: rest => Ok (Constant (VNum (F q)), rest)
            | TName x :: rest =>
                if String.eqb x "True" then Ok (Constant (VBool true), rest)
                else if String.eqb x "False" then Ok (Constant (VBool false), rest)
                else if String.eqb x "None" then Ok (Constant VNone, rest)
                else if bool_decide (x ∈ keywords) then Raise SyntaxError
                else Ok (Name x, rest)
            | TOp o :: rest =>
                if String.eqb o "(" then
                  match rest with
                  | TName x :: TOp w :: rest' =>
                      if String.eqb w ":=" then
                        if bool_decide (x ∈ keywords) then Raise SyntaxError
                        else
                          let! vr := parse n LTest rest' in
                          let! rest'' := expect_op ")" (snd vr) in
                          Ok (Other "NamedExpr" [Name x; fst vr], rest'')
                      else
                        let! er := parse n LTest rest in
                        let! rest'' := expect_op ")" (snd er) in
                        Ok (fst er, rest'')
                  | _ =>
                      let! er := parse n LTest rest in
                      let! rest'' := expect_op ")" (snd er) in
                      Ok (fst er, rest'')
                  end
                else Raise SyntaxError
            | [] => Raise SyntaxError
            end in
          (fix trailers (k : nat) (e : expr) (ts : list token)
             : result (expr * list token) :=
             match k with
             | O => Raise SyntaxError
             | S k =>
                 match ts with
                 | TOp o :: rest =>
                     if String.eqb o "(" then
                       let! cr :=
                         (fix arguments (j : nat) (args : list expr)
                              (kws : list (string * expr)) (ts : list token)
                            : result (list expr * list (string * expr)
                                      * list token) :=
                            match j with
                            | O => Raise SyntaxError
                            | S j =>
                                match eat_op ")" ts with
                                | Some rest => Ok (args, kws, rest)
                                | None =>
                                    let! item :=
                                      match ts with
                                      | TName x :: TOp q :: rest' =>
                                          if String.eqb q "=" then
                                            let! vr := parse n LTest rest' in
                                            Ok (args, kws ++ [(x, fst vr)], snd vr)
                                          else
                                            match kws with
                                            | [] =>
                                                let! vr := parse n LTest ts in
                                                Ok (args ++ [fst vr], kws, snd vr)
                                            | _ => Raise SyntaxError
                                            end
                                      | _ =>
                                          match kws with
                                          | [] =>
                                              let! vr := parse n LTest ts in
                                              Ok (args ++ [fst vr], kws, snd vr)
                                          | _ => Raise SyntaxError
                                          end
                                      end in
                                    let '(args, kws, ts) := item in
                                    match eat_op "," ts with
                                    | Some rest => arguments j args kws rest
                                    | None =>
                                        let! rest := expect_op ")" ts in
                                        Ok (args, kws, rest)
                                    end
                                end
                            end) n [] [] rest in
                       let '(args, kws, rest) := cr in
                       trailers k (Call e args kws) rest
                     else if String.eqb o "." then
                       match rest with
                       | TName _ :: rest => trailers k (Other "Attribute" [e]) rest
                       | _ => Raise SyntaxError
                       end
                     else if String.eqb o "[" then
                       let! ir := parse n LTest rest in
                       let! rest := expect_op "]" (snd ir) in
                       trailers k (Other "Subscript" [e; fst ir]) rest
                     else Ok (e, ts)
                 | _ => Ok (e, ts)
                 end
             end) n (fst ar) (snd ar)
      end
  end.

(** [ast.parse(text, mode="eval").body]; a text that starts with a space or
    a tab is an indentation error. *)
Definition py_parse (text : string) : result expr :=
  let l := list_ascii_of_string text in
  match l with
  | c :: _ =>
      if Ascii.eqb c " " || Ascii.eqb c "009" then Raise SyntaxError
      else
        let! ts := tokenize (length l) l in
        let! r := parse (12 * (length ts + 1)) LTest ts in
        match snd r with
        | [] => Ok (fst r)
        | _ => Raise SyntaxError
        end
  | [] => Raise SyntaxError
  end.

(** [round(q)]: to the nearest integer, a tie going to the even one. *)
Definition round_half_even (q : Q) : Z :=
  let f := Qfloor q in
  let frac := q - inject_Z f in
  if Qlt_bool frac (1 # 2) then f
  else if Qlt_bool (1 # 2) frac then (f + 1)%Z
  else if Z.even f then f else (f + 1)%Z.

Definition integral (q : Q) : option Z :=
  if Qeq_bool q (inject_Z (Qfloor q)) then Some (Qfloor q) else None.

(** [max] and [min] of two or more arguments: the first argument is kept
    unless a later one is strictly beyond it. *)
Fixpoint extremum (beyond : fl -> fl -> bool) (cur : value) (rest : list value)
    : result value :=
  match rest with
  | [] => Ok cur
  | v :: rest =>
      let! b := value_order beyond v cur in
      extremum beyond (if b then v else cur) rest
  end.

(** The built-ins of [ALLOWED_FUNCS] on positional arguments; keyword
    arguments are answered with [TypeError]. *)
Definition py_builtin (name : string) (args : list value)
    (kwargs : list (string * value)) : result value :=
  match kwargs with
  | _ :: _ => Raise TypeError
  | [] =>
      if String.eqb name "max" then
        match args with
        | first :: (_ :: _) as rest => extremum (fun v cur => fl_lt cur v) first rest
        | _ => Raise TypeError
        end
      else if String.eqb name "min" then
        match args with
        | first :: (_ :: _) as rest => extremum fl_lt first rest
        | _ => Raise TypeError
        end
      else if String.eqb name "abs" then
        match args with
        | [v] => let! x := to_float v in Ok (VNum (fabs x))
        | _ => Raise TypeError
        end
      else if String.eqb name "round" then
        match args with
        | [v] | [v; VNone] =>
            let! x := to_float v in
            match x with
            | F q => Ok (VNum (F (inject_Z (round_half_even q))))
            | NaN => Raise (ValueError "cannot convert float NaN to integer")
            end
        | [v; d] =>
            let! x := to_float v in
            let! n := to_float d in
            match n with
            | F nq =>
                match integral nq with
                | Some k =>
                    match x with
                    | F q =>
                        let scale := Qpower 10 k in
                        Ok (VNum (F (inject_Z (round_half_even (q * scale))
                                     / scale)))
                    | NaN => Ok (VNum NaN)
                    end
                | None => Raise TypeError
                end
            | NaN => Raise TypeError
            end
        | _ => Raise TypeError
        end
      else Raise (NameError name)
  end.

(** [x ** y] for an integral exponent; other exponents leave the rationals
    and are answered with [ValueError]. *)
Definition py_pow (x y : fl) : result fl :=
  match x, y with
  | F b, F e =>
      match integral e with
      | Some k =>
          if Qeq_bool b 0 && (k <? 0)%Z then Raise ZeroDivisionError
          else Ok (F (Qpower b k))
      | None => Raise (ValueError "power with a fractional exponent")
      end
  | NaN, F e => if Qeq_bool e 0 then Ok (F 1) else Ok NaN
  | F b, NaN => if Qeq_bool b 1 then Ok (F 1) else Ok NaN
  | NaN, NaN => Ok NaN
  end.

#[export] Instance py_runtime : PyRuntime := {
  ast_parse := py_parse;
  call_builtin := py_builtin;
  number_pow := py_pow
}.

(** *** The rule engine on concrete rule texts *)

Definition num (q : Q) : value := VNum (F q).

(** [tests/signals/test_rules.py] *)
Example test_rule_between_expression :
  evaluate_rules
    {| rules_entry := Some "(sma > ema) and (rsi between 40 and 60)"%string;
       rules_exit := Some ["close < sma"%string] |}
    {["close"%string := num 10]}
    {["sma"%string := num 12; "ema"%string := num 8; "rsi"%string := num 50]}
  = Ok {| entry := true; exit_reasons := ["close < sma"%string];
          trailing_stop := None |}.
Proof. vm_compute. reflexivity. Qed.

(** The bar used below: open 10, high 11, low 9, close 10. *)
Definition bar10 : PriceBar := mkBar 0 10 11 9 10 1000.

Lemma latest_takes_precedence_witness :
  merged_context (latest_of bar10) (<["close"%string := num 1]> ∅)
    !! "close"%string = Some (num 10)
  /\ evaluate_rules
       {| rules_entry := Some "close > 5"%string; rules_exit := None |}
       (latest_of bar10) (<["close"%string := num 1]> ∅)
     = evaluate_rules
         {| rules_entry := Some "close > 5"%string; rules_exit := None |}
         (latest_of bar10) (delete "close"%string ∅).
Proof.
  apply (latest_takes_precedence
           {| rules_entry := Some "close > 5"%string; rules_exit := None |}
           (latest_of bar10) ∅ "close"%string (num 10) (num 1)).
  vm_compute. reflexivity.
Defined.

(** C1 as stated fails: a feature named [close] with value 1 beside a bar
    that closes at 10.  The rule [close > 5] is true, as it is for the bar's
    value; on the feature's value it is false. *)
Lemma feature_value_shadowed :
  let features : gmap string value := {["close"%string := num 1]} in
  let rules := {| rules_entry := Some "close > 5"%string;
                  rules_exit := Some ["close > 5"%string] |} in
  features !! "close"%string = Some (num 1)
  /\ latest_of bar10 !! "close"%string = Some (num 10)
  /\ evaluate_expression "close > 5" features = Ok (VBool false)
  /\ evaluate_rules rules (latest_of bar10) features
     = Ok {| entry := true; exit_reasons := ["close > 5"%string];
             trailing_stop := None |}.
Proof. vm_compute. repeat split; reflexivity. Qed.

(** C2.  Syntax with no handler in [SafeEval] is not rejected: attribute
    access, subscripting, a lambda, an assignment expression and a
    conditional expression each evaluate to [None] without any error, and a
    rule made of one of them is silently taken as false. *)
Theorem unhandled_syntax_evaluates_to_none :
  let context : gmap string value := {["close"%string := num 10]} in
  evaluate_expression "close.real" context = Ok VNone
  /\ evaluate_expression "close[0]" context = Ok VNone
  /\ evaluate_expression "lambda: close" context = Ok VNone
  /\ evaluate_expression "(close := 5)" context = Ok VNone
  /\ evaluate_expression "1 if close > 5 else 0" context = Ok VNone
  /\ evaluate_rules
       {| rules_entry := Some "close.__class__"%string;
          rules_exit := Some ["close[0]"%string] |}
       context ∅
     = Ok {| entry := false; exit_reasons := []; trailing_stop := None |}.
Proof. vm_compute. repeat split; reflexivity. Qed.

(** The errors that the evaluator does raise, for comparison. *)
Example rejected_syntax :
  let context : gmap string value := {["close"%string := num 10]} in
  evaluate_expression "macd > 0" context
  = Raise (NameError "Unknown identifier in rule: macd")
  /\ evaluate_expression "eval(close)" context
     = Raise (ValueError "Function eval is not allowed in rules")
  /\ evaluate_expression "close.real()" context
     = Raise (ValueError "Only simple function calls are allowed")
  /\ evaluate_expression "close % 2" context
     = Raise (ValueError "Unsupported binary operator").
Proof. vm_compute. repeat split; reflexivity. Qed.

(** The rule-engine example of the specification. *)
Example exit_rules_example :
  evaluate_rules
    {| rules_entry := None;
       rules_exit := Some ["close < sma"; "trailing_stop(high - 2*atr)"]%string |}
    (latest_of bar10)
    {["sma"%string := num 12; "atr"%string := num 1.5]}
  = Ok {| entry := true; exit_reasons := ["close < sma"%string];
          trailing_stop := Some (F (11 - 2 * 1.5)) |}.
Proof. vm_compute. reflexivity. Qed.

Lemma exit_rules_spec_witness :
  exists outcome,
    evaluate_rules
      {| rules_entry := None;
         rules_exit :=
           Some [" close < sma "; "trailing_stop(high - 2*atr)";
                 "high > 0"]%string |}
      (latest_of bar10)
      {["sma"%string := num 12; "atr"%string := num 1.5]} = Ok outcome
    /\ exit_reasons outcome = ["close < sma"; "high > 0"]%string
    /\ trailing_stop outcome = Some (F (11 - 2 * 1.5)).
Proof.
  destruct (exit_rules_spec
    {| rules_entry := None;
       rules_exit :=
         Some [" close < sma "; "trailing_stop(high - 2*atr)";
               "high > 0"]%string |}
    (latest_of bar10)
    {["sma"%string := num 12; "atr"%string := num 1.5]})
    as (outcome & Hout & Hreasons & Hstop).
  - vm_compute. reflexivity.
  - repeat constructor; vm_compute; reflexivity.
  - exists outcome. split; [exact Hout |]. split.
    + rewrite Hreasons. vm_compute. reflexivity.
    + rewrite Hstop. vm_compute. reflexivity.
Defined.

(** C6 as stated fails: a firing rule written with surrounding whitespace
    is recorded without it, not as its original text; and a rule is taken as
    a trailing-stop directive when its stripped text starts with
    [trailing_stop], although its original text does not. *)
Lemma exit_reason_is_stripped :
  evaluate_rules
    {| rules_entry := None;
       rules_exit := Some [" close < sma "; " trailing_stop(high - 2)"]%string |}
    (latest_of bar10) {["sma"%string := num 12]}
  = Ok {| entry := true; exit_reasons := ["close < sma"%string];
          trailing_stop := Some (F (11 - 2)) |}
  /\ "close < sma"%string <> " close < sma "%string
  /\ startswith " trailing_stop(high - 2)" "trailing_stop" = false.
Proof.
  split; [vm_compute; reflexivity |].
  split; [discriminate | reflexivity].
Qed.

End PyLib.

(** ** app/backtest/metrics.py *)

Module Metrics.

Record TradeRecord : Type := mkTrade {
  symbol : string;
  entry_date : Z;
  exit_date : Z;
  entry_price : Q;
  exit_price : Q;
  quantity : Q;
  pnl : Q;
  return_pct : Q;
  holding_period : Z
}.

(** A float that may be [float("inf")]. *)
Inductive extended : Type :=
  | Finite (q : Q)
  | Infinite.

Record BacktestMetrics : Type := mkMetrics {
  cagr : Q;
  volatility : Q;
  sharpe : Q;
  sortino : Q;
  max_drawdown : Q;
  calmar : Q;
  hit_rate : Q;
  profit_factor : extended;
  expectancy : Q;
  avg_win : Q;
  avg_loss : Q;
  avg_hold_days : Q;
  turnover : Q;
  exposure : Q;
  num_trades : nat;
  best_month : option Q;
  worst_month : option Q;
  monthly_returns : gmap string Q;
  equity_curve : list (Z * Q);
  drawdown : list (Z * Q)
}.

Definition insufficient_data : exn :=
  ValueError "Equity curve must contain at least two observations".

Definition _annual_factor (frequency : string) : Q :=
  if String.eqb frequency "1D" then 252
  else if String.eqb frequency "1H" then 252 * 6.5
  else 252.

Fixpoint _pct_changes (values : list Q) : list Q :=
  match values with
  | prev :: (curr :: _) as rest =>
      (if Qeq_bool prev 0 then 0 else (curr - prev) / prev)
      :: _pct_changes rest
  | _ => []
  end.

Definition Qsum (l : list Q) : Q := fold_left Qplus l 0.

Definition len (l : list Q) : Q := inject_Z (Z.of_nat (length l)).

Definition _mean (values : list Q) : Q :=
  match values with
  | [] => 0
  | _ => Qsum values / len values
  end.

Section WithPython.

(** The float power [x ** y], which can raise, and
    [timestamp.strftime("%Y-%m")]. *)
Variable float_pow : Q -> Q -> result Q.
Variable month_key : Z -> string.

Definition _std (values : list Q) : result Q :=
  if (length values <? 2)%nat then Ok 0
  else
    let mean := _mean values in
    let variance :=
      Qsum (map (fun x => (x - mean) * (x - mean)) values)
      / (len values - 1) in
    float_pow variance 0.5.

(** The running maximum of the equity values. *)
Fixpoint roll_max (running_max : Q) (values : list Q) : list Q :=
  match values with
  | [] => []
  | value :: rest =>
      let running_max := py_max running_max value in
      running_max :: roll_max running_max rest
  end.

(** The drawdown loop: the series and its minimum. *)
Fixpoint drawdown_loop (max_drawdown : Q) (rows : list (Z * Q * Q))
    : list (Z * Q) * Q :=
  match rows with
  | [] => ([], max_drawdown)
  | (ts, value, peak) :: rest =>
      let dd := if Qeq_bool peak 0 then 0 else value / peak - 1 in
      let r := drawdown_loop (py_min max_drawdown dd) rest in
      ((ts, dd) :: fst r, snd r)
  end.

(** [month_groups.setdefault(month_key, []).append(ret)] over the bars. *)
Fixpoint group_months (groups : gmap string (list Q)) (rows : list (Z * Q))
    : gmap string (list Q) :=
  match rows with
  | [] => groups
  | (ts, ret) :: rest =>
      let key := month_key ts in
      group_months (<[key := default [] (groups !! key) ++ [ret]]> groups) rest
  end.

Definition compound (month_rets : list Q) : Q :=
  fold_left (fun compounded ret => compounded * (1 + ret)) month_rets 1 - 1.

Definition extreme (pick : Q -> Q -> Q) (m : gmap string Q) : option Q :=
  match map snd (map_to_list m) with
  | [] => None
  | x :: rest => Some (fold_left pick rest x)
  end.

Definition compute_metrics (equity_curve : list (Z * Q))
    (trades : list TradeRecord) (frequency : string) : result BacktestMetrics :=
  if (length equity_curve <? 2)%nat then Raise insufficient_data
  else
    let timestamps := map fst equity_curve in
    let values := map snd equity_curve in
    let returns := _pct_changes values in
    let downside := List.filter (fun r => Qlt_bool r 0) returns in
    let ann_factor := _annual_factor frequency in
    let! ratio := py_div (List.last values 0) (hd 0 values) in
    let total_return := ratio - 1 in
    let years := len values / ann_factor in
    let years := py_max years (1 # 1000000000) in
    let! exponent := py_div 1 years in
    let! growth := float_pow (1 + total_return) exponent in
    let cagr := growth - 1 in
    let! sd := _std returns in
    let! root := float_pow ann_factor 0.5 in
    let volatility := sd * root in
    let sharpe :=
      if Qeq_bool volatility 0 then 0
      else _mean returns * ann_factor / volatility in
    let! downside_std :=
      match downside with
      | [] => Ok 0
      | _ =>
          let! dsd := _std downside in
          let! root := float_pow ann_factor 0.5 in
          Ok (dsd * root)
      end in
    let sortino :=
      if Qeq_bool downside_std 0 then 0
      else _mean returns * ann_factor / downside_std in
    let equity_roll_max := roll_max (hd 0 values) values in
    let dd := drawdown_loop 0 (zip (zip timestamps values) equity_roll_max) in
    let drawdown := fst dd in
    let max_drawdown := snd dd in
    let calmar :=
      if Qeq_bool max_drawdown 0 then 0
      else _mean returns * ann_factor / Qabs max_drawdown in
    let pnl_array := map pnl trades in
    let wins := List.filter (fun p => Qlt_bool 0 p) pnl_array in
    let losses := List.filter (fun p => Qlt_bool p 0) pnl_array in
    let hit_rate :=
      match trades with
      | [] => 0
      | _ => len wins / inject_Z (Z.of_nat (length trades))
      end in
    let! profit_factor :=
      match losses with
      | [] => Ok Infinite
      | _ => let! r := py_div (Qsum wins) (Qabs (Qsum losses)) in Ok (Finite r)
      end in
    let expectancy := _mean pnl_array in
    let avg_win := _mean wins in
    let avg_loss := _mean losses in
    let avg_hold_days :=
      _mean (map (fun t => inject_Z (holding_period t)) trades) in
    let turnover :=
      Qsum (map (fun t => Qabs (quantity t) * entry_price t) trades) in
    let exposure :=
      match trades with
      | [] => 0
      | _ => if Qeq_bool (hd 0 values) 0 then 0
             else turnover / hd 0 values
      end in
    let month_groups := group_months ∅ (zip (tail timestamps) returns) in
    let monthly_returns := compound <$> month_groups in
    Ok {| cagr := cagr; volatility := volatility; sharpe := sharpe;
          sortino := sortino; max_drawdown := max_drawdown; calmar := calmar;
          hit_rate := hit_rate; profit_factor := profit_factor;
          expectancy := expectancy; avg_win := avg_win; avg_loss := avg_loss;
          avg_hold_days := avg_hold_days; turnover := turnover;
          exposure := exposure; num_trades := length trades;
          best_month := extreme py_max monthly_returns;
          worst_month := extreme py_min monthly_returns;
          monthly_returns := monthly_returns; equity_curve := equity_curve;
          drawdown := drawdown |}.

(** Fewer than two observations: the insufficient-data error. *)
Lemma compute_metrics_insufficient (curve : list (Z * Q))
    (trades : list TradeRecord) (frequency : string) :
  (length curve < 2)%nat ->
  compute_metrics curve trades frequency = Raise insufficient_data.
Proof.
  intros Hlen. unfold compute_metrics.
  apply Nat.ltb_lt in Hlen. now rewrite Hlen.
Qed.

(** *** Which errors can come out *)

(** [sound m]: whatever [m] raises, it is not the insufficient-data error. *)
Definition sound {A : Type} (m : result A) : Prop :=
  m <> Raise insufficient_data.

Lemma sound_ok {A : Type} (a : A) : sound (Ok a).
Proof. discriminate. Qed.

Lemma sound_div (a b : Q) : sound (py_div a b).
Proof. unfold sound, py_div. destruct (Qeq_bool b 0); discriminate. Qed.

Lemma sound_bind {A B : Type} (m : result A) (k : A -> result B) :
  sound m -> (forall a, sound (k a)) -> sound (rbind m k).
Proof.
  unfold sound. intros Hm Hk. destruct m as [a | e]; cbn [rbind].
  - apply Hk.
  - congruence.
Qed.

Section Sound.

Hypothesis pow_sound : forall x y, sound (float_pow x y).

Lemma sound_std (values : list Q) : sound (_std values).
Proof.
  unfold _std. destruct (length values <? 2)%nat;
    [apply sound_ok | apply pow_sound].
Qed.

(** The insufficient-data error is raised exactly for a curve of fewer than
    two observations, as long as the power operator does not raise it. *)
Lemma compute_metrics_insufficient_iff (curve : list (Z * Q))
    (trades : list TradeRecord) (frequency : string) :
  compute_metrics curve trades frequency = Raise insufficient_data
  <-> (length curve < 2)%nat.
Proof.
  split; [| apply compute_metrics_insufficient].
  intros H. destruct (Nat.ltb_spec (length curve) 2) as [Hlt | Hge];
    [exact Hlt | exfalso].
  revert H. unfold compute_metrics.
  replace (length curve <? 2)%nat with false
    by (symmetry; apply Nat.ltb_ge; exact Hge).
  cbv zeta.
  repeat first
    [ apply sound_ok
    | apply sound_div
    | apply pow_sound
    | apply sound_std
    | apply sound_bind; [| intros ?]
    | match goal with
      | |- sound (match ?x with _ => _ end) => destruct x
      end ].
Qed.

End Sound.

(** C9.  An equity curve of two or more observations whose first value is 0
    does not give a metrics record: [values[-1] / values[0]] raises
    [ZeroDivisionError], which is not the insufficient-data error.  The
    other uses of an equity value as a divisor ([_pct_changes], the
    drawdown, the exposure) are guarded against zero. *)
Theorem compute_metrics_zero_start (t0 t1 : Z) (v1 : Q)
    (rest : list (Z * Q)) (trades : list TradeRecord) (frequency : string) :
  compute_metrics ((t0, 0%Q) :: (t1, v1) :: rest) trades frequency
  = Raise ZeroDivisionError
  /\ (2 <= length ((t0, 0%Q) :: (t1, v1) :: rest))%nat
  /\ Raise ZeroDivisionError <> @Raise BacktestMetrics insufficient_data.
Proof.
  split; [| split].
  - unfold compute_metrics. cbn [length Nat.ltb Nat.leb map hd].
    rewrite py_div_zero by reflexivity. reflexivity.
  - cbn [length]. lia.
  - discriminate.
Qed.

End WithPython.

End Metrics.

(** ** app/backtest/engine.py: the body of the simulation loop *)

Module Engine.

Import Indicators.
Import PortfolioM.

Record SizingConfig : Type := mkSizing {
  sizing_type : string;
  sizing_params : gmap string Q
}.

(** An entry of [open_positions]. *)
Record EntryInfo : Type := mkEntry {
  entry_date : Z;
  entry_price : Q
}.

(** What the loop of [BacktestEngine.run] mutates. *)
Record State : Type := mkState {
  portfolio : Portfolio;
  trades : list Metrics.TradeRecord;
  orders : list Order;
  open_positions : gmap string EntryInfo
}.

(** [",".join(parts)] *)
Fixpoint join (parts : list string) : string :=
  match parts with
  | [] => ""
  | [s] => s
  | s :: rest => s ++ "," ++ join rest
  end.

(** [any(isinstance(v, float) and isnan(v) for v in row.values())] *)
Definition any_nan (row : gmap string fl) : bool :=
  map_fold (fun _ v acc => acc || is_nan v) false row.

(** The first of the keys [atr14], [atr], [atr_14] that holds a number. *)
Definition find_atr (row : gmap string fl) : option Q :=
  let candidate (key : string) : option Q :=
    match row !! key with
    | Some (F q) => Some q
    | _ => None
    end in
  match candidate "atr14"%string with
  | Some q => Some q
  | None =>
      match candidate "atr"%string with
      | Some q => Some q
      | None => candidate "atr_14"%string
      end
  end.

(** The sum of the absolute position values, over equity. *)
Definition gross_exposure_of (pf : Portfolio) (price_snapshot : gmap string Q)
    (price equity : Q) : Q :=
  if Qlt_bool 0 equity then
    map_fold
      (fun sym pos acc =>
         acc + Qabs (quantity pos * default price (price_snapshot !! sym)))
      0 (positions pf)
    / equity
  else 0.

(** Closing the whole position of [sym] at [price]: the sell order, the
    trade record and the removal from [open_positions]. *)
Definition close_position (ts : Z) (sym : string) (qty_held price : Q)
    (why : string) (st : State) : result State :=
  let order := mkOrder sym qty_held price "sell" why in
  let! pf := remove_position (portfolio st) order in
  match open_positions st !! sym with
  | None => Raise (KeyError sym)
  | Some entry_info =>
      let! ratio := py_div price (entry_price entry_info) in
      let trade :=
        Metrics.mkTrade sym (entry_date entry_info) ts
          (entry_price entry_info) price qty_held
          ((price - entry_price entry_info) * qty_held)
          (ratio - 1) (ts - entry_date entry_info) in
      Ok {| portfolio := pf; trades := trades st ++ [trade];
            orders := orders st ++ [order];
            open_positions := delete sym (open_positions st) |}
  end.

(** Storing a mutated position object back under its symbol. *)
Definition store_position (sym : string) (pos : Position) (st : State) : State :=
  {| portfolio :=
       {| cash := cash (portfolio st);
          positions := <[sym := pos]> (positions (portfolio st));
          equity_history := equity_history (portfolio st) |};
     trades := trades st; orders := orders st;
     open_positions := open_positions st |}.

(** The entry branch: sizing, limits, the buy order and the initial stop. *)
Definition try_entry (sizing : SizingConfig) (risk_params : Risk.RiskParameters)
    (ts : Z) (equity : Q) (price_snapshot : gmap string Q) (sym : string)
    (bar : PriceBar) (indicator_row : gmap string fl) (st : State)
    : result State :=
  let price := close bar in
  match find_atr indicator_row with
  | None => Ok st
  | Some atr_value =>
      if Qle_bool atr_value 0 then Ok st
      else
        let qty :=
          if String.eqb (sizing_type sizing) "vol_target" then
            Risk.position_size_vol_target equity price atr_value
              (default 0.01 (sizing_params sizing !! "risk_per_trade"%string))
              (default 2 (sizing_params sizing !! "atr_multiple"%string))
          else if String.eqb (sizing_type sizing) "fixed" then
            default 0 (sizing_params sizing !! "shares"%string)
          else 0 in
        let gross_exposure :=
          gross_exposure_of (portfolio st) price_snapshot price equity in
        let! qty :=
          Risk.apply_position_limits qty price equity risk_params
            (Z.of_nat (size (positions (portfolio st)))) gross_exposure in
        if Qle_bool qty 0 then Ok st
        else
          let order := mkOrder sym qty price "buy" "entry" in
          let! pf := add_position (portfolio st) order in
          let stop_multiple :=
            default 2 (sizing_params sizing !! "atr_multiple"%string) in
          let stop_price :=
            Risk.stop_from_atr price atr_value stop_multiple "long" in
          let st' :=
            {| portfolio := pf; trades := trades st;
               orders := orders st ++ [order];
               open_positions :=
                 <[sym := mkEntry ts price]> (open_positions st) |} in
          match position pf sym, stop_price with
          | Some pos, Some stop =>
              if Qeq_bool stop 0 then Ok st'
              else
                Ok (store_position sym
                      {| symbol := symbol pos; quantity := quantity pos;
                         avg_price := avg_price pos; stop_price := Some stop;
                         trailing_multiple := trailing_multiple pos |} st')
          | _, _ => Ok st'
          end
  end.

(** The body of the inner loop of [run], for one symbol that has a bar at
    [ts]. *)
Definition process_symbol (sizing : SizingConfig)
    (risk_params : Risk.RiskParameters) (ts : Z) (equity : Q)
    (price_snapshot : gmap string Q) (sym : string) (bar : PriceBar)
    (indicator_row : gmap string fl) (signal_row : Rules.Signal) (st : State)
    : result State :=
  if any_nan indicator_row then Ok st
  else
    match position (portfolio st) sym with
    | Some pos =>
        let qty_held := quantity pos in
        let stop_hit :=
          match stop_price pos with
          | Some stop => if Qle_bool (low bar) stop then Some stop else None
          | None => None
          end in
        match stop_hit with
        | Some stop => close_position ts sym qty_held stop "stop" st
        | None =>
            let st :=
              match Rules.sig_trailing_stop signal_row with
              | Some (F trailing_stop) =>
                  store_position sym (update_stop pos trailing_stop) st
              | _ => st
              end in
            match Rules.sig_exit_reasons signal_row with
            | _ :: _ =>
                close_position ts sym qty_held (close bar)
                  (join (Rules.sig_exit_reasons signal_row)) st
            | [] => Ok st
            end
        end
    | None =>
        if negb (Rules.sig_entry signal_row) then Ok st
        else try_entry sizing risk_params ts equity price_snapshot sym bar
                       indicator_row st
    end.

(** What happens to the state inside the loop over the sorted timestamps:
    the equity mark of a timestamp, [portfolio.update_equity(timestamp,
    equity)], and the processing of one symbol that has a bar there. *)
Inductive event : Type :=
  | EquityMark (ts : Z) (value : Q)
  | SymbolBar (ts : Z) (equity : Q) (price_snapshot : gmap string Q)
      (sym : string) (bar : PriceBar) (indicator_row : gmap string fl)
      (signal_row : Rules.Signal).

Definition step (sizing : SizingConfig) (risk_params : Risk.RiskParameters)
    (ev : event) (st : State) : result State :=
  match ev with
  | EquityMark ts value =>
      Ok {| portfolio := update_equity (portfolio st) ts value;
            trades := trades st; orders := orders st;
            open_positions := open_positions st |}
  | SymbolBar ts equity price_snapshot sym bar indicator_row signal_row =>
      process_symbol sizing risk_params ts equity price_snapshot sym bar
        indicator_row signal_row st
  end.

(** The states after each event of a run. *)
Fixpoint run_events (sizing : SizingConfig) (risk_params : Risk.RiskParameters)
    (evs : list event) (st : State) : result (list State) :=
  match evs with
  | [] => Ok []
  | ev :: rest =>
      let! st' := step sizing risk_params ev st in
      let! states := run_events sizing risk_params rest st' in
      Ok (st' :: states)
  end.

(** *** The stop of an open position *)

(** The order on stops: an unset stop is below every stop. *)
Definition stop_le (a b : option Q) : Prop :=
  match a, b with
  | None, _ => True
  | Some s, Some s' => s <= s'
  | Some _, None => False
  end.

Lemma update_stop_unset (pos : Position) (n : Q) :
  stop_price pos = None -> stop_price (update_stop pos n) = Some n.
Proof. intros H. unfold update_stop. now rewrite H. Qed.

Lemma update_stop_raise (pos : Position) (n s : Q) :
  stop_price pos = Some s -> s < n -> stop_price (update_stop pos n) = Some n.
Proof.
  intros H Hlt. unfold update_stop. rewrite H.
  apply Qlt_bool_iff in Hlt. now rewrite Hlt.
Qed.

Lemma update_stop_keep (pos : Position) (n s : Q) :
  stop_price pos = Some s -> n <= s -> update_stop pos n = pos.
Proof.
  intros H Hle. unfold update_stop. rewrite H.
  apply Qlt_bool_false in Hle. now rewrite Hle.
Qed.

Lemma update_stop_le (pos : Position) (n : Q) :
  stop_le (stop_price pos) (stop_price (update_stop pos n)).
Proof.
  destruct (stop_price pos) as [s |] eqn:Hs; [| exact I].
  destruct (Qlt_le_dec s n) as [Hlt | Hle].
  - rewrite (update_stop_raise pos n s Hs Hlt). cbn. lra.
  - rewrite (update_stop_keep pos n s Hs Hle), Hs. cbn. lra.
Qed.

Lemma update_stop_quantity (pos : Position) (n : Q) :
  quantity (update_stop pos n) = quantity pos.
Proof.
  unfold update_stop. destruct (stop_price pos); [| reflexivity].
  now destruct (Qlt_bool _ _).
Qed.

(** Selling exactly the held quantity removes the position. *)
Lemma remove_position_all (pf pf' : Portfolio) (sym why : string)
    (pos : Position) (price : Q) :
  positions pf !! sym = Some pos ->
  remove_position pf (mkOrder sym (quantity pos) price "sell" why) = Ok pf' ->
  positions pf' = delete sym (positions pf).
Proof.
  intros Hpos H. unfold remove_position in H.
  cbn [side order_symbol order_quantity String.eqb Ascii.eqb Bool.eqb negb] in H.
  rewrite Hpos in H. injection H as <-. cbn [positions quantity].
  assert (E : Qle_bool (quantity pos - py_min (quantity pos) (quantity pos)) 0
              = true).
  { apply Qle_bool_iff. unfold py_min.
    destruct (Qlt_bool _ _); lra. }
  now rewrite E.
Qed.

Lemma close_position_positions (ts : Z) (sym why : string) (price : Q)
    (pos : Position) (st st' : State) :
  positions (portfolio st) !! sym = Some pos ->
  close_position ts sym (quantity pos) price why st = Ok st' ->
  positions (portfolio st') = delete sym (positions (portfolio st)).
Proof.
  intros Hpos H. unfold close_position in H.
  destruct (remove_position _ _) as [pf |] eqn:Hrm; [| discriminate].
  cbn [rbind] in H.
  destruct (open_positions st !! sym); [| discriminate].
  destruct (py_div _ _); [| discriminate].
  cbn [rbind] in H. injection H as <-. cbn [portfolio].
  eapply remove_position_all; eauto.
Qed.

Lemma try_entry_positions (sizing : SizingConfig)
    (risk_params : Risk.RiskParameters) (ts : Z) (equity : Q)
    (price_snapshot : gmap string Q) (sym : string) (bar : PriceBar)
    (indicator_row : gmap string fl) (st st' : State) (k : string) :
  try_entry sizing risk_params ts equity price_snapshot sym bar indicator_row st
  = Ok st' ->
  k <> sym ->
  positions (portfolio st') !! k = positions (portfolio st) !! k.
Proof.
  intros H Hk. unfold try_entry in H.
  destruct (find_atr indicator_row) as [atr_value |]; [| now injection H as <-].
  destruct (Qle_bool atr_value 0); [now injection H as <- |].
  destruct (Risk.apply_position_limits _ _ _ _ _ _) as [qty |];
    [| discriminate].
  cbn [rbind] in H.
  destruct (Qle_bool qty 0); [now injection H as <- |].
  destruct (add_position _ _) as [pf |] eqn:Hadd; [| discriminate].
  cbn [rbind] in H.
  assert (Hpf : positions pf !! k = positions (portfolio st) !! k).
  { unfold add_position in Hadd.
    cbn [side order_symbol String.eqb Ascii.eqb Bool.eqb negb] in Hadd.
    destruct (positions (portfolio st) !! sym) as [ex |].
    - destruct (Qle_bool _ 0).
      + injection Hadd as <-. cbn [positions]. now apply lookup_delete_ne.
      + destruct (py_div _ _); [| discriminate].
        cbn [rbind] in Hadd. injection Hadd as <-. cbn [positions].
        now apply lookup_insert_ne.
    - injection Hadd as <-. cbn [positions]. now apply lookup_insert_ne. }
  destruct (position pf sym) as [pos |];
    [| injection H as <-; exact Hpf].
  destruct (Risk.stop_from_atr _ _ _ _) as [stop |];
    [| injection H as <-; exact Hpf].
  destruct (Qeq_bool stop 0); injection H as <-; [exact Hpf |].
  cbn [store_position portfolio positions].
  rewrite lookup_insert_ne by congruence. exact Hpf.
Qed.

(** One step of the simulator on a symbol leaves every position that is
    open before and after the step either untouched or changed by
    [update_stop] alone; the initial stop is written only into a position
    that the step itself has just opened. *)
Lemma process_symbol_positions (sizing : SizingConfig)
    (risk_params : Risk.RiskParameters) (ts : Z) (equity : Q)
    (price_snapshot : gmap string Q) (sym : string) (bar : PriceBar)
    (indicator_row : gmap string fl) (signal_row : Rules.Signal)
    (st st' : State) (k : string) (p p' : Position) :
  process_symbol sizing risk_params ts equity price_snapshot sym bar
    indicator_row signal_row st = Ok st' ->
  positions (portfolio st) !! k = Some p ->
  positions (portfolio st') !! k = Some p' ->
  p' = p
  \/ (k = sym /\ exists n, Rules.sig_trailing_stop signal_row = Some (F n)
                          /\ p' = update_stop p n).
Proof.
  intros H Hp Hp'. unfold process_symbol in H.
  destruct (any_nan indicator_row).
  { injection H as <-. left. congruence. }
  unfold position in H.
  destruct (positions (portfolio st) !! sym) as [pos |] eqn:Hpos.
  - destruct (match stop_price pos with
              | Some stop => if Qle_bool (low bar) stop then Some stop else None
              | None => None
              end) as [stop |].
    + (* the stop is hit: the position is closed *)
      rewrite (close_position_positions _ _ _ _ _ _ _ Hpos H) in Hp'.
      apply lookup_delete_Some in Hp' as [Hne Hp']. left. congruence.
    + destruct (Rules.sig_trailing_stop signal_row) as [[n |] |] eqn:Hts.
      * (* a new trailing stop *)
        assert (Hstored :
          positions (portfolio (store_position sym (update_stop pos n) st))
            !! sym = Some (update_stop pos n))
          by (cbn [store_position portfolio positions]; apply lookup_insert_eq).
        destruct (Rules.sig_exit_reasons signal_row).
        -- injection H as <-. cbn [store_position portfolio positions] in Hp'.
           apply lookup_insert_Some in Hp' as [[<- <-] | [Hne Hp']].
           ++ right. split; [reflexivity |]. exists n.
              split; [reflexivity |]. congruence.
           ++ left. congruence.
        -- rewrite <- (update_stop_quantity pos n) in H.
           rewrite (close_position_positions _ _ _ _ _ _ _ Hstored H) in Hp'.
           apply lookup_delete_Some in Hp' as [Hne Hp'].
           cbn [store_position portfolio positions] in Hp'.
           rewrite lookup_insert_ne in Hp' by congruence. left. congruence.
      * destruct (Rules.sig_exit_reasons signal_row).
        -- injection H as <-. left. congruence.
        -- rewrite (close_position_positions _ _ _ _ _ _ _ Hpos H) in Hp'.
           apply lookup_delete_Some in Hp' as [Hne Hp']. left. congruence.
      * destruct (Rules.sig_exit_reasons signal_row).
        -- injection H as <-. left. congruence.
        -- rewrite (close_position_positions _ _ _ _ _ _ _ Hpos H) in Hp'.
           apply lookup_delete_Some in Hp' as [Hne Hp']. left. congruence.
  - destruct (negb (Rules.sig_entry signal_row)).
    { injection H as <-. left. congruence. }
    assert (Hk : k <> sym) by congruence.
    rewrite (try_entry_positions _ _ _ _ _ _ _ _ _ _ k H Hk) in Hp'.
    left. congruence.
Qed.

Lemma stop_le_refl (a : option Q) : stop_le a a.
Proof. destruct a; cbn; [lra | exact I]. Qed.

Lemma stop_le_trans (a b c : option Q) :
  stop_le a b -> stop_le b c -> stop_le a c.
Proof.
  destruct a, b, c; cbn; try tauto. intros. lra.
Qed.

Lemma last_default {A : Type} (l : list A) (x d d' : A) :
  List.last (x :: l) d = List.last (x :: l) d'.
Proof.
  revert x. induction l as [| y l IH]; intros x; [reflexivity |].
  change (List.last (y :: l) d = List.last (y :: l) d'). apply IH.
Qed.

Lemma last_after_head {A : Type} (l : list A) (x d : A) :
  List.last (x :: l) d = List.last l x.
Proof.
  destruct l as [| y l]; [reflexivity |].
  change (List.last (y :: l) d = List.last (y :: l) x). apply last_default.
Qed.

Lemma step_stop_le (sizing : SizingConfig) (risk_params : Risk.RiskParameters)
    (ev : event) (st st' : State) (k : string) (p p' : Position) :
  step sizing risk_params ev st = Ok st' ->
  positions (portfolio st) !! k = Some p ->
  positions (portfolio st') !! k = Some p' ->
  stop_le (stop_price p) (stop_price p').
Proof.
  intros H Hp Hp'. destruct ev; cbn [step] in H.
  - injection H as <-. cbn in Hp'.
    assert (p' = p) by congruence. subst. apply stop_le_refl.
  - destruct (process_symbol_positions _ _ _ _ _ _ _ _ _ _ _ _ _ _ H Hp Hp')
      as [-> | (_ & n & _ & ->)].
    + apply stop_le_refl.
    + apply update_stop_le.
Qed.

(** C8.  [Position.update_stop] sets the stop to the proposed value exactly
    when the stop was unset or the proposed value is strictly higher, and
    otherwise leaves the position as it is, so the stop is never lowered;
    and over any run of the simulator's loop, a position that stays open
    from one state to a later one has, in the later state, a stop that is at
    least its earlier stop: an open position's stop changes through
    [update_stop] only. *)
Theorem stop_never_lowered :
  (forall (pos : Position) (n : Q),
      (stop_price pos = None -> stop_price (update_stop pos n) = Some n)
      /\ (forall s, stop_price pos = Some s -> s < n ->
                    stop_price (update_stop pos n) = Some n)
      /\ (forall s, stop_price pos = Some s -> n <= s ->
                    update_stop pos n = pos)
      /\ stop_le (stop_price pos) (stop_price (update_stop pos n)))
  /\ (forall (sizing : SizingConfig) (risk_params : Risk.RiskParameters)
             (evs : list event) (st : State) (states : list State)
             (k : string) (p p' : Position),
         run_events sizing risk_params evs st = Ok states ->
         Forall (fun s => is_Some (positions (portfolio s) !! k))
                (st :: states) ->
         positions (portfolio st) !! k = Some p ->
         positions (portfolio (List.last states st)) !! k = Some p' ->
         stop_le (stop_price p) (stop_price p')).
Proof.
  split.
  - intros pos n. split; [apply update_stop_unset |].
    split; [apply update_stop_raise |].
    split; [apply update_stop_keep | apply update_stop_le].
  - intros sizing risk_params evs.
    induction evs as [| ev rest IH]; intros st states k p p' Hrun Hopen Hp Hp'.
    + injection Hrun as <-. cbn in Hp'.
      assert (p' = p) by congruence. subst. apply stop_le_refl.
    + cbn [run_events] in Hrun.
      destruct (step sizing risk_params ev st) as [st1 |] eqn:Hstep;
        [| discriminate].
      cbn [rbind] in Hrun.
      destruct (run_events sizing risk_params rest st1) as [states1 |] eqn:Hrest;
        [| discriminate].
      cbn [rbind] in Hrun. injection Hrun as <-.
      inversion Hopen as [| ? ? _ Hopen1]; subst.
      inversion Hopen1 as [| ? ? [p1 Hp1] _]; subst.
      apply stop_le_trans with (stop_price p1).
      * eapply step_stop_le; eauto.
      * eapply IH; eauto.
        now rewrite <- (last_after_head states1 st1 st).
Qed.

(** A run on one open position: 10 shares of AAA bought at 100 with the
    stop at 90; the rules propose a trailing stop of 95 on the first bar and
    of 93 on the second. *)
Definition demo_position : Position := mkPosition "AAA" 10 100 (Some 90) None.

Definition demo_state : State :=
  mkState (mkPortfolio 1000 {["AAA"%string := demo_position]} []) [] []
          {["AAA"%string := mkEntry 0 100]}.

Definition demo_bar (ts : Z) (proposed_stop : Q) : event :=
  SymbolBar ts 2000 {["AAA"%string := 100]} "AAA"
    (mkBar ts 100 101 96 100 1000) {["atr"%string := F 2]}
    (Rules.mkSignal ts false [] (Some (F proposed_stop))
       {["atr"%string := F 2]}).

Definition demo_events : list event :=
  [EquityMark 1 2000; demo_bar 1 95; EquityMark 2 2000; demo_bar 2 93].

Definition demo_sizing : SizingConfig := mkSizing "fixed" {["shares"%string := 10]}.

Definition demo_limits : Risk.RiskParameters :=
  {| Risk.max_positions := 5; Risk.max_gross_exposure := 1;
     Risk.max_position_pct := 0.2 |}.

(** An entry with fixed sizing: 10 shares are bought at the close and the
    initial stop is the close less twice the ATR. *)
Example entry_opens_position :
  exists st,
    process_symbol demo_sizing demo_limits 1 100000 {["AAA"%string := 100]}
      "AAA" (mkBar 1 100 101 96 100 1000) {["atr"%string := F 2]}
      (Rules.mkSignal 1 true [] None {["atr"%string := F 2]})
      (mkState (mkPortfolio 100000 ∅ []) [] [] ∅) = Ok st
    /\ positions (portfolio st) !! "AAA"%string
       = Some (mkPosition "AAA" 10 100 (Some (100 - 2 * 2)) None)
    /\ cash (portfolio st) == 99000
    /\ orders st = [mkOrder "AAA" 10 100 "buy" "entry"].
Proof.
  eexists. split; [vm_compute; reflexivity |].
  split; [vm_compute; reflexivity |].
  split; vm_compute; reflexivity.
Qed.

Lemma stop_never_lowered_witness :
  exists states p',
    run_events demo_sizing demo_limits demo_events demo_state = Ok states
    /\ positions (portfolio (List.last states demo_state)) !! "AAA"%string
       = Some p'
    /\ stop_price p' = Some 95
    /\ stop_le (stop_price demo_position) (stop_price p').
Proof.
  eexists _, _.
  split; [vm_compute; reflexivity |].
  split; [vm_compute; reflexivity |].
  split; [reflexivity |].
  eapply (proj2 stop_never_lowered demo_sizing demo_limits demo_events
            demo_state _ "AAA"%string demo_position _).
  - vm_compute. reflexivity.
  - repeat constructor; vm_compute; eexists; reflexivity.
  - vm_compute. reflexivity.
  - vm_compute. reflexivity.
Defined.

End Engine.

(** * Further properties of the embedded code *)

(** ** app/core/risk.py *)

Module RiskProps.

Import Risk.

(** X1.  [position_size_vol_target] never returns a negative share count,
    whatever the inputs. *)
Theorem position_size_vol_target_nonneg (equity price atr rpt mult : Q) :
  0 <= position_size_vol_target equity price atr rpt mult.
Proof.
  unfold position_size_vol_target.
  destruct (Qle_bool price 0 || Qle_bool atr 0); [lra |].
  destruct (Qle_bool (atr * mult) 0); [lra |].
  apply py_max_ge_r.
Qed.

Lemma stop_from_atr_long (entry_price atr multiple : Q) :
  0 < atr ->
  stop_from_atr entry_price atr multiple "long"
  = Some (entry_price - atr * multiple).
Proof.
  intros Ha. unfold stop_from_atr.
  apply Qle_bool_false in Ha. now rewrite Ha.
Qed.

Lemma stop_from_atr_short (entry_price atr multiple : Q) :
  0 < atr ->
  stop_from_atr entry_price atr multiple "short"
  = Some (entry_price + atr * multiple).
Proof.
  intros Ha. unfold stop_from_atr.
  apply Qle_bool_false in Ha. now rewrite Ha.
Qed.

(** X2.  [stop_from_atr] gives no stop exactly when the ATR is not positive
    or the direction is neither long nor short; with a positive ATR and a
    positive multiple the long stop lies strictly below the entry price, the
    short stop strictly above, both at the same distance. *)
Theorem stop_from_atr_sides (entry_price atr multiple : Q) (direction : string) :
  (stop_from_atr entry_price atr multiple direction = None
   <-> atr <= 0 \/ (direction <> "long" /\ direction <> "short")%string)
  /\ (0 < atr -> 0 < multiple ->
      exists lo hi,
        stop_from_atr entry_price atr multiple "long" = Some lo
        /\ stop_from_atr entry_price atr multiple "short" = Some hi
        /\ lo < entry_price /\ entry_price < hi
        /\ entry_price - lo == hi - entry_price).
Proof.
  split.
  - unfold stop_from_atr. destruct (Qle_bool atr 0) eqn:Ea.
    + apply Qle_bool_iff in Ea. split; [now left | reflexivity].
    + apply Qle_bool_false in Ea.
      destruct (String.eqb_spec direction "long") as [-> | Hl].
      * split; [discriminate |]. intros [H | [H _]]; [lra | congruence].
      * destruct (String.eqb_spec direction "short") as [-> | Hs].
        -- split; [discriminate |]. intros [H | [_ H]]; [lra | congruence].
        -- split; [now right | reflexivity].
  - intros Ha Hm. exists (entry_price - atr * multiple),
      (entry_price + atr * multiple).
    rewrite stop_from_atr_long, stop_from_atr_short by exact Ha.
    repeat split; first [nra | ring].
Qed.

Lemma stop_from_atr_sides_witness :
  exists lo hi,
    stop_from_atr 100 2 2 "long" = Some lo
    /\ stop_from_atr 100 2 2 "short" = Some hi
    /\ lo < 100 /\ 100 < hi /\ 100 - lo == hi - 100.
Proof.
  apply (proj2 (stop_from_atr_sides 100 2 2 "long")); reflexivity.
Defined.

(** X3.  Sizing and stop fit together: with a positive price, ATR and
    multiple and a non-negative dollar risk, the loss of the sized position
    when it is stopped out at the long stop of [stop_from_atr] (same ATR,
    same multiple) is exactly [equity * risk_per_trade]. *)
Theorem loss_at_stop_is_risk_budget (equity price atr rpt mult : Q) :
  0 < price -> 0 < atr -> 0 < mult -> 0 <= equity * rpt ->
  exists stop,
    stop_from_atr price atr mult "long" = Some stop
    /\ position_size_vol_target equity price atr rpt mult * (price - stop)
       == equity * rpt.
Proof.
  intros Hp Ha Hm He.
  assert (Hs : 0 < atr * mult) by nra.
  exists (price - atr * mult). split; [now apply stop_from_atr_long |].
  rewrite position_size_vol_target_floor by assumption.
  rewrite py_max_l by (apply Qdiv_nonneg; assumption).
  field. lra.
Qed.

Lemma loss_at_stop_is_risk_budget_witness :
  exists stop,
    stop_from_atr 100 2 2 "long" = Some stop
    /\ position_size_vol_target 100000 100 2 0.01 2 * (100 - stop)
       == 100000 * 0.01.
Proof.
  apply loss_at_stop_is_risk_budget; vm_compute; congruence.
Defined.

(** X4.  With a positive price and a non-negative position fraction, the
    limits only ever reduce a non-negative desired quantity: the call
    returns, and the result lies between 0 and the desired quantity. *)
Theorem apply_position_limits_reduces
    (q p e : Q) (params : RiskParameters) (cur : Z) (g : Q) :
  0 <= q -> 0 < p -> 0 <= max_position_pct params ->
  exists r,
    apply_position_limits q p e params cur g = Ok r /\ 0 <= r /\ r <= q.
Proof.
  intros Hq Hp Hpct. unfold apply_position_limits.
  destruct (negb (max_positions params =? 0)%Z
            && (max_positions params <=? cur)%Z).
  { exists 0. repeat split; lra. }
  destruct (Qle_bool e 0) eqn:Ee.
  { exists 0. repeat split; lra. }
  apply Qle_bool_false in Ee.
  assert (Hmpv : 0 <= e * max_position_pct params) by nra.
  assert (H1 : exists q1,
    (if Qlt_bool (e * max_position_pct params) (q * p)
     then py_div (e * max_position_pct params) p else Ok q) = Ok q1
    /\ 0 <= q1 /\ q1 <= q).
  { destruct (Qlt_bool _ (q * p)) eqn:E.
    - apply Qlt_bool_iff in E. rewrite py_div_ok by lra.
      eexists. split; [reflexivity |]. split.
      + now apply Qdiv_nonneg.
      + apply Qle_shift_div_r; lra.
    - exists q. repeat split; lra. }
  destruct H1 as (q1 & -> & Hq1 & Hq1q). cbn [rbind].
  rewrite (py_div_ok _ e) by lra. cbn [rbind].
  destruct (Qlt_bool (max_gross_exposure params) (g + Qabs (q1 * p) / e))
    eqn:E.
  - apply Qlt_bool_iff in E. rewrite py_div_ok by lra. cbn [rbind].
    assert (Hq1p : 0 <= q1 * p) by nra.
    rewrite (Qabs_nonneg_eq _ Hq1p) in E.
    assert (Hmul : q1 * p / e * e == q1 * p) by (field; lra).
    set (room := py_max (max_gross_exposure params - g) 0) in *.
    assert (Hroom : 0 <= room /\ room * e <= q1 * p).
    { unfold room, py_max.
      destruct (Qlt_bool (max_gross_exposure params - g) 0) eqn:Er.
      - split; [lra | nra].
      - apply Qlt_bool_false in Er. split; [exact Er | nra]. }
    destruct Hroom as [Hr0 Hr1].
    assert (H2 : 0 <= room * e / p) by (apply Qdiv_nonneg; nra).
    rewrite (py_max_l _ 0 H2).
    eexists. split; [reflexivity |]. split; [exact H2 |].
    apply Qle_trans with q1; [| exact Hq1q].
    apply Qle_shift_div_r; lra.
  - cbn [rbind]. rewrite (py_max_l q1 0 Hq1). exists q1. auto.
Qed.

Lemma apply_position_limits_reduces_witness :
  exists r,
    apply_position_limits 1000 100 100000
      {| max_positions := 5; max_gross_exposure := 1; max_position_pct := 0.2 |}
      2 0.4 = Ok r /\ 0 <= r /\ r <= 1000.
Proof.
  apply apply_position_limits_reduces; vm_compute; congruence.
Defined.

(** X5.  A desired quantity that already satisfies the limits passes
    unchanged: when the position count does not reject, equity is positive,
    the quantity is non-negative, its notional is within
    [max_position_pct * equity] and the exposure with it is within
    [max_gross_exposure], the same quantity is returned. *)
Theorem apply_position_limits_unchanged
    (q p e : Q) (params : RiskParameters) (cur : Z) (g : Q) :
  (max_positions params = 0 \/ cur < max_positions params)%Z ->
  0 < e -> 0 <= q ->
  q * p <= max_position_pct params * e ->
  g + Qabs (q * p) / e <= max_gross_exposure params ->
  apply_position_limits q p e params cur g = Ok q.
Proof.
  intros Hcount He Hq Hcap Hexp. unfold apply_position_limits.
  assert (Ec : negb (max_positions params =? 0)%Z
               && (max_positions params <=? cur)%Z = false).
  { destruct Hcount as [-> | Hlt]; [reflexivity |].
    apply andb_false_iff. right. apply Z.leb_gt. exact Hlt. }
  rewrite Ec.
  assert (Ee : Qle_bool e 0 = false) by now apply Qle_bool_false.
  rewrite Ee.
  assert (E1 : Qlt_bool (e * max_position_pct params) (q * p) = false)
    by (apply Qlt_bool_false; lra).
  rewrite E1. cbn [rbind]. rewrite (py_div_ok _ e) by lra. cbn [rbind].
  assert (E2 : Qlt_bool (max_gross_exposure params) (g + Qabs (q * p) / e)
               = false) by (apply Qlt_bool_false; exact Hexp).
  rewrite E2. cbn [rbind]. now rewrite (py_max_l q 0 Hq).
Qed.

Lemma apply_position_limits_unchanged_witness :
  apply_position_limits 100 100 100000
    {| max_positions := 5; max_gross_exposure := 1; max_position_pct := 0.2 |}
    2 0.4 = Ok 100.
Proof.
  apply apply_position_limits_unchanged.
  - right. cbn. lia.
  - reflexivity.
  - vm_compute. congruence.
  - vm_compute. congruence.
  - vm_compute. congruence.
Defined.

End RiskProps.

(** ** app/core/portfolio.py *)

Module PortfolioProps.

Import PortfolioM.

Definition not_a_buy : exn := ValueError "Can only add positions from buy orders".

Definition not_a_sell : exn :=
  ValueError "Can only remove positions from sell orders".

(** X6.  [add_position] raises exactly for an order whose side is not
    ["buy"], and [remove_position] exactly for one whose side is not
    ["sell"]; the error is then the [ValueError] of the method, and nothing
    else is ever raised (the division for the new average price cannot
    fail). *)
Theorem order_side_errors (pf : Portfolio) (o : Order) :
  (side o <> "buy"%string -> add_position pf o = Raise not_a_buy)
  /\ (side o = "buy"%string -> exists pf', add_position pf o = Ok pf')
  /\ (side o <> "sell"%string -> remove_position pf o = Raise not_a_sell)
  /\ (side o = "sell"%string -> exists pf', remove_position pf o = Ok pf').
Proof.
  split; [| split; [| split]].
  - intros Hs. unfold add_position.
    destruct (String.eqb_spec (side o) "buy"); [contradiction | reflexivity].
  - apply add_position_buy_ok.
  - intros Hs. unfold remove_position.
    destruct (String.eqb_spec (side o) "sell"); [contradiction | reflexivity].
  - apply remove_position_sell_ok.
Qed.

Lemma order_side_errors_witness :
  add_position (mkPortfolio 1000 ∅ []) (mkOrder "AAA" 5 10 "sell" "exit")
  = Raise not_a_buy
  /\ exists pf', remove_position (mkPortfolio 1000 ∅ [])
                   (mkOrder "AAA" 5 10 "sell" "exit") = Ok pf'.
Proof.
  split.
  - apply (proj1 (order_side_errors (mkPortfolio 1000 ∅ [])
                    (mkOrder "AAA" 5 10 "sell" "exit"))).
    discriminate.
  - apply (proj2 (proj2 (proj2 (order_side_errors (mkPortfolio 1000 ∅ [])
                                  (mkOrder "AAA" 5 10 "sell" "exit"))))).
    reflexivity.
Defined.

(** X7.  An order changes the position of its own symbol only. *)
Theorem order_touches_its_symbol_only (pf pf' : Portfolio) (o : Order)
    (k : string) :
  apply_order pf o = Ok pf' -> k <> order_symbol o ->
  positions pf' !! k = positions pf !! k.
Proof.
  intros H Hk. unfold apply_order in H.
  destruct (String.eqb (side o) "buy").
  - unfold add_position in H.
    destruct (negb _); [discriminate |].
    destruct (positions pf !! order_symbol o) as [ex |].
    + destruct (Qle_bool _ 0).
      * injection H as <-. cbn [positions]. now apply lookup_delete_ne.
      * destruct (py_div _ _); [| discriminate].
        cbn [rbind] in H. injection H as <-. cbn [positions].
        now apply lookup_insert_ne.
    + injection H as <-. cbn [positions]. now apply lookup_insert_ne.
  - unfold remove_position in H.
    destruct (negb _); [discriminate |].
    destruct (positions pf !! order_symbol o) as [ex |].
    + injection H as <-. cbn [positions].
      destruct (Qle_bool _ 0);
        [now apply lookup_delete_ne | now apply lookup_insert_ne].
    + now injection H as <-.
Qed.

Definition two_stocks : Portfolio :=
  mkPortfolio 1000
    {["AAA"%string := mkPosition "AAA" 10 100 None None;
      "BBB"%string := mkPosition "BBB" 4 50 (Some 45) None]} [].

Lemma order_touches_its_symbol_only_witness :
  exists pf',
    apply_order two_stocks (mkOrder "AAA" 3 110 "sell" "exit") = Ok pf'
    /\ positions pf' !! "BBB"%string = positions two_stocks !! "BBB"%string.
Proof.
  eexists. split; [vm_compute; reflexivity |].
  apply (order_touches_its_symbol_only two_stocks _
           (mkOrder "AAA" 3 110 "sell" "exit")).
  - vm_compute. reflexivity.
  - discriminate.
Defined.

(** X8.  Buying a symbol that has no position and then selling the same
    quantity closes the round trip: the position map is exactly what it was,
    the equity history is untouched, and cash has moved by the quantity
    times the price difference. *)
Theorem buy_then_sell_round_trip (pf : Portfolio) (sym why1 why2 : string)
    (q p p' : Q) :
  positions pf !! sym = None -> 0 < q ->
  exists pf1 pf2,
    add_position pf (mkOrder sym q p "buy" why1) = Ok pf1
    /\ remove_position pf1 (mkOrder sym q p' "sell" why2) = Ok pf2
    /\ positions pf2 = positions pf
    /\ equity_history pf2 = equity_history pf
    /\ cash pf2 == cash pf + q * (p' - p).
Proof.
  intros Hnone Hq. unfold add_position.
  cbn [side order_symbol order_quantity order_price String.eqb Ascii.eqb
       Bool.eqb negb].
  rewrite Hnone. eexists _, _. split; [reflexivity |].
  unfold remove_position.
  cbn [side order_symbol order_quantity order_price String.eqb Ascii.eqb
       Bool.eqb negb positions].
  rewrite lookup_insert_eq. cbn [quantity].
  assert (Hmin : py_min q q = q).
  { unfold py_min. destruct (Qlt_bool q q); reflexivity. }
  rewrite Hmin.
  assert (E : Qle_bool (q - q) 0 = true) by (apply Qle_bool_iff; lra).
  rewrite E. split; [reflexivity |]. cbn [positions equity_history cash].
  split; [now apply delete_insert_id |].
  split; [reflexivity | ring].
Qed.

Lemma buy_then_sell_round_trip_witness :
  exists pf1 pf2,
    add_position (mkPortfolio 1000 ∅ []) (mkOrder "AAA" 5 10 "buy" "entry")
    = Ok pf1
    /\ remove_position pf1 (mkOrder "AAA" 5 12 "sell" "exit") = Ok pf2
    /\ positions pf2 = ∅
    /\ equity_history pf2 = []
    /\ cash pf2 == 1000 + 5 * (12 - 10).
Proof.
  apply (buy_then_sell_round_trip (mkPortfolio 1000 ∅ []) "AAA" "entry" "exit"
           5 10 12).
  - apply lookup_empty.
  - reflexivity.
Defined.

(** X9.  Adding to an existing position keeps the cost basis: the new
    quantity is the sum, the new average price times the new quantity is the
    old cost plus the cost of the order, the stop is kept, and cash falls by
    the cost of the order. *)
Theorem add_position_cost_basis (pf : Portfolio) (o : Order) (ex : Position) :
  side o = "buy"%string ->
  positions pf !! order_symbol o = Some ex ->
  0 < quantity ex + order_quantity o ->
  exists pf' pos',
    add_position pf o = Ok pf'
    /\ positions pf' !! order_symbol o = Some pos'
    /\ quantity pos' = quantity ex + order_quantity o
    /\ avg_price pos' * quantity pos'
       == avg_price ex * quantity ex + order_price o * order_quantity o
    /\ stop_price pos' = stop_price ex
    /\ cash pf' = cash pf - order_quantity o * order_price o.
Proof.
  intros Hs Hex Hq. unfold add_position.
  rewrite Hs, String.eqb_refl, Hex. cbn [negb].
  apply Qle_bool_false in Hq as Eq. rewrite Eq.
  rewrite py_div_ok by lra. cbn [rbind].
  eexists _, _. split; [reflexivity |]. cbn [positions cash].
  rewrite lookup_insert_eq. split; [reflexivity |].
  cbn [quantity avg_price stop_price].
  repeat split. field. lra.
Qed.

Lemma add_position_cost_basis_witness :
  exists pf' pos',
    add_position two_stocks (mkOrder "AAA" 10 120 "buy" "entry") = Ok pf'
    /\ positions pf' !! "AAA"%string = Some pos'
    /\ quantity pos' = 10 + 10
    /\ avg_price pos' * quantity pos' == 100 * 10 + 120 * 10
    /\ stop_price pos' = None
    /\ cash pf' = 1000 - 10 * 120.
Proof.
  apply (add_position_cost_basis two_stocks
           (mkOrder "AAA" 10 120 "buy" "entry")
           (mkPosition "AAA" 10 100 None None)).
  - reflexivity.
  - vm_compute. reflexivity.
  - reflexivity.
Defined.

(** *** Mark-to-market value *)

Definition value_step (prices : gmap string Q) (sym : string) (pos : Position)
    (value : Q) : Q :=
  match prices !! sym with
  | None => value
  | Some price => value + market_value_of pos price
  end.

(** What one position adds to the market value. *)
Definition worth (prices : gmap string Q) (sym : string) (pos : Position) : Q :=
  match prices !! sym with
  | None => 0
  | Some price => quantity pos * price
  end.

Lemma value_step_worth (prices : gmap string Q) (sym : string) (pos : Position)
    (value : Q) :
  value_step prices sym pos value == value + worth prices sym pos.
Proof.
  unfold value_step, worth, market_value_of.
  destruct (prices !! sym); ring.
Qed.

Lemma value_step_proper (prices : gmap string Q) (sym : string)
    (pos : Position) :
  Proper (Qeq ==> Qeq) (value_step prices sym pos).
Proof.
  intros a b Hab. rewrite !value_step_worth. now rewrite Hab.
Qed.

Lemma value_step_comm (prices : gmap string Q) (j1 j2 : string)
    (z1 z2 : Position) (y : Q) :
  value_step prices j1 z1 (value_step prices j2 z2 y)
  == value_step prices j2 z2 (value_step prices j1 z1 y).
Proof. rewrite !value_step_worth. ring. Qed.

Lemma market_value_fold (pf : Portfolio) (prices : gmap string Q) :
  market_value pf prices
  = map_fold (value_step prices) (cash pf) (positions pf).
Proof. reflexivity. Qed.

Lemma fold_insert_fresh (prices : gmap string Q) (c : Q)
    (m : gmap string Position) (sym : string) (pos : Position) :
  m !! sym = None ->
  map_fold (value_step prices) c (<[sym := pos]> m)
  == map_fold (value_step prices) c m + worth prices sym pos.
Proof.
  intros Hnone.
  rewrite (map_fold_insert Qeq (value_step prices) c sym pos m).
  - apply value_step_worth.
  - intros j z. apply value_step_proper.
  - intros. apply value_step_comm.
  - exact Hnone.
Qed.

Lemma fold_delete_present (prices : gmap string Q) (c : Q)
    (m : gmap string Position) (sym : string) (pos : Position) :
  m !! sym = Some pos ->
  map_fold (value_step prices) c m
  == map_fold (value_step prices) c (delete sym m) + worth prices sym pos.
Proof.
  intros Hsome.
  rewrite (map_fold_delete Qeq (value_step prices) c sym pos m).
  - apply value_step_worth.
  - intros j z. apply value_step_proper.
  - intros. apply value_step_comm.
  - exact Hsome.
Qed.

Lemma fold_insert_any (prices : gmap string Q) (c : Q)
    (m : gmap string Position) (sym : string) (pos : Position) :
  map_fold (value_step prices) c (<[sym := pos]> m)
  == map_fold (value_step prices) c (delete sym m) + worth prices sym pos.
Proof.
  rewrite <- insert_delete_eq. apply fold_insert_fresh, lookup_delete_eq.
Qed.

Lemma fold_shift_cash (prices : gmap string Q) (c d : Q)
    (m : gmap string Position) :
  map_fold (value_step prices) (c + d) m
  == map_fold (value_step prices) c m + d.
Proof.
  apply (map_fold_comm_acc_strong Qeq (value_step prices) (fun x => x + d) c m).
  - intros j z. apply value_step_proper.
  - intros j z y _. rewrite !value_step_worth. ring.
Qed.

(** X10.  A trade at the mark price leaves the mark-to-market value of the
    portfolio unchanged: a buy that opens a position or adds to one (with a
    positive total), and every sell, when the order's price is the price at
    which the symbol is valued. *)
Theorem trade_at_mark_conserves_value (pf pf' : Portfolio) (o : Order)
    (prices : gmap string Q) :
  prices !! order_symbol o = Some (order_price o) ->
  (forall ex, side o = "buy"%string ->
              positions pf !! order_symbol o = Some ex ->
              0 < quantity ex + order_quantity o) ->
  apply_order pf o = Ok pf' ->
  market_value pf' prices == market_value pf prices.
Proof.
  intros Hprice Htotal H. rewrite !market_value_fold.
  unfold apply_order in H.
  destruct (String.eqb_spec (side o) "buy") as [Hs | Hs].
  - unfold add_position in H. rewrite Hs in H. cbn [String.eqb Ascii.eqb
      Bool.eqb negb] in H.
    destruct (positions pf !! order_symbol o) as [ex |] eqn:Hex.
    + specialize (Htotal ex Hs eq_refl).
      apply Qle_bool_false in Htotal as Et. rewrite Et in H.
      rewrite py_div_ok in H by lra. cbn [rbind] in H.
      injection H as <-. cbn [cash positions].
      rewrite fold_insert_any.
      rewrite (fold_delete_present prices (cash pf) _ _ ex Hex).
      unfold Qminus. rewrite fold_shift_cash.
      unfold worth. rewrite Hprice. cbn [quantity]. ring.
    + injection H as <-. cbn [cash positions].
      rewrite (fold_insert_fresh prices _ _ _ _ Hex).
      unfold Qminus. rewrite fold_shift_cash.
      unfold worth. rewrite Hprice. cbn [quantity]. ring.
  - unfold remove_position in H.
    destruct (negb _); [discriminate |].
    destruct (positions pf !! order_symbol o) as [ex |] eqn:Hex;
      [| now injection H as <-].
    injection H as <-. cbn [cash positions quantity].
    rewrite (fold_delete_present prices (cash pf) _ _ ex Hex).
    set (sold := py_min (order_quantity o) (quantity ex)).
    destruct (Qle_bool (quantity ex - sold) 0) eqn:E.
    + apply Qle_bool_iff in E.
      pose proof (py_min_le_r (order_quantity o) (quantity ex)) as Hle.
      fold sold in Hle.
      rewrite fold_shift_cash. unfold worth. rewrite Hprice.
      assert (Heq : quantity ex == sold) by lra.
      rewrite Heq. ring.
    + rewrite fold_insert_any, fold_shift_cash.
      unfold worth. rewrite Hprice. cbn [quantity]. ring.
Qed.

Lemma trade_at_mark_conserves_value_witness :
  exists pf',
    apply_order two_stocks (mkOrder "AAA" 3 110 "sell" "exit") = Ok pf'
    /\ market_value pf' {["AAA"%string := 110; "BBB"%string := 50]}
       == market_value two_stocks {["AAA"%string := 110; "BBB"%string := 50]}.
Proof.
  eexists. split; [vm_compute; reflexivity |].
  apply (trade_at_mark_conserves_value two_stocks _
           (mkOrder "AAA" 3 110 "sell" "exit")).
  - vm_compute. reflexivity.
  - discriminate.
  - vm_compute. reflexivity.
Defined.

End PortfolioProps.

(** ** app/signals/indicators.py *)

Module IndicatorProps.

Import Indicators.

(** [_macd]: the fast EMA less the slow EMA, without a warm-up mask. *)
Definition _macd (bars : list PriceBar) (params : gmap string Q)
    : result (list fl) :=
  let fast := py_int (default 12 (params !! "fast"%string)) in
  let slow := py_int (default 26 (params !! "slow"%string)) in
  let closes := map F (_get_close bars) in
  let! fast_ema := _ema closes fast in
  let! slow_ema := _ema closes slow in
  Ok (zip_with fsub fast_ema slow_ema).

(** A number within [lo, hi]. *)
Definition within (lo hi : Q) (x : fl) : Prop :=
  match x with F q => lo <= q /\ q <= hi | NaN => False end.

Lemma ema_loop_within (a lo hi : Q) (st : option fl) (values : list fl) :
  0 <= a -> a <= 1 ->
  match st with Some e => within lo hi e | None => True end ->
  Forall (within lo hi) values ->
  Forall (within lo hi) (ema_loop (F a) st values).
Proof.
  intros Ha0 Ha1. revert st.
  induction values as [| v l IH]; intros st Hst Hall; cbn [ema_loop];
    [constructor |].
  inversion Hall as [| ? ? Hv Hl]; subst.
  assert (Hnew : within lo hi match st with
                              | None => v
                              | Some e => fadd (fmul (F a) v)
                                               (fmul (fsub (F 1) (F a)) e)
                              end).
  { destruct st as [[e |] |]; cbn in *; try contradiction; try assumption.
    destruct v as [vq |]; cbn in *; [| contradiction].
    destruct Hst, Hv. split; nra. }
  constructor; [exact Hnew |]. now apply IH.
Qed.

(** X11.  The exponential average never leaves the range of its inputs: for
    a window of at least 1 and values that all lie in [lo, hi], [_ema]
    returns one value per input, each in [lo, hi]. *)
Theorem ema_within_input_range (values : list fl) (window : Z) (lo hi : Q) :
  (1 <= window)%Z -> Forall (within lo hi) values ->
  exists l,
    _ema values window = Ok l /\ length l = length values
    /\ Forall (within lo hi) l.
Proof.
  intros Hw Hall. rewrite ema_ok by lia.
  destruct (alpha_range window Hw) as [Ha0 Ha1].
  eexists. split; [reflexivity |]. split; [apply ema_loop_length |].
  now apply ema_loop_within.
Qed.

Lemma ema_within_input_range_witness :
  exists l,
    _ema [F 10; F 12; F 11; F 15] 3 = Ok l /\ length l = 4%nat
    /\ Forall (within 10 15) l.
Proof.
  apply ema_within_input_range; [lia |].
  repeat constructor; vm_compute; congruence.
Defined.

(** X12.  Every RSI value that is a number lies between 0 and 100, for every
    bar series and every window of at least 1. *)
Theorem rsi_between_0_and_100 (bars : list PriceBar) (params : gmap string Q) :
  (1 <= window_param params 14)%Z ->
  exists l,
    _rsi bars params = Ok l
    /\ forall (i : nat) (q : Q), l !! i = Some (F q) -> 0 <= q /\ q <= 100.
Proof.
  intros Hw. unfold _rsi. rewrite !ema_ok by lia. cbn [rbind].
  set (w := window_param params 14) in *.
  set (alpha := 2 / inject_Z (w + 1)).
  set (closes := _get_close bars).
  set (avg_gain := ema_loop (F alpha) None
                     (F 0 :: map (fun change => F (py_max change 0)) _)).
  set (avg_loss := ema_loop (F alpha) None
                     (F 0 :: map (fun change => F (py_max (- change) 0)) _)).
  destruct (alpha_range w Hw) as [Ha0 Ha1]. fold alpha in Ha0, Ha1.
  assert (Hgain : Forall nonneg_number avg_gain).
  { apply ema_loop_nonneg; try assumption; [exact I |].
    constructor; [cbn; lra |]. apply Forall_fmap, Forall_true.
    intros c. cbn. apply py_max_ge_r. }
  assert (Hloss : Forall nonneg_number avg_loss).
  { apply ema_loop_nonneg; try assumption; [exact I |].
    constructor; [cbn; lra |]. apply Forall_fmap, Forall_true.
    intros c. cbn. apply py_max_ge_r. }
  assert (Hlg : (length closes <= length avg_gain)%nat).
  { unfold avg_gain. rewrite ema_loop_length. cbn [length].
    rewrite length_map, changes_length. lia. }
  assert (Hll : (length closes <= length avg_loss)%nat).
  { unfold avg_loss. rewrite ema_loop_length. cbn [length].
    rewrite length_map, changes_length. lia. }
  match goal with
  | |- exists l, mapM ?f _ = _ /\ _ =>
      destruct (mapM_range f
        (fun _ y => match y with F q => 0 <= q /\ q <= 100 | NaN => True end)
        (length closes)) as (l & Hl & Hlen & Hp)
  end.
  - intros i Hi. destruct (Z.of_nat i + 1 <? w)%Z;
      [exists NaN; split; [reflexivity | exact I] |].
    destruct (lookup_lt_is_Some_2 avg_loss i) as [lo Hlo]; [lia |].
    destruct (lookup_lt_is_Some_2 avg_gain i) as [ga Hga]; [lia |].
    rewrite (py_index_ok _ _ _ Hlo). cbn [rbind].
    destruct (feq0 lo) eqn:Ez.
    { exists (F 100). split; [reflexivity | split; lra]. }
    rewrite (py_index_ok _ _ _ Hga). cbn [rbind].
    rewrite Forall_lookup in Hgain, Hloss.
    specialize (Hgain _ _ Hga). specialize (Hloss _ _ Hlo).
    destruct lo as [lq |]; [| contradiction].
    destruct ga as [gq |]; [| contradiction].
    cbn [nonneg_number] in Hgain, Hloss. cbn [feq0] in Ez.
    unfold fdiv at 1. rewrite Ez. cbn [rbind fadd].
    assert (Hlq : 0 < lq).
    { destruct (Qeq_dec lq 0) as [E0 | E0]; [| lra].
      apply Qeq_bool_iff in E0. congruence. }
    assert (Hrs : 0 <= gq / lq) by now apply Risk.Qdiv_nonneg.
    unfold fdiv.
    destruct (Qeq_bool (1 + gq / lq) 0) eqn:E1.
    { apply Qeq_bool_iff in E1. lra. }
    cbn [rbind fsub]. eexists. split; [reflexivity |].
    assert (H0 : 0 <= 100 / (1 + gq / lq)) by (apply Risk.Qdiv_nonneg; lra).
    assert (H1 : 100 / (1 + gq / lq) <= 100)
      by (apply Qle_shift_div_r; lra).
    split; lra.
  - exists l. split; [exact Hl |]. intros i q Hq.
    exact (Hp i (F q) Hq).
Qed.

Lemma rsi_between_0_and_100_witness :
  exists l,
    _rsi (_bars [1; 2; 3; 2; 3; 4; 5; 6]%Z) {["window"%string := 2%Q]} = Ok l
    /\ forall (i : nat) (q : Q), l !! i = Some (F q) -> 0 <= q /\ q <= 100.
Proof.
  apply rsi_between_0_and_100. vm_compute. intros H. discriminate H.
Defined.

Lemma true_range_loop_nonneg (prev : option Q) (bars : list PriceBar) :
  Forall (fun bar => low bar <= high bar) bars ->
  Forall (fun tr => 0 <= tr) (true_range_loop prev bars).
Proof.
  revert prev. induction bars as [| bar rest IH]; intros prev Hall;
    cbn [true_range_loop]; [constructor |].
  inversion Hall as [| ? ? Hbar Hrest]; subst.
  constructor; [| now apply IH].
  destruct prev as [pc |]; [| lra].
  eapply Qle_trans; [apply Qabs_nonneg | apply py_max_ge_r].
Qed.

(** X13.  When no bar has its low above its high, every ATR value that is a
    number is non-negative (window of at least 1). *)
Theorem atr_nonneg (bars : list PriceBar) (params : gmap string Q) :
  (1 <= window_param params 14)%Z ->
  Forall (fun bar => low bar <= high bar) bars ->
  exists l,
    _atr bars params = Ok l
    /\ forall (i : nat) (q : Q), l !! i = Some (F q) -> 0 <= q.
Proof.
  intros Hw Hbars. unfold _atr. rewrite ema_ok by lia. cbn [rbind].
  eexists. split; [reflexivity |]. intros i q Hq.
  unfold mask_warmup in Hq. rewrite list_lookup_imap in Hq.
  destruct (ema_loop _ None (_true_range bars) !! i) as [v |] eqn:Hv;
    [| discriminate].
  cbn in Hq. destruct (Z.of_nat i + 1 <? _)%Z; [discriminate |].
  injection Hq as ->.
  destruct (alpha_range _ Hw) as [Ha0 Ha1].
  assert (Hnn : Forall nonneg_number
                  (ema_loop (F (2 / inject_Z (window_param params 14 + 1)))
                            None (_true_range bars))).
  { apply ema_loop_nonneg; try assumption; [exact I |].
    unfold _true_range. apply Forall_fmap.
    eapply Forall_impl; [apply (true_range_loop_nonneg None bars Hbars) |].
    intros tr Htr. exact Htr. }
  rewrite Forall_lookup in Hnn. exact (Hnn _ _ Hv).
Qed.

Lemma atr_nonneg_witness :
  exists l,
    _atr (_bars [1; 2; 3; 2; 3; 4; 5; 6]%Z) {["window"%string := 3%Q]} = Ok l
    /\ forall (i : nat) (q : Q), l !! i = Some (F q) -> 0 <= q.
Proof.
  apply atr_nonneg.
  - vm_compute. intros H. discriminate H.
  - repeat constructor; vm_compute; congruence.
Defined.

(** X14.  MACD is defined from the first bar on: when neither EMA window is
    -1, [_macd] returns one number per bar, none of them not-a-number, and
    the first one is zero, both averages being seeded with the first
    close. *)
Theorem macd_defined_from_first_bar (bars : list PriceBar)
    (params : gmap string Q) :
  (py_int (default 12%Q (params !! "fast"%string)) + 1 <> 0)%Z ->
  (py_int (default 26%Q (params !! "slow"%string)) + 1 <> 0)%Z ->
  exists l,
    _macd bars params = Ok l /\ length l = length bars
    /\ all_numbers l
    /\ forall x, l !! 0%nat = Some x -> exists q, x = F q /\ q == 0.
Proof.
  intros Hf Hs. unfold _macd. rewrite !ema_ok by assumption. cbn [rbind].
  set (fa := 2 / inject_Z (py_int (default 12%Q (params !! "fast"%string)) + 1)).
  set (sa := 2 / inject_Z (py_int (default 26%Q (params !! "slow"%string)) + 1)).
  set (closes := map F (_get_close bars)).
  assert (Hcl : all_numbers closes) by apply all_numbers_map_F.
  pose proof (ema_loop_numbers fa None closes I Hcl) as Hfast.
  pose proof (ema_loop_numbers sa None closes I Hcl) as Hslow.
  eexists. split; [reflexivity |]. split; [| split].
  - rewrite length_zip_with, !ema_loop_length. unfold closes, _get_close.
    rewrite !length_map. lia.
  - unfold all_numbers in *. rewrite Forall_lookup in *.
    intros i x Hx. apply lookup_zip_with_Some in Hx as (f & s & -> & Hfi & Hsi).
    specialize (Hfast _ _ Hfi). specialize (Hslow _ _ Hsi).
    destruct f, s; cbn in *; congruence.
  - intros x Hx. apply lookup_zip_with_Some in Hx as (f & s & -> & Hfi & Hsi).
    destruct closes as [| c rest]; [discriminate |].
    cbn in Hfi, Hsi. injection Hfi as <-. injection Hsi as <-.
    unfold all_numbers in Hcl. inversion Hcl as [| ? ? Hc _]; subst.
    destruct c as [cq |]; [| discriminate].
    exists (cq - cq). split; [reflexivity | ring].
Qed.

Lemma macd_defined_from_first_bar_witness :
  exists l,
    _macd (_bars [1; 2; 3; 2; 3; 4; 5; 6]%Z) ∅ = Ok l /\ length l = 8%nat
    /\ all_numbers l
    /\ forall x, l !! 0%nat = Some x -> exists q, x = F q /\ q == 0.
Proof.
  apply macd_defined_from_first_bar; vm_compute; congruence.
Defined.

End IndicatorProps.

(** ** The indicator registry and app/signals/pipeline.py *)

Module Pipeline.

Import Indicators.
Import IndicatorProps.

Record IndicatorConfig : Type := mkIndicator {
  name : string;
  kind : string;
  inputs : list string;
  params : gmap string Q
}.

(** [a != b] on floats: true as soon as one side is not-a-number. *)
Definition fne (a b : fl) : bool :=
  match a, b with
  | F x, F y => negb (Qeq_bool x y)
  | _, _ => true
  end.

(** [features[idx][name] = value] for [idx, value] in [enumerate(values)];
    an index past the last row raises. *)
Fixpoint assign_values (name : string) (features : list (gmap string fl))
    (values : list fl) : result (list (gmap string fl)) :=
  match values, features with
  | [], _ => Ok features
  | value :: values, row :: features =>
      let! features := assign_values name features values in
      Ok (<[name := value]> row :: features)
  | _ :: _, [] => Raise IndexError
  end.

Section WithPow.

(** The float power [x ** y], which can raise. *)
Variable float_pow : Q -> Q -> result Q.

Definition fpow (x : fl) (y : Q) : result fl :=
  match x with
  | F q => let! r := float_pow q y in Ok (F r)
  | NaN => Ok NaN
  end.

(** [_std]: the rolling population standard deviation. *)
Definition _std (values : list fl) (window : Z) : result (list fl) :=
  mapM
    (fun i : Z =>
       if (i + 1 <? window)%Z then Ok NaN
       else
         let window_slice := py_slice (i + 1 - window) (i + 1) values in
         let! mean := fdiv (fsum window_slice) (F (inject_Z window)) in
         let! variance :=
           fdiv (fsum (map (fun x => fmul (fsub x mean) (fsub x mean))
                           window_slice))
                (F (inject_Z window)) in
         fpow variance 0.5)
    (py_range (length values)).

Definition _bollinger_pct (bars : list PriceBar) (params : gmap string Q)
    : result (list fl) :=
  let window := window_param params 20 in
  let std_mult := default 2 (params !! "std"%string) in
  let closes := map F (_get_close bars) in
  let! sma := _rolling_mean closes window in
  let! std := _std closes window in
  mapM
    (fun i : Z =>
       if (i + 1 <? window)%Z then Ok NaN
       else
         let! s := py_index sma i in
         let! d := py_index std i in
         let upper := fadd s (fmul (F std_mult) d) in
         let! s := py_index sma i in
         let! d := py_index std i in
         let lower := fsub s (fmul (F std_mult) d) in
         if fne upper lower then
           let! c := py_index closes i in
           fdiv (fsub c lower) (fsub upper lower)
         else Ok NaN)
    (py_range (length closes)).

Definition IndicatorFunc : Type :=
  list PriceBar -> gmap string Q -> result (list fl).

Definition INDICATOR_REGISTRY : gmap string IndicatorFunc :=
  <["sma"%string := _sma]>
  (<["ema"%string := _ema_indicator]>
  (<["rsi"%string := _rsi]>
  (<["atr"%string := _atr]>
  (<["roc"%string := _roc]>
  (<["macd"%string := _macd]>
  (<["bollinger_pct"%string := _bollinger_pct]>
  (<["adx"%string := _adx]> ∅))))))).

Definition unknown_kind (kind : string) : exn :=
  KeyError ("Unknown indicator kind: " ++ kind).

Definition compute_indicator (kind : string) (bars : list PriceBar)
    (params : gmap string Q) : result (list fl) :=
  match INDICATOR_REGISTRY !! kind with
  | Some func => func bars params
  | None => Raise (unknown_kind kind)
  end.

(** The loop of [compute_indicator_frame] over the indicator
    configurations. *)
Fixpoint frame_loop (bars : list PriceBar) (configs : list IndicatorConfig)
    (features : list (gmap string fl)) : result (list (gmap string fl)) :=
  match configs with
  | [] => Ok features
  | indicator :: configs =>
      let! values := compute_indicator (kind indicator) bars (params indicator) in
      let! features := assign_values (name indicator) features values in
      frame_loop bars configs features
  end.

Definition compute_indicator_frame (bars : list PriceBar)
    (indicator_configs : list IndicatorConfig)
    : result (list (gmap string fl)) :=
  frame_loop bars indicator_configs (replicate (length bars) ∅).

(** *** One value per bar *)

Lemma mapM_length {A B : Type} (f : A -> result B) (l : list A) (l' : list B) :
  mapM f l = Ok l' -> length l' = length l.
Proof.
  revert l'. induction l as [| a l IH]; intros l' H; cbn [mapM] in H.
  - now injection H as <-.
  - destruct (f a); [| discriminate]. cbn [rbind] in H.
    destruct (mapM f l) as [ys |]; [| discriminate]. cbn [rbind] in H.
    injection H as <-. cbn [length]. now rewrite (IH ys).
Qed.

Lemma range_series_length (f : Z -> result fl) (n : nat) (l : list fl) :
  mapM f (py_range n) = Ok l -> length l = n.
Proof.
  intros H. apply mapM_length in H. now rewrite py_range_length in H.
Qed.

Lemma ema_length (values l : list fl) (window : Z) :
  _ema values window = Ok l -> length l = length values.
Proof.
  unfold _ema. destruct (fdiv _ _) as [alpha |]; [| discriminate].
  cbn [rbind]. intros [= <-]. apply ema_loop_length.
Qed.

Lemma closes_length (bars : list PriceBar) :
  length (map F (_get_close bars)) = length bars.
Proof. unfold _get_close. now rewrite !length_map. Qed.

Lemma sma_length (bars : list PriceBar) (params : gmap string Q) (l : list fl) :
  _sma bars params = Ok l -> length l = length bars.
Proof.
  unfold _sma, _rolling_mean. intros H. apply range_series_length in H.
  now rewrite closes_length in H.
Qed.

Lemma ema_indicator_length (bars : list PriceBar) (params : gmap string Q)
    (l : list fl) :
  _ema_indicator bars params = Ok l -> length l = length bars.
Proof.
  unfold _ema_indicator. destruct (_ema _ _) as [e |] eqn:He; [| discriminate].
  cbn [rbind]. intros [= <-]. rewrite mask_warmup_length.
  apply ema_length in He. now rewrite closes_length in He.
Qed.

Lemma rsi_length (bars : list PriceBar) (params : gmap string Q) (l : list fl) :
  _rsi bars params = Ok l -> length l = length bars.
Proof.
  unfold _rsi. destruct (_ema _ _); [| discriminate]. cbn [rbind].
  destruct (_ema _ _); [| discriminate]. cbn [rbind].
  intros H. apply range_series_length in H. unfold _get_close in H.
  now rewrite length_map in H.
Qed.

Lemma atr_length (bars : list PriceBar) (params : gmap string Q) (l : list fl) :
  _atr bars params = Ok l -> length l = length bars.
Proof.
  unfold _atr. destruct (_ema _ _) as [e |] eqn:He; [| discriminate].
  cbn [rbind]. intros [= <-]. rewrite mask_warmup_length.
  apply ema_length in He. now rewrite true_range_length in He.
Qed.

Lemma roc_length (bars : list PriceBar) (params : gmap string Q) (l : list fl) :
  _roc bars params = Ok l -> length l = length bars.
Proof.
  unfold _roc. intros H. apply mapM_length in H.
  rewrite length_zip_with, py_range_length, Nat.min_id in H.
  unfold _get_close in H. now rewrite length_map in H.
Qed.

Lemma macd_length (bars : list PriceBar) (params : gmap string Q) (l : list fl) :
  _macd bars params = Ok l -> length l = length bars.
Proof.
  unfold _macd.
  destruct (_ema _ (py_int (default 12 _))) as [f |] eqn:Hf; [| discriminate].
  cbn [rbind].
  destruct (_ema _ (py_int (default 26 _))) as [s |] eqn:Hs; [| discriminate].
  cbn [rbind]. intros [= <-]. rewrite length_zip_with.
  apply ema_length in Hf, Hs. rewrite closes_length in Hf, Hs. lia.
Qed.

Lemma bollinger_length (bars : list PriceBar) (params : gmap string Q)
    (l : list fl) :
  _bollinger_pct bars params = Ok l -> length l = length bars.
Proof.
  unfold _bollinger_pct. destruct (_rolling_mean _ _); [| discriminate].
  cbn [rbind]. destruct (_std _ _); [| discriminate]. cbn [rbind].
  intros H. apply range_series_length in H. now rewrite closes_length in H.
Qed.

Lemma adx_length (bars : list PriceBar) (params : gmap string Q) (l : list fl) :
  _adx bars params = Ok l -> length l = length bars.
Proof.
  unfold _adx. destruct (_ema _ _); [| discriminate]. cbn [rbind].
  destruct (_ema _ _); [| discriminate]. cbn [rbind].
  destruct (mapM _ _) as [adx_values |] eqn:Hadx; [| discriminate].
  cbn [rbind]. intros H. apply ema_length in H.
  apply range_series_length in Hadx. congruence.
Qed.

(** The eight kinds of the registry. *)
Lemma registry_cases (kind : string) (func : IndicatorFunc) :
  INDICATOR_REGISTRY !! kind = Some func ->
  func = _sma \/ func = _ema_indicator \/ func = _rsi \/ func = _atr
  \/ func = _roc \/ func = _macd \/ func = _bollinger_pct \/ func = _adx.
Proof.
  unfold INDICATOR_REGISTRY. intros H.
  repeat (apply lookup_insert_Some in H as [[_ <-] | [_ H]]; [tauto |]).
  now rewrite lookup_empty in H.
Qed.

Lemma registry_keys (kind : string) :
  INDICATOR_REGISTRY !! kind = None
  <-> kind ∉ ["sma"; "ema"; "rsi"; "atr"; "roc"; "macd"; "bollinger_pct";
              "adx"]%string.
Proof.
  unfold INDICATOR_REGISTRY. rewrite !lookup_insert_None, lookup_empty.
  rewrite !not_elem_of_cons. split.
  - intros H. repeat split; try tauto; try (intros ->; tauto).
    apply not_elem_of_nil.
  - intros H. repeat split; try tauto; intros <-; tauto.
Qed.

Lemma compute_indicator_length (kind : string) (bars : list PriceBar)
    (params : gmap string Q) (l : list fl) :
  compute_indicator kind bars params = Ok l -> length l = length bars.
Proof.
  unfold compute_indicator.
  destruct (INDICATOR_REGISTRY !! kind) as [func |] eqn:Hk; [| discriminate].
  destruct (registry_cases kind func Hk)
    as [-> | [-> | [-> | [-> | [-> | [-> | [-> | ->]]]]]]].
  - apply sma_length.
  - apply ema_indicator_length.
  - apply rsi_length.
  - apply atr_length.
  - apply roc_length.
  - apply macd_length.
  - apply bollinger_length.
  - apply adx_length.
Qed.

(** X15.  Whatever the kind and the parameters, an indicator series that is
    returned has exactly one value per bar; and a kind outside the registry
    is answered with the unknown-indicator [KeyError]. *)
Theorem compute_indicator_aligned (kind : string) (bars : list PriceBar)
    (params : gmap string Q) :
  (forall l, compute_indicator kind bars params = Ok l ->
             length l = length bars)
  /\ (kind ∉ ["sma"; "ema"; "rsi"; "atr"; "roc"; "macd"; "bollinger_pct";
              "adx"]%string ->
      compute_indicator kind bars params = Raise (unknown_kind kind)).
Proof.
  split.
  - intros l. apply compute_indicator_length.
  - intros Hk. apply registry_keys in Hk. unfold compute_indicator.
    unfold IndicatorFunc in *. now rewrite Hk.
Qed.

(** X26.  The registry's [adx] indicator never gives a number: the first
    directional index is not-a-number and seeds the final smoothing, so for
    every bar series the whole series is not-a-number. *)
Theorem adx_is_never_a_number (bars : list PriceBar) (params : gmap string Q) :
  (window_param params 14 + 1 <> 0)%Z ->
  exists l,
    compute_indicator "adx" bars params = Ok l /\ length l = length bars
    /\ Forall (fun x => x = NaN) l.
Proof.
  intros Hw. unfold compute_indicator.
  assert (Hk : INDICATOR_REGISTRY !! "adx"%string = Some _adx) by reflexivity.
  unfold IndicatorFunc in *. rewrite Hk.
  destruct (adx_all_nan bars params Hw) as (l & Hl & Hlen & Hnan).
  exists l. split; [exact Hl |]. split; [exact Hlen |].
  apply Forall_lookup. exact Hnan.
Qed.

(** *** The feature frame *)

Lemma assign_values_ok (n : string) (values : list fl) :
  forall features : list (gmap string fl),
  length values = length features ->
  assign_values n features values
  = Ok (zip_with (fun row v => <[n := v]> row) features values).
Proof.
  induction values as [| v values IH]; intros [| row features] Hlen;
    cbn [length] in Hlen; try discriminate; [reflexivity |].
  cbn [assign_values zip_with]. rewrite IH by lia. reflexivity.
Qed.

(** What the loop over the configurations does to the rows it starts
    from. *)
Lemma frame_loop_rows (bars : list PriceBar) (configs : list IndicatorConfig) :
  forall features frame : list (gmap string fl),
  length features = length bars ->
  frame_loop bars configs features = Ok frame ->
  length frame = length bars
  /\ forall (i : nat) (row0 row : gmap string fl),
       features !! i = Some row0 -> frame !! i = Some row ->
       dom row = dom row0 ∪ list_to_set (name <$> configs)
       /\ forall k, k ∉ (name <$> configs) -> row !! k = row0 !! k.
Proof.
  induction configs as [| c rest IH]; intros features frame Hlen H.
  - cbn in H. injection H as <-. split; [exact Hlen |].
    intros i row0 row H0 H1. assert (row = row0) by congruence. subst.
    split; [cbn; set_solver | reflexivity].
  - cbn [frame_loop] in H.
    destruct (compute_indicator _ _ _) as [values |] eqn:Hv; [| discriminate].
    cbn [rbind] in H. apply compute_indicator_length in Hv.
    rewrite assign_values_ok in H by congruence. cbn [rbind] in H.
    apply IH in H; [| rewrite length_zip_with; lia].
    destruct H as [Hflen Hrows]. split; [exact Hflen |].
    intros i row0 row H0 H1.
    destruct (lookup_lt_is_Some_2 values i) as [v Hvi].
    { rewrite Hv, <- Hlen. eapply lookup_lt_Some; eauto. }
    assert (Hz : zip_with (fun row v => <[name c := v]> row) features values
                 !! i = Some (<[name c := v]> row0)).
    { apply lookup_zip_with_Some. eauto. }
    destruct (Hrows i _ row Hz H1) as [Hdom Hkeep]. split.
    + rewrite Hdom, dom_insert_L. cbn [fmap list_fmap list_to_set].
      set_solver.
    + intros k Hk. cbn [fmap list_fmap] in Hk.
      apply not_elem_of_cons in Hk as [Hne Hk].
      rewrite (Hkeep k Hk). now apply lookup_insert_ne.
Qed.

Lemma frame_loop_values (bars : list PriceBar) (configs : list IndicatorConfig) :
  forall features frame : list (gmap string fl),
  length features = length bars ->
  frame_loop bars configs features = Ok frame ->
  NoDup (name <$> configs) ->
  forall (c : IndicatorConfig) (values : list fl) (i : nat) (v : fl),
    c ∈ configs ->
    compute_indicator (kind c) bars (params c) = Ok values ->
    values !! i = Some v ->
    exists row, frame !! i = Some row /\ row !! name c = Some v.
Proof.
  induction configs as [| c0 rest IH];
    intros features frame Hlen H Hnd c values i v Hc Hvals Hvi.
  - now apply elem_of_nil in Hc.
  - cbn [frame_loop] in H.
    destruct (compute_indicator (kind c0) bars (params c0)) as [values0 |]
      eqn:Hv0; [| discriminate].
    cbn [rbind] in H.
    pose proof (compute_indicator_length _ _ _ _ Hv0) as Hl0.
    rewrite assign_values_ok in H by congruence. cbn [rbind] in H.
    cbn [fmap list_fmap] in Hnd. apply NoDup_cons in Hnd as [Hfresh Hnd].
    assert (Hlen' : length (zip_with (fun row v => <[name c0 := v]> row)
                              features values0) = length bars)
      by (rewrite length_zip_with; lia).
    apply elem_of_cons in Hc as [-> | Hc].
    + assert (values = values0) by congruence. subst values.
      destruct (lookup_lt_is_Some_2 features i) as [row0 Hrow0].
      { rewrite Hlen, <- Hl0. eapply lookup_lt_Some; eauto. }
      destruct (frame_loop_rows bars rest _ frame Hlen' H) as [Hflen Hrows].
      destruct (lookup_lt_is_Some_2 frame i) as [row Hrow].
      { rewrite Hflen, <- Hl0. eapply lookup_lt_Some; eauto. }
      exists row. split; [exact Hrow |].
      assert (Hz : zip_with (fun row v => <[name c0 := v]> row) features values0
                   !! i = Some (<[name c0 := v]> row0)).
      { apply lookup_zip_with_Some. eauto. }
      destruct (Hrows i _ row Hz Hrow) as [_ Hkeep].
      rewrite (Hkeep _ Hfresh). apply lookup_insert_eq.
    + eapply IH; eauto.
Qed.

(** X16.  When [compute_indicator_frame] returns, the frame has one row per
    bar, the keys of every row are exactly the configured indicator names,
    and, the names being distinct, row [i] holds under each name the value
    of that indicator's series at index [i]. *)
Theorem compute_indicator_frame_rows (bars : list PriceBar)
    (configs : list IndicatorConfig) (frame : list (gmap string fl)) :
  compute_indicator_frame bars configs = Ok frame ->
  length frame = length bars
  /\ (forall (i : nat) (row : gmap string fl), frame !! i = Some row ->
        dom row = list_to_set (name <$> configs))
  /\ (NoDup (name <$> configs) ->
      forall (c : IndicatorConfig) (values : list fl) (i : nat) (v : fl),
        c ∈ configs ->
        compute_indicator (kind c) bars (params c) = Ok values ->
        values !! i = Some v ->
        exists row, frame !! i = Some row /\ row !! name c = Some v).
Proof.
  unfold compute_indicator_frame. intros H.
  assert (Hlen : length (replicate (length bars) (∅ : gmap string fl))
                 = length bars) by apply length_replicate.
  destruct (frame_loop_rows bars configs _ frame Hlen H) as [Hflen Hrows].
  split; [exact Hflen |]. split.
  - intros i row Hrow.
    assert (H0 : replicate (length bars) (∅ : gmap string fl) !! i = Some ∅).
    { apply lookup_replicate_2. rewrite <- Hflen.
      eapply lookup_lt_Some; eauto. }
    destruct (Hrows i ∅ row H0 Hrow) as [Hdom _].
    rewrite Hdom, dom_empty_L. set_solver.
  - intros Hnd. now apply (frame_loop_values bars configs _ frame Hlen H Hnd).
Qed.

(** *** Bollinger %B *)


Section TotalRoot.

(** The square root of a non-negative number is returned. *)
Hypothesis root_returns :
  forall v, 0 <= v -> exists r, float_pow v 0.5 = Ok r.



End TotalRoot.

End WithPow.

(** A power that is not used by the indicators of the examples. *)
Definition unused_pow : Q -> Q -> result Q := fun _ _ => Raise OverflowError.

Lemma compute_indicator_aligned_witness :
  (forall l, compute_indicator unused_pow "sma" (_bars [1; 2; 3; 4; 5; 6]%Z)
               {["window"%string := 3%Q]} = Ok l -> length l = 6%nat)
  /\ compute_indicator unused_pow "vwap" [] ∅ = Raise (unknown_kind "vwap").
Proof.
  split.
  - apply (proj1 (compute_indicator_aligned unused_pow "sma"
                    (_bars [1; 2; 3; 4; 5; 6]%Z) {["window"%string := 3%Q]})).
  - apply (proj2 (compute_indicator_aligned unused_pow "vwap" [] ∅)).
    repeat (apply not_elem_of_cons; split; [discriminate |]).
    apply not_elem_of_nil.
Defined.

Lemma adx_is_never_a_number_witness :
  exists l,
    compute_indicator unused_pow "adx" (_bars [1; 2; 3; 2; 3; 4; 5; 6]%Z)
      {["window"%string := 2%Q]} = Ok l
    /\ length l = 8%nat
    /\ Forall (fun x => x = NaN) l.
Proof.
  apply (adx_is_never_a_number unused_pow). vm_compute. congruence.
Defined.

Definition two_indicators : list IndicatorConfig :=
  [mkIndicator "sma3" "sma" ["close"%string] {["window"%string := 3%Q]};
   mkIndicator "rsi2" "rsi" ["close"%string] {["window"%string := 2%Q]}].

Lemma compute_indicator_frame_rows_witness :
  exists frame,
    compute_indicator_frame unused_pow (_bars [1; 2; 3; 4]%Z) two_indicators
    = Ok frame
    /\ length frame = 4%nat
    /\ forall (i : nat) (row : gmap string fl), frame !! i = Some row ->
         dom row = list_to_set (name <$> two_indicators).
Proof.
  assert (H : exists frame,
    compute_indicator_frame unused_pow (_bars [1; 2; 3; 4]%Z) two_indicators
    = Ok frame) by (eexists; vm_compute; reflexivity).
  destruct H as [frame H]. exists frame. split; [exact H |].
  destruct (compute_indicator_frame_rows unused_pow _ _ _ H) as (Hl & Hd & _).
  split; [exact Hl | exact Hd].
Defined.



End Pipeline.

(** ** app/signals/rules.py *)

Module RuleProps.

Import Indicators.
Import Rules.

(** Induction over syntax trees, with the property carried over the lists
    of children. *)
Section ExprInduction.

Variable P : expr -> Prop.
Hypothesis P_Name : forall id, P (Name id).
Hypothesis P_Constant : forall v, P (Constant v).
Hypothesis P_BoolOp : forall op values, Forall P values -> P (BoolOp op values).
Hypothesis P_UnaryOp : forall op operand, P operand -> P (UnaryOp op operand).
Hypothesis P_BinOp : forall l op r, P l -> P r -> P (BinOp l op r).
Hypothesis P_Compare :
  forall l ops comparators, P l -> Forall P comparators ->
                            P (Compare l ops comparators).
Hypothesis P_Call :
  forall func args keywords,
    P func -> Forall P args -> Forall (fun kw => P (snd kw)) keywords ->
    P (Call func args keywords).
Hypothesis P_Other : forall kind children, Forall P children ->
                                          P (Other kind children).

Fixpoint expr_induction (e : expr) : P e :=
  let all :=
    fix all (l : list expr) : Forall P l :=
      match l with
      | [] => List.Forall_nil P
      | x :: rest => @List.Forall_cons _ P x rest (expr_induction x) (all rest)
      end in
  match e with
  | Name id => P_Name id
  | Constant v => P_Constant v
  | BoolOp op values => P_BoolOp op values (all values)
  | UnaryOp op operand => P_UnaryOp op operand (expr_induction operand)
  | BinOp l op r => P_BinOp l op r (expr_induction l) (expr_induction r)
  | Compare l ops comparators =>
      P_Compare l ops comparators (expr_induction l) (all comparators)
  | Call func args keywords =>
      P_Call func args keywords (expr_induction func) (all args)
        ((fix kws (l : list (string * expr))
            : Forall (fun kw => P (snd kw)) l :=
            match l with
            | [] => List.Forall_nil _
            | kw :: rest =>
                @List.Forall_cons _ _ kw rest (expr_induction (snd kw))
                  (kws rest)
            end) keywords)
  | Other kind children => P_Other kind children (all children)
  end.

End ExprInduction.

(** The identifiers that an evaluation can look up: every [Name] node,
    except the function name of a call, which is matched against the
    allow-list instead. *)
Fixpoint names (e : expr) : list string :=
  match e with
  | Name id => [id]
  | Constant _ => []
  | BoolOp _ values => concat (map names values)
  | UnaryOp _ operand => names operand
  | BinOp l _ r => names l ++ names r
  | Compare l _ comparators => names l ++ concat (map names comparators)
  | Call _ args keywords =>
      concat (map names args)
      ++ concat (map (fun kw : string * expr => names (snd kw)) keywords)
  | Other _ children => concat (map names children)
  end.

Lemma mapM_ext_Forall {A B : Type} (f g : A -> result B) (l : list A) :
  Forall (fun x => f x = g x) l -> mapM f l = mapM g l.
Proof.
  induction 1 as [| x l Hx _ IH]; cbn [mapM]; [reflexivity |].
  now rewrite Hx, IH.
Qed.

Lemma elem_of_concat_map {A : Type} (f : A -> list string) (l : list A)
    (a : A) (x : string) :
  a ∈ l -> x ∈ f a -> x ∈ concat (map f l).
Proof.
  intros Ha Hx. induction Ha as [a l | a b l _ IH]; cbn [map concat];
    apply elem_of_app; [left; exact Hx | right; exact (IH Hx)].
Qed.

Section Frame.

Context `{PyRuntime}.

(** X18.  A rule sees only the identifiers it mentions: two contexts that
    agree on the names of an expression give the same result, value or
    error. *)
Theorem visit_depends_on_names (c1 c2 : gmap string value) (e : expr) :
  (forall x, x ∈ names e -> c1 !! x = c2 !! x) ->
  visit c1 e = visit c2 e.
Proof.
  induction e as [id | v | op values IH | op operand IH | l op r IHl IHr
                 | l ops comparators IHl IHc | func args keywords _ IHa IHk
                 | kind children IH] using expr_induction; intros Hagree.
  - cbn [visit]. rewrite (Hagree id) by (cbn; set_solver). reflexivity.
  - reflexivity.
  - cbn [visit]. rewrite (mapM_ext_Forall (visit c1) (visit c2) values);
      [reflexivity |].
    rewrite Forall_forall in IH |- *. intros e He. apply IH; [exact He |].
    intros x Hx. apply Hagree. cbn [names].
    eapply elem_of_concat_map; eauto.
  - cbn [visit]. rewrite IH by exact Hagree. reflexivity.
  - cbn [visit]. rewrite IHl, IHr; [reflexivity | |];
      intros x Hx; apply Hagree; cbn [names]; set_solver.
  - cbn [visit]. rewrite IHl by (intros x Hx; apply Hagree; cbn; set_solver).
    destruct (visit c2 l) as [lv |]; [| reflexivity]. cbn [rbind].
    assert (Hc : forall x, x ∈ concat (map names comparators) ->
                           c1 !! x = c2 !! x)
      by (intros x Hx; apply Hagree; cbn [names]; set_solver).
    clear Hagree IHl. generalize true. revert lv ops.
    induction IHc as [| c cs Hc1 _ IHcs]; intros lv ops res.
    + destruct ops; reflexivity.
    + destruct ops as [| o ops]; [reflexivity |].
      rewrite Hc1 by (intros x Hx; apply Hc; cbn; set_solver).
      destruct (visit c2 c) as [rv |]; [| reflexivity]. cbn [rbind].
      destruct (compare_step o res lv rv) as [res' |]; [| reflexivity].
      cbn [rbind]. apply IHcs. intros x Hx. apply Hc. cbn. set_solver.
  - cbn [visit]. destruct func; try reflexivity.
    destruct (bool_decide _); [| reflexivity].
    rewrite (mapM_ext_Forall (visit c1) (visit c2) args).
    + destruct (mapM (visit c2) args); [| reflexivity]. cbn [rbind].
      rewrite (mapM_ext_Forall
                 (fun kw : string * expr =>
                    let (arg, v) := kw in let! v := visit c1 v in Ok (arg, v))
                 (fun kw : string * expr =>
                    let (arg, v) := kw in let! v := visit c2 v in Ok (arg, v))
                 keywords); [reflexivity |].
      rewrite Forall_forall in IHk |- *. intros [arg v] Hkw.
      pose proof (IHk (arg, v) Hkw) as Hv. cbn [snd] in Hv.
      rewrite Hv; [reflexivity |].
      intros x Hx. apply Hagree. cbn [names]. apply elem_of_app. right.
      eapply (elem_of_concat_map (fun kw : string * expr => names (snd kw)));
        eauto.
    + rewrite Forall_forall in IHa |- *. intros e He. apply IHa; [exact He |].
      intros x Hx. apply Hagree. cbn [names]. apply elem_of_app. left.
      eapply elem_of_concat_map; eauto.
  - cbn [visit]. rewrite (mapM_ext_Forall (visit c1) (visit c2) children);
      [reflexivity |].
    rewrite Forall_forall in IH |- *. intros e He. apply IH; [exact He |].
    intros x Hx. apply Hagree. cbn [names].
    eapply elem_of_concat_map; eauto.
Qed.

End Frame.

Lemma visit_depends_on_names_witness :
  @visit PyLib.py_runtime
    {[ "close"%string := PyLib.num 10; "sma"%string := PyLib.num 12 ]}
    (Compare (Name "close") [Lt] [Name "sma"])
  = @visit PyLib.py_runtime
      {[ "close"%string := PyLib.num 10; "sma"%string := PyLib.num 12;
         "rsi"%string := PyLib.num 50 ]}
      (Compare (Name "close") [Lt] [Name "sma"]).
Proof.
  apply visit_depends_on_names. intros x Hx. cbn in Hx.
  repeat (apply elem_of_cons in Hx as [-> | Hx]; [vm_compute; reflexivity |]).
  inversion Hx.
Defined.

(** *** The [between] rewriting *)

Lemma take_drop_while {A : Type} (p : A -> bool) (l : list A) :
  take_while p l ++ drop_while p l = l.
Proof.
  induction l as [| x l IH]; cbn; [reflexivity |].
  destruct (p x); cbn; [now rewrite IH | reflexivity].
Qed.

Lemma some_of_app (p : ascii -> bool) (l run rest : list ascii) :
  some_of p l = Some (run, rest) -> l = run ++ rest.
Proof.
  unfold some_of. intros Hs. pose proof (take_drop_while p l) as E.
  destruct (take_while p l); [discriminate |].
  injection Hs as <- <-. now symmetry.
Qed.

Lemma strip_literal_app (lit l rest : list ascii) :
  strip_literal lit l = Some rest -> l = lit ++ rest.
Proof.
  revert l. induction lit as [| a lit IH]; intros l Hs; cbn in Hs.
  - now injection Hs as <-.
  - destruct l as [| b l]; [discriminate |].
    destruct (Ascii.eqb a b) eqn:E; [| discriminate].
    apply Ascii.eqb_eq in E as <-. cbn. now rewrite (IH l Hs).
Qed.

Lemma strip_literal_prefix (lit rest : list ascii) :
  strip_literal lit (lit ++ rest) = Some rest.
Proof.
  induction lit as [| a lit IH]; cbn; [reflexivity |].
  now rewrite Ascii.eqb_refl.
Qed.

(** [lit in l] on character lists. *)
Fixpoint contains (lit l : list ascii) : bool :=
  match strip_literal lit l with
  | Some _ => true
  | None =>
      match l with
      | [] => false
      | _ :: rest => contains lit rest
      end
  end.

(** [word in text] *)
Definition mentions (word text : string) : bool :=
  contains (list_ascii_of_string word) (list_ascii_of_string text).

Lemma contains_app (lit a b : list ascii) : contains lit (a ++ lit ++ b) = true.
Proof.
  induction a as [| x a IH].
  - cbn [app]. destruct (lit ++ b) eqn:E; cbn [contains];
      rewrite <- E, strip_literal_prefix; reflexivity.
  - cbn [app contains]. destruct (strip_literal lit _); [reflexivity | exact IH].
Qed.

Lemma contains_tail (lit : list ascii) (c : ascii) (l : list ascii) :
  contains lit (c :: l) = false -> contains lit l = false.
Proof. cbn [contains]. destruct (strip_literal lit (c :: l)); congruence. Qed.

Lemma match_between_contains (l : list ascii) :
  contains (list_ascii_of_string "between") l = false ->
  match_between l = None.
Proof.
  intros Hc. destruct (match_between l) as [m |] eqn:Hm; [| reflexivity].
  exfalso. unfold match_between in Hm. destruct l as [| c r]; [discriminate |].
  destruct (is_ident_start c); [| discriminate].
  pose proof (take_drop_while is_ident_char (c :: r)) as E0.
  destruct (some_of is_space (drop_while is_ident_char (c :: r)))
    as [[ws l1] |] eqn:E1; [| discriminate].
  apply some_of_app in E1. cbn [mbind option_bind] in Hm.
  destruct (strip_literal (list_ascii_of_string "between") l1)
    as [l2 |] eqn:E2; [| discriminate].
  apply strip_literal_app in E2.
  rewrite <- E0, E1, E2, app_assoc, contains_app in Hc. discriminate.
Qed.

Lemma sub_between_unchanged (fuel : nat) (l : list ascii) :
  contains (list_ascii_of_string "between") l = false ->
  sub_between fuel l = l.
Proof.
  revert l. induction fuel as [| fuel IH]; intros l Hc; [reflexivity |].
  destruct l as [| c rest]; [reflexivity |]. cbn [sub_between].
  rewrite (match_between_contains _ Hc).
  now rewrite (IH rest (contains_tail _ _ _ Hc)).
Qed.

(** X19.  A rule text in which the word [between] does not occur is handed
    to the parser as it is. *)
Theorem preprocess_without_between (expression : string) :
  mentions "between" expression = false ->
  _preprocess_expression expression = expression.
Proof.
  intros Hm. unfold _preprocess_expression.
  rewrite sub_between_unchanged by exact Hm.
  apply string_of_list_ascii_of_string.
Qed.

Lemma preprocess_without_between_witness :
  _preprocess_expression "close > sma_50 and rsi < 70" 
  = "close > sma_50 and rsi < 70"%string.
Proof. apply preprocess_without_between. vm_compute. reflexivity. Defined.

(** [str.isidentifier] on the ASCII range. *)
Definition identifier (s : string) : bool :=
  match list_ascii_of_string s with
  | c :: rest => is_ident_start c && forallb is_ident_char rest
  | [] => false
  end.

(** A non-empty text without whitespace. *)
Definition solid (s : string) : bool :=
  match list_ascii_of_string s with
  | [] => false
  | l => forallb (fun c => negb (is_space c)) l
  end.

Lemma list_ascii_of_string_app (a b : string) :
  list_ascii_of_string (a ++ b)
  = (list_ascii_of_string a ++ list_ascii_of_string b)%list.
Proof. induction a as [| c a IH]; simpl; [reflexivity | now rewrite IH]. Qed.

Lemma string_of_list_ascii_app (a b : list ascii) :
  string_of_list_ascii (a ++ b)
  = (string_of_list_ascii a ++ string_of_list_ascii b)%string.
Proof. induction a as [| c a IH]; simpl; [reflexivity | now rewrite IH]. Qed.

Lemma while_app {A : Type} (p : A -> bool) (a b : list A) :
  forallb p a = true ->
  match b with [] => True | x :: _ => p x = false end ->
  take_while p (a ++ b) = a /\ drop_while p (a ++ b) = b.
Proof.
  intros Ha Hb. induction a as [| x a IH]; cbn [app].
  - destruct b as [| y b]; cbn; [easy | now rewrite Hb].
  - cbn [forallb] in Ha. apply andb_true_iff in Ha as [Hx Ha].
    cbn [take_while drop_while]. rewrite Hx.
    destruct (IH Ha) as [-> ->]. easy.
Qed.

Lemma some_of_run (p : ascii -> bool) (a b : list ascii) :
  a <> [] -> forallb p a = true ->
  match b with [] => True | x :: _ => p x = false end ->
  some_of p (a ++ b) = Some (a, b).
Proof.
  intros Hne Ha Hb. unfold some_of.
  destruct (while_app p a b Ha Hb) as [-> ->].
  destruct a; [congruence | reflexivity].
Qed.

Lemma sub_between_nil (fuel : nat) : sub_between fuel [] = [].
Proof. destruct fuel; reflexivity. Qed.

Lemma is_ident_start_char (c : ascii) :
  is_ident_start c = true -> is_ident_char c = true.
Proof. unfold is_ident_char. now intros ->. Qed.

Lemma between_rewrite_list (c : ascii) (lhs low high : list ascii) :
  is_ident_start c = true -> forallb is_ident_char lhs = true ->
  low <> [] -> forallb (fun c => negb (is_space c)) low = true ->
  high <> [] -> forallb (fun c => negb (is_space c)) high = true ->
  match_between
    ((c :: lhs) ++ list_ascii_of_string " between " ++ low
     ++ list_ascii_of_string " and " ++ high)
  = Some (c :: lhs, low, high, []).
Proof.
  intros Hc Hlhs Hlow1 Hlow Hhigh1 Hhigh. unfold match_between.
  cbn [app]. rewrite Hc.
  change (c :: (lhs ++ ?r)%list) with ((c :: lhs) ++ r).
  destruct (while_app is_ident_char (c :: lhs)
              (list_ascii_of_string " between " ++ low
               ++ list_ascii_of_string " and " ++ high)) as [-> ->].
  { cbn [forallb]. now rewrite (is_ident_start_char c Hc). }
  { reflexivity. }
  change (list_ascii_of_string " between " ++ ?r)
    with ([" "%char] ++ list_ascii_of_string "between"
          ++ [" "%char] ++ r).
  rewrite (some_of_run is_space [" "%char]) by (try reflexivity; congruence).
  cbn [mbind option_bind]. rewrite strip_literal_prefix.
  cbn [mbind option_bind].
  rewrite (some_of_run is_space [" "%char]).
  2: congruence. 2: reflexivity.
  2: { destruct low as [| x low]; [congruence |]. cbn [app].
       cbn [forallb] in Hlow. apply andb_true_iff in Hlow as [Hx _].
       now apply negb_true_iff in Hx. }
  cbn [mbind option_bind].
  rewrite (some_of_run _ low) by (try reflexivity; assumption).
  cbn [mbind option_bind].
  change (list_ascii_of_string " and " ++ high)
    with ([" "%char] ++ list_ascii_of_string "and" ++ [" "%char] ++ high).
  rewrite (some_of_run is_space [" "%char]) by (try reflexivity; congruence).
  cbn [mbind option_bind]. rewrite strip_literal_prefix.
  cbn [mbind option_bind].
  rewrite (some_of_run is_space [" "%char]).
  2: congruence. 2: reflexivity.
  2: { destruct high as [| x high]; [congruence |]. cbn [app].
       cbn [forallb] in Hhigh. apply andb_true_iff in Hhigh as [Hx _].
       now apply negb_true_iff in Hx. }
  cbn [mbind option_bind].
  rewrite <- (app_nil_r high) at 1.
  rewrite (some_of_run _ high) by (try reflexivity; assumption).
  reflexivity.
Qed.

(** X20.  A single [between] test on an identifier is rewritten into the
    conjunction of its two bounds, both of them inclusive. *)
Theorem between_is_rewritten (lhs low high : string) :
  identifier lhs = true -> solid low = true -> solid high = true ->
  _preprocess_expression (lhs ++ " between " ++ low ++ " and " ++ high)
  = ("((" ++ lhs ++ " >= " ++ low ++ ") and (" ++ lhs ++ " <= " ++ high
     ++ "))")%string.
Proof.
  unfold identifier, solid, _preprocess_expression.
  intros Hlhs Hlow Hhigh.
  rewrite !list_ascii_of_string_app.
  destruct (list_ascii_of_string lhs) as [| c l] eqn:El; [discriminate |].
  apply andb_true_iff in Hlhs as [Hc Hl].
  assert (Hlow1 : list_ascii_of_string low <> [])
    by (destruct (list_ascii_of_string low); congruence).
  assert (Hhigh1 : list_ascii_of_string high <> [])
    by (destruct (list_ascii_of_string high); congruence).
  assert (Hlow2 : forallb (fun c => negb (is_space c))
                    (list_ascii_of_string low) = true)
    by (destruct (list_ascii_of_string low); [reflexivity | exact Hlow]).
  assert (Hhigh2 : forallb (fun c => negb (is_space c))
                     (list_ascii_of_string high) = true)
    by (destruct (list_ascii_of_string high); [reflexivity | exact Hhigh]).
  cbn [app length sub_between].
  change (c :: (l ++ ?r)%list) with ((c :: l) ++ r).
  rewrite (between_rewrite_list c l _ _ Hc Hl Hlow1 Hlow2 Hhigh1 Hhigh2).
  rewrite sub_between_nil, app_nil_r. unfold repl.
  rewrite <- El, !string_of_list_ascii_app, !string_of_list_ascii_of_string.
  reflexivity.
Qed.

Lemma between_is_rewritten_witness :
  _preprocess_expression "rsi between 40 and 60"
  = "((rsi >= 40) and (rsi <= 60))"%string.
Proof. apply (between_is_rewritten "rsi" "40" "60"); reflexivity. Defined.

(** *** Errors *)

Lemma mapM_raise {A B : Type} (f : A -> result B) (pre post : list A)
    (x : A) (e : exn) :
  Forall (fun a => is_ok (f a) = true) pre -> f x = Raise e ->
  mapM f (pre ++ x :: post) = Raise e.
Proof.
  intros Hpre Hx. induction Hpre as [| a pre Ha _ IH]; cbn [app mapM].
  - now rewrite Hx.
  - destruct (f a); [| discriminate]. cbn [rbind]. now rewrite IH.
Qed.

Lemma mapM_Forall2 {A B : Type} (f : A -> result B) (l : list A)
    (l' : list B) :
  mapM f l = Ok l' -> Forall2 (fun x y => f x = Ok y) l l'.
Proof.
  revert l'. induction l as [| a l IH]; intros l' Hm; cbn [mapM] in Hm.
  - injection Hm as <-. constructor.
  - destruct (f a) as [y |] eqn:Hy; [| discriminate]. cbn [rbind] in Hm.
    destruct (mapM f l) as [ys |]; [| discriminate]. cbn [rbind] in Hm.
    injection Hm as <-. constructor; [exact Hy | now apply IH].
Qed.

Section Errors.

Context `{PyRuntime}.

(** X21.  [and] and [or] do not short-circuit: every operand is evaluated,
    so the first operand that fails makes the whole test fail with its
    error, whatever the operands before it evaluated to. *)
Theorem boolop_evaluates_every_operand (context : gmap string value)
    (op : boolop) (pre post : list expr) (operand : expr) (e : exn) :
  Forall (fun a => is_ok (visit context a) = true) pre ->
  visit context operand = Raise e ->
  visit context (BoolOp op (pre ++ operand :: post)) = Raise e.
Proof.
  intros Hpre Hop. cbn [visit].
  now rewrite (mapM_raise (visit context) pre post operand e Hpre Hop).
Qed.

(** The error of a stripped exit rule, if it has one. *)
Definition rule_error (context : gmap string value) (rule : string)
    : option exn :=
  match (if is_directive rule
         then let! x := directive_value context rule in Ok tt
         else let! v := evaluate_expression rule context in Ok tt) with
  | Ok _ => None
  | Raise e => Some e
  end.

Lemma exit_loop_raise (context : gmap string value) (pre post : list string)
    (rule : string) (e : exn) :
  forall (stop0 : option fl) (reasons0 : list string),
  Forall (evaluable context) (map py_strip pre) ->
  rule_error context (py_strip rule) = Some e ->
  exit_loop context stop0 reasons0 (pre ++ rule :: post) = Raise e.
Proof.
  induction pre as [| r pre IH]; intros stop0 reasons0 Hpre Herr.
  - cbn [app exit_loop]. unfold rule_error, directive_value in Herr.
    fold (is_directive (py_strip rule)). fold (inner_of (py_strip rule)).
    destruct (is_directive (py_strip rule)).
    + destruct (evaluate_expression (inner_of (py_strip rule)) context)
        as [v |]; cbn [rbind] in *; [| congruence].
      destruct (to_float v); cbn [rbind] in *; congruence.
    + destruct (evaluate_expression (py_strip rule) context);
        cbn [rbind] in *; congruence.
  - cbn [map] in Hpre. inversion Hpre as [| ? ? Hr Hrest]; subst.
    cbn [app exit_loop]. unfold evaluable, directive_value in Hr.
    fold (is_directive (py_strip r)). fold (inner_of (py_strip r)).
    destruct (is_directive (py_strip r)).
    + destruct (evaluate_expression (inner_of (py_strip r)) context)
        as [v |]; [| discriminate].
      cbn [rbind] in *. destruct (to_float v); [| discriminate].
      cbn [rbind]. now apply IH.
    + destruct (evaluate_expression (py_strip r) context) as [v |];
        [| discriminate].
      cbn [rbind]. destruct (truthy v); now apply IH.
Qed.

(** X22.  [evaluate_rules] gives no partial outcome: when the entry rule
    and the exit rules before some rule can be evaluated and that rule
    cannot, the call raises that rule's error; the rules after it are not
    looked at and the reasons gathered so far are lost. *)
Theorem first_failing_exit_rule_raises (rules : RuleDict)
    (latest features : gmap string value) (pre post : list string)
    (rule : string) (e : exn) :
  let context := merged_context latest features in
  is_ok (evaluate_expression (default "True"%string (rules_entry rules))
                             context) = true ->
  rules_exit rules = Some (pre ++ rule :: post) ->
  Forall (evaluable context) (map py_strip pre) ->
  rule_error context (py_strip rule) = Some e ->
  evaluate_rules rules latest features = Raise e.
Proof.
  intros context Hentry Hexit Hpre Herr. unfold evaluate_rules. fold context.
  destruct (evaluate_expression _ context); [| discriminate].
  cbn [rbind]. rewrite Hexit. cbn [default from_option id].
  now rewrite (exit_loop_raise context pre post rule e None [] Hpre Herr).
Qed.

(** X23.  [generate_signals] gives one signal per bar that has a feature
    row, in order: the signal carries the bar's timestamp and the feature
    row itself, and its three rule fields are the outcome of
    [evaluate_rules] on the bar's five price fields and that row. *)
Theorem generate_signals_rows (price_data : list PriceBar)
    (indicator_frame : list (gmap string fl)) (entry_rule : string)
    (exit_rules : list string) (signals : list Signal) :
  generate_signals price_data indicator_frame entry_rule exit_rules
  = Ok signals ->
  length signals = Nat.min (length price_data) (length indicator_frame)
  /\ forall (i : nat) (bar : PriceBar) (row : gmap string fl),
       price_data !! i = Some bar -> indicator_frame !! i = Some row ->
       exists outcome,
         evaluate_rules {| rules_entry := Some entry_rule;
                           rules_exit := Some exit_rules |}
                        (latest_of bar) (VNum <$> row) = Ok outcome
         /\ signals !! i
            = Some {| sig_timestamp := timestamp bar;
                      sig_entry := entry outcome;
                      sig_exit_reasons := exit_reasons outcome;
                      sig_trailing_stop := trailing_stop outcome;
                      sig_features := row |}.
Proof.
  unfold generate_signals. intros Hs. apply mapM_Forall2 in Hs. split.
  - rewrite <- (Forall2_length _ _ _ Hs). apply length_zip_with.
  - intros i bar row Hbar Hrow.
    assert (Hz : zip price_data indicator_frame !! i = Some (bar, row)).
    { apply lookup_zip_with_Some. eauto. }
    destruct (Forall2_lookup_l _ _ _ _ _ Hs Hz) as (sig & Hsig & Hf).
    cbn beta iota in Hf.
    destruct (evaluate_rules _ (latest_of bar) (VNum <$> row))
      as [outcome |]; [| discriminate].
    cbn [rbind] in Hf. injection Hf as <-. exists outcome. split;
      [reflexivity | exact Hsig].
Qed.

End Errors.

Lemma boolop_evaluates_every_operand_witness :
  @visit PyLib.py_runtime {[ "close"%string := PyLib.num 10 ]}
    (BoolOp And ([Constant (VBool false)]
                 ++ Name "missing" :: [Name "close"]))
  = Raise (NameError "Unknown identifier in rule: missing").
Proof.
  apply boolop_evaluates_every_operand.
  - repeat constructor.
  - reflexivity.
Defined.

Lemma first_failing_exit_rule_raises_witness :
  @evaluate_rules PyLib.py_runtime
    {| rules_entry := None;
       rules_exit :=
         Some (["close > 5"%string; "trailing_stop(close - 1)"%string]
               ++ "missing > 1"%string :: ["close > 1"%string]) |}
    (latest_of PyLib.bar10) ∅
  = Raise (NameError "Unknown identifier in rule: missing").
Proof.
  apply (first_failing_exit_rule_raises (H := PyLib.py_runtime) _ _ _
           ["close > 5"%string; "trailing_stop(close - 1)"%string]
           ["close > 1"%string] "missing > 1"%string).
  - vm_compute. reflexivity.
  - reflexivity.
  - repeat constructor; vm_compute; reflexivity.
  - vm_compute. reflexivity.
Defined.

Lemma generate_signals_rows_witness :
  exists signals,
    @generate_signals PyLib.py_runtime [PyLib.bar10; PyLib.bar10]
      [{[ "sma"%string := F 9 ]}; {[ "sma"%string := F 11 ]}]
      "close > sma" ["close < sma"]%string = Ok signals
    /\ length signals = 2%nat.
Proof.
  eexists. split; [vm_compute; reflexivity |].
  refine (proj1 (generate_signals_rows (H := PyLib.py_runtime)
                   [PyLib.bar10; PyLib.bar10]
                   [{[ "sma"%string := F 9 ]}; {[ "sma"%string := F 11 ]}]
                   "close > sma" ["close < sma"%string] _ _)).
  vm_compute. reflexivity.
Defined.

End RuleProps.

(** ** app/backtest/metrics.py *)

Module MetricsProps.

Import Metrics.

Lemma py_min_le_l (a b : Q) : py_min a b <= a.
Proof.
  unfold py_min. destruct (Qlt_bool b a) eqn:E; [| lra].
  apply Qlt_bool_iff in E. lra.
Qed.

Lemma fold_plus_shift (l : list Q) (acc : Q) :
  fold_left Qplus l acc == acc + Qsum l.
Proof.
  unfold Qsum. revert acc. induction l as [| x l IH]; intros acc; cbn.
  - lra.
  - rewrite (IH (acc + x)), (IH (0 + x)). lra.
Qed.

Lemma Qsum_cons (x : Q) (l : list Q) : Qsum (x :: l) == x + Qsum l.
Proof. unfold Qsum at 1. cbn. rewrite fold_plus_shift. lra. Qed.

Lemma Qsum_negative (l : list Q) :
  l <> [] -> Forall (fun x => x < 0) l -> Qsum l < 0.
Proof.
  intros Hne Hall. induction Hall as [| x l Hx Hl IH]; [congruence |].
  rewrite Qsum_cons. destruct l as [| y l].
  - unfold Qsum. cbn. lra.
  - assert (Qsum (y :: l) < 0) by (apply IH; congruence). lra.
Qed.

Lemma filter_negative (l : list Q) :
  Forall (fun x => x < 0) (List.filter (fun p => Qlt_bool p 0) l).
Proof.
  apply List.Forall_forall. intros x Hx. apply List.filter_In in Hx as [_ Hx].
  now apply Qlt_bool_iff.
Qed.

Lemma roll_max_length (m : Q) (values : list Q) :
  length (roll_max m values) = length values.
Proof.
  revert m. induction values as [| v values IH]; intros m; cbn;
    [reflexivity | now rewrite IH].
Qed.

Lemma drawdown_loop_spec (m : Q) (rows : list (Z * Q * Q)) :
  length (fst (drawdown_loop m rows)) = length rows
  /\ snd (drawdown_loop m rows) <= m.
Proof.
  revert m. induction rows as [| [[ts value] peak] rows IH]; intros m.
  - cbn. split; [reflexivity | lra].
  - cbn [drawdown_loop fst snd length].
    destruct (IH (py_min m (if Qeq_bool peak 0 then 0 else value / peak - 1)))
      as [Hl Hm].
    split; [now rewrite Hl |].
    eapply Qle_trans; [exact Hm | apply py_min_le_l].
Qed.

Lemma len_nonneg (l : list Q) : 0 <= len l.
Proof.
  unfold len. change 0 with (inject_Z 0). rewrite <- Zle_Qle. lia.
Qed.

Lemma ratio_in_unit (a b : nat) :
  (a <= b)%nat -> (0 < b)%nat ->
  0 <= inject_Z (Z.of_nat a) / inject_Z (Z.of_nat b) <= 1.
Proof.
  intros Hab Hb.
  assert (H0 : 0 <= inject_Z (Z.of_nat a))
    by (change 0 with (inject_Z 0); rewrite <- Zle_Qle; lia).
  assert (H1 : inject_Z (Z.of_nat a) <= inject_Z (Z.of_nat b))
    by (rewrite <- Zle_Qle; lia).
  assert (H2 : 0 < inject_Z (Z.of_nat b))
    by (change 0 with (inject_Z 0); rewrite <- Zlt_Qlt; lia).
  split.
  - apply Qle_shift_div_l; [exact H2 | lra].
  - apply Qle_shift_div_r; [exact H2 | lra].
Qed.

Lemma pct_changes_length (values : list Q) :
  length (_pct_changes values) = pred (length values).
Proof.
  induction values as [| v [| c rest] IH]; [reflexivity | reflexivity |].
  cbn [_pct_changes length pred] in *. now rewrite IH.
Qed.

Definition grow (compounded ret : Q) : Q := compounded * (1 + ret).

Lemma pct_changes_telescope (rest : list Q) :
  forall (first acc : Q),
  Forall (fun v => ~ v == 0) (first :: rest) ->
  first * fold_left grow (_pct_changes (first :: rest)) acc
  == acc * List.last (first :: rest) 0.
Proof.
  induction rest as [| c rest IH]; intros first acc Hall.
  - cbn. lra.
  - inversion Hall as [| ? ? Hf Hrest]; subst.
    inversion Hrest as [| ? ? Hc _]; subst.
    change (_pct_changes (first :: c :: rest))
      with ((if Qeq_bool first 0 then 0 else (c - first) / first)
            :: _pct_changes (c :: rest)).
    destruct (Qeq_bool first 0) eqn:E;
      [apply Qeq_bool_iff in E; contradiction |].
    cbn [fold_left].
    change (List.last (first :: c :: rest) 0) with (List.last (c :: rest) 0).
    pose proof (IH c (grow acc ((c - first) / first)) Hrest) as Hstep.
    set (F := fold_left grow (_pct_changes (c :: rest))
                (grow acc ((c - first) / first))) in *.
    set (L := List.last (c :: rest) 0) in *.
    unfold grow in Hstep.
    assert (HF : F == acc * (1 + (c - first) / first) * L / c)
      by (rewrite <- Hstep; field; exact Hc).
    rewrite HF. field. split; assumption.
Qed.

(** X24.  Compounding the period returns of a series without zeros gives
    back its total growth: the first value times the compounded return
    factor is the last value; there is one return less than there are
    values. *)
Theorem pct_changes_compound (first : Q) (rest : list Q) :
  Forall (fun v => ~ v == 0) (first :: rest) ->
  length (_pct_changes (first :: rest)) = length rest
  /\ first * (1 + compound (_pct_changes (first :: rest)))
     == List.last (first :: rest) 0.
Proof.
  intros Hall. split; [apply pct_changes_length |].
  unfold compound. fold grow.
  pose proof (pct_changes_telescope rest first 1 Hall) as Ht.
  set (F := fold_left grow (_pct_changes (first :: rest)) 1) in *.
  assert (E : 1 + (F - 1) == F) by ring.
  rewrite E, Ht. ring.
Qed.

Lemma pct_changes_compound_witness :
  100 * (1 + compound (_pct_changes [100; 110; 99])) == 99.
Proof.
  apply (pct_changes_compound 100 [110; 99]).
  repeat constructor; intros E; discriminate E.
Defined.

Section Returns.

Variable float_pow : Q -> Q -> result Q.
Variable month_key : Z -> string.
Hypothesis pow_returns : forall x y, exists r, float_pow x y = Ok r.

Lemma std_returns (values : list Q) : exists r, _std float_pow values = Ok r.
Proof.
  unfold _std. destruct (length values <? 2)%nat; [now exists 0 |].
  apply pow_returns.
Qed.

(** X25.  With a power operator that returns, [compute_metrics] raises
    nothing for a curve of two or more observations that does not start at
    zero.  The record holds the curve itself, one drawdown per observation
    and the number of trades; the maximal drawdown is never positive and
    the hit rate lies between 0 and 1. *)
Theorem compute_metrics_returns (curve : list (Z * Q))
    (trades : list TradeRecord) (frequency : string) :
  (2 <= length curve)%nat -> ~ hd 0 (map snd curve) == 0 ->
  exists m,
    compute_metrics float_pow month_key curve trades frequency = Ok m
    /\ equity_curve m = curve
    /\ length (drawdown m) = length curve
    /\ num_trades m = length trades
    /\ max_drawdown m <= 0
    /\ 0 <= hit_rate m <= 1.
Proof.
  intros Hlen Hfirst. unfold compute_metrics.
  replace (length curve <? 2)%nat with false
    by (symmetry; apply Nat.ltb_ge; exact Hlen).
  cbv zeta. rewrite (py_div_ok _ _ Hfirst). cbn [rbind].
  rewrite py_div_ok.
  2: { pose proof (py_max_ge_r (len (map snd curve) / _annual_factor frequency)
                     (1 # 1000000000)). lra. }
  cbn [rbind].
  match goal with
  | |- context [float_pow ?a ?b] => destruct (pow_returns a b) as [growth ->]
  end.
  cbn [rbind].
  destruct (std_returns (_pct_changes (map snd curve))) as [sd ->].
  cbn [rbind].
  destruct (pow_returns (_annual_factor frequency) 0.5) as [root ->].
  cbn [rbind].
  set (downside := List.filter (fun r => Qlt_bool r 0) _).
  match goal with
  | |- exists m, rbind ?X _ = Ok m /\ _ => assert (Hd : exists d, X = Ok d)
  end.
  { destruct downside as [| x l] eqn:Ed; [now exists 0 |].
    destruct (std_returns (x :: l)) as [dsd ->]. cbn [rbind]. eauto. }
  destruct Hd as [d ->]. cbn [rbind].
  set (losses := List.filter (fun p => Qlt_bool p 0) (map pnl trades)).
  match goal with
  | |- exists m, rbind ?X _ = Ok m /\ _ => assert (Hp : exists pf, X = Ok pf)
  end.
  { destruct losses as [| x l] eqn:El; [now exists Infinite |].
    rewrite py_div_ok; [cbn [rbind]; eauto |].
    assert (Hneg : Qsum (x :: l) < 0).
    { apply Qsum_negative; [congruence |]. rewrite <- El. apply filter_negative. }
    intros Habs. rewrite Qabs_neg in Habs by lra. lra. }
  destruct Hp as [pf ->]. cbn [rbind].
  eexists. split; [reflexivity |].
  cbn [equity_curve drawdown num_trades max_drawdown hit_rate].
  split; [reflexivity |]. split; [| split; [reflexivity |]].
  - rewrite (proj1 (drawdown_loop_spec _ _)).
    rewrite !length_zip_with, roll_max_length, !length_map. lia.
  - split; [apply drawdown_loop_spec |].
    destruct trades as [| t trades]; [lra |].
    apply ratio_in_unit; [| cbn; lia].
    etransitivity; [apply List.filter_length_le |]. now rewrite length_map.
Qed.

End Returns.

Lemma compute_metrics_returns_witness :
  exists m,
    compute_metrics (fun x _ => Ok x) (fun _ => "2024-01"%string)
      [(0%Z, 100); (1%Z, 110)] [] "1D" = Ok m
    /\ max_drawdown m <= 0.
Proof.
  destruct (compute_metrics_returns (fun x _ => Ok x)
              (fun _ => "2024-01"%string) (fun x _ => ex_intro _ x eq_refl)
              [(0%Z, 100); (1%Z, 110)] [] "1D")
    as (m & Hm & _ & _ & _ & Hdd & _).
  - cbn. lia.
  - cbn. intros E. discriminate E.
  - exists m. split; [exact Hm | exact Hdd].
Defined.

End MetricsProps.

(** ** app/backtest/engine.py *)

Module EngineProps.

Import Indicators.
Import PortfolioM.
Import Engine.

(** The engine keeps two books, the portfolio's positions and its own
    [open_positions]: they are in step when they hold the same symbols and
    no recorded entry price is zero. *)
Definition books_in_step (st : State) : Prop :=
  dom (open_positions st) =@{gset string} dom (positions (portfolio st))
  /\ forall k e, open_positions st !! k = Some e -> ~ entry_price e == 0.

(** The bar of a symbol event closes at a price other than zero. *)
Definition priced (ev : event) : Prop :=
  match ev with
  | EquityMark _ _ => True
  | SymbolBar _ _ _ _ bar _ _ => ~ close bar == 0
  end.

Lemma py_min_same (q : Q) : py_min q q = q.
Proof. unfold py_min. now destruct (Qlt_bool q q). Qed.

Lemma any_nan_spec (row : gmap string fl) :
  any_nan row = true <-> exists k, row !! k = Some NaN.
Proof.
  unfold any_nan.
  apply (map_fold_weak_ind
           (fun (r : bool) (m : gmap string fl) =>
              r = true <-> exists k, m !! k = Some NaN)).
  - split; [discriminate |]. intros [k Hk]. now rewrite lookup_empty in Hk.
  - intros i x m r Hi IH. rewrite orb_true_iff, IH. split.
    + intros [[k Hk] | Hx].
      * exists k. rewrite lookup_insert_ne; [exact Hk |]. congruence.
      * exists i. rewrite lookup_insert_eq. destruct x; [discriminate | reflexivity].
    + intros [k Hk]. apply lookup_insert_Some in Hk as [[_ ->] | [_ Hk]];
        [right; reflexivity | left; eauto].
Qed.

(** What [close_position] gives when the books are in step. *)
Lemma close_position_spec (ts : Z) (sym why : string) (price : Q)
    (pos : Position) (st : State) :
  positions (portfolio st) !! sym = Some pos ->
  books_in_step st ->
  exists e,
    open_positions st !! sym = Some e
    /\ close_position ts sym (quantity pos) price why st
       = Ok {| portfolio :=
                 {| cash := cash (portfolio st) + quantity pos * price;
                    positions := delete sym (positions (portfolio st));
                    equity_history := equity_history (portfolio st) |};
               trades :=
                 trades st
                 ++ [Metrics.mkTrade sym (entry_date e) ts (entry_price e)
                       price (quantity pos)
                       ((price - entry_price e) * quantity pos)
                       (price / entry_price e - 1) (ts - entry_date e)];
               orders :=
                 orders st ++ [mkOrder sym (quantity pos) price "sell" why];
               open_positions := delete sym (open_positions st) |}.
Proof.
  intros Hpos [Hdom Hentry].
  assert (Hop : is_Some (open_positions st !! sym)).
  { apply (elem_of_dom (D := gset string)). rewrite Hdom.
    apply elem_of_dom. eauto. }
  destruct Hop as [e He]. exists e. split; [exact He |].
  unfold close_position, remove_position.
  cbn [side order_symbol order_quantity order_price String.eqb Ascii.eqb
       Bool.eqb negb].
  rewrite Hpos. cbn [rbind quantity]. rewrite He.
  rewrite (py_div_ok _ _ (Hentry sym e He)). cbn [rbind].
  rewrite py_min_same.
  assert (E : Qle_bool (quantity pos - quantity pos) 0 = true)
    by (apply Qle_bool_iff; lra).
  rewrite E. reflexivity.
Qed.

Lemma close_position_in_step (ts : Z) (sym why : string) (price : Q)
    (pos : Position) (st : State) :
  positions (portfolio st) !! sym = Some pos ->
  books_in_step st ->
  exists st',
    close_position ts sym (quantity pos) price why st = Ok st'
    /\ books_in_step st'.
Proof.
  intros Hpos Hst.
  destruct (close_position_spec ts sym why price pos st Hpos Hst)
    as (e & He & ->).
  eexists. split; [reflexivity |]. destruct Hst as [Hdom Hentry].
  split; cbn [open_positions portfolio positions].
  - rewrite !dom_delete_L, Hdom. reflexivity.
  - intros k e' Hk. apply lookup_delete_Some in Hk as [_ Hk]. eauto.
Qed.

Lemma store_position_in_step (sym : string) (pos pos' : Position)
    (st : State) :
  positions (portfolio st) !! sym = Some pos ->
  books_in_step st -> books_in_step (store_position sym pos' st).
Proof.
  intros Hpos [Hdom Hentry]. split; cbn [store_position open_positions
                                         portfolio positions].
  - rewrite dom_insert_L, Hdom.
    assert (sym ∈ dom (positions (portfolio st)))
      by (apply elem_of_dom; eauto).
    set_solver.
  - exact Hentry.
Qed.

Lemma apply_position_limits_returns (desired price equity : Q)
    (params : Risk.RiskParameters) (n : Z) (gross : Q) :
  ~ price == 0 ->
  exists qty,
    Risk.apply_position_limits desired price equity params n gross = Ok qty.
Proof.
  intros Hp. unfold Risk.apply_position_limits.
  destruct (_ && _); [eauto |].
  destruct (Qle_bool equity 0) eqn:Ee; [eauto |].
  apply Qle_bool_false in Ee.
  assert (He : ~ equity == 0) by lra.
  destruct (Qlt_bool _ _); rewrite ?(py_div_ok _ _ Hp); cbn [rbind];
    rewrite (py_div_ok _ _ He); cbn [rbind];
    destruct (Qlt_bool _ _); rewrite ?(py_div_ok _ _ Hp); cbn [rbind]; eauto.
Qed.

(** The states that the entry branch can return. *)
Lemma try_entry_inv (sizing : SizingConfig)
    (risk_params : Risk.RiskParameters) (ts : Z) (equity : Q)
    (price_snapshot : gmap string Q) (sym : string) (bar : PriceBar)
    (indicator_row : gmap string fl) (st st' : State) :
  positions (portfolio st) !! sym = None ->
  try_entry sizing risk_params ts equity price_snapshot sym bar
    indicator_row st = Ok st' ->
  st' = st
  \/ exists qty pos,
       0 < qty
       /\ orders st' = orders st ++ [mkOrder sym qty (close bar) "buy" "entry"]
       /\ trades st' = trades st
       /\ open_positions st'
          = <[sym := mkEntry ts (close bar)]> (open_positions st)
       /\ positions (portfolio st')
          = <[sym := pos]> (positions (portfolio st))
       /\ quantity pos = qty.
Proof.
  intros Hnone H. unfold try_entry in H.
  destruct (find_atr indicator_row) as [atr_value |];
    [| injection H as <-; now left].
  destruct (Qle_bool atr_value 0); [injection H as <-; now left |].
  destruct (Risk.apply_position_limits _ _ _ _ _ _) as [qty |];
    [| discriminate].
  cbn [rbind] in H.
  destruct (Qle_bool qty 0) eqn:Eq; [injection H as <-; now left |].
  apply Qle_bool_false in Eq. unfold add_position in H.
  cbn [side order_symbol order_quantity order_price String.eqb Ascii.eqb
       Bool.eqb negb] in H.
  rewrite Hnone in H. cbn [rbind] in H. unfold position in H.
  cbn [positions] in H. rewrite lookup_insert_eq in H. right.
  destruct (Risk.stop_from_atr _ _ _ _) as [stop |];
    [destruct (Qeq_bool stop 0) |]; injection H as <-;
    cbn [store_position orders trades open_positions portfolio positions];
    rewrite ?insert_insert_eq; eexists qty, _;
    repeat (split; [reflexivity || exact Eq |]); reflexivity.
Qed.

Lemma try_entry_returns (sizing : SizingConfig)
    (risk_params : Risk.RiskParameters) (ts : Z) (equity : Q)
    (price_snapshot : gmap string Q) (sym : string) (bar : PriceBar)
    (indicator_row : gmap string fl) (st : State) :
  positions (portfolio st) !! sym = None ->
  ~ close bar == 0 ->
  exists st',
    try_entry sizing risk_params ts equity price_snapshot sym bar
      indicator_row st = Ok st'.
Proof.
  intros Hnone Hp. unfold try_entry.
  destruct (find_atr indicator_row) as [atr_value |]; [| eauto].
  destruct (Qle_bool atr_value 0); [eauto |].
  destruct (apply_position_limits_returns
              (if String.eqb (sizing_type sizing) "vol_target"
               then Risk.position_size_vol_target equity (close bar) atr_value
                      (default 0.01 (sizing_params sizing !! "risk_per_trade"%string))
                      (default 2 (sizing_params sizing !! "atr_multiple"%string))
               else if String.eqb (sizing_type sizing) "fixed"
                    then default 0 (sizing_params sizing !! "shares"%string)
                    else 0)
              (close bar) equity risk_params
              (Z.of_nat (size (positions (portfolio st))))
              (gross_exposure_of (portfolio st) price_snapshot (close bar) equity)
              Hp) as [qty ->].
  cbn [rbind]. destruct (Qle_bool qty 0); [eauto |].
  unfold add_position.
  cbn [side order_symbol order_quantity order_price String.eqb Ascii.eqb
       Bool.eqb negb].
  rewrite Hnone. cbn [rbind].
  destruct (position _ sym); [| eauto].
  destruct (Risk.stop_from_atr _ _ _ _) as [stop |]; [| eauto].
  destruct (Qeq_bool stop 0); eauto.
Qed.

Lemma try_entry_in_step (sizing : SizingConfig)
    (risk_params : Risk.RiskParameters) (ts : Z) (equity : Q)
    (price_snapshot : gmap string Q) (sym : string) (bar : PriceBar)
    (indicator_row : gmap string fl) (st : State) :
  positions (portfolio st) !! sym = None ->
  ~ close bar == 0 -> books_in_step st ->
  exists st',
    try_entry sizing risk_params ts equity price_snapshot sym bar
      indicator_row st = Ok st'
    /\ books_in_step st'.
Proof.
  intros Hnone Hp Hst.
  destruct (try_entry_returns sizing risk_params ts equity price_snapshot sym
              bar indicator_row st Hnone Hp) as [st' Heq].
  exists st'. split; [exact Heq |].
  destruct (try_entry_inv _ _ _ _ _ _ _ _ _ _ Hnone Heq)
    as [-> | (qty & pos & _ & _ & _ & Hop & Hpos & _)]; [exact Hst |].
  destruct Hst as [Hdom Hentry]. split.
  - rewrite Hop, Hpos, !dom_insert_L, Hdom. reflexivity.
  - intros k e. rewrite Hop. intros Hk.
    apply lookup_insert_Some in Hk as [[_ <-] | [_ Hk]]; [exact Hp | eauto].
Qed.

Lemma process_symbol_in_step (sizing : SizingConfig)
    (risk_params : Risk.RiskParameters) (ts : Z) (equity : Q)
    (price_snapshot : gmap string Q) (sym : string) (bar : PriceBar)
    (indicator_row : gmap string fl) (signal_row : Rules.Signal) (st : State) :
  ~ close bar == 0 -> books_in_step st ->
  exists st',
    process_symbol sizing risk_params ts equity price_snapshot sym bar
      indicator_row signal_row st = Ok st'
    /\ books_in_step st'.
Proof.
  intros Hp Hst. unfold process_symbol.
  destruct (any_nan indicator_row); [eauto |].
  unfold position.
  destruct (positions (portfolio st) !! sym) as [pos |] eqn:Hpos.
  - destruct (match stop_price pos with
              | Some stop => if Qle_bool (low bar) stop then Some stop else None
              | None => None
              end) as [stop |].
    { now apply close_position_in_step. }
    destruct (Rules.sig_trailing_stop signal_row) as [[n |] |].
    + pose proof (store_position_in_step sym pos (update_stop pos n) st
                    Hpos Hst) as Hst1.
      destruct (Rules.sig_exit_reasons signal_row); [eauto |].
      rewrite <- (update_stop_quantity pos n).
      apply close_position_in_step; [| exact Hst1].
      cbn [store_position portfolio positions]. apply lookup_insert_eq.
    + destruct (Rules.sig_exit_reasons signal_row); [eauto |].
      now apply close_position_in_step.
    + destruct (Rules.sig_exit_reasons signal_row); [eauto |].
      now apply close_position_in_step.
  - destruct (negb (Rules.sig_entry signal_row)); [eauto |].
    now apply try_entry_in_step.
Qed.

Lemma step_in_step (sizing : SizingConfig) (risk_params : Risk.RiskParameters)
    (ev : event) (st : State) :
  priced ev -> books_in_step st ->
  exists st', step sizing risk_params ev st = Ok st' /\ books_in_step st'.
Proof.
  intros Hev Hst. destruct ev; cbn [step].
  - eexists. split; [reflexivity |]. exact Hst.
  - now apply process_symbol_in_step.
Qed.

(** X27.  The loop of the simulator raises nothing: from a state whose two
    books are in step (the empty start is one), over bars that all close at
    a price other than zero, every step returns, and it leaves the books in
    step; so no [open_positions[symbol]] lookup can miss and no return is
    divided by a zero entry price. *)
Theorem run_keeps_books_in_step (sizing : SizingConfig)
    (risk_params : Risk.RiskParameters) (evs : list event) (st : State) :
  books_in_step st -> Forall priced evs ->
  exists states,
    run_events sizing risk_params evs st = Ok states
    /\ length states = length evs
    /\ Forall books_in_step states.
Proof.
  intros Hst Hall. revert st Hst.
  induction Hall as [| ev rest Hev _ IH]; intros st Hst; cbn [run_events].
  - exists []. repeat split. constructor.
  - destruct (step_in_step sizing risk_params ev st Hev Hst)
      as (st1 & -> & Hst1).
    cbn [rbind].
    destruct (IH st1 Hst1) as (states & -> & Hlen & Hstates).
    cbn [rbind]. exists (st1 :: states).
    split; [reflexivity |]. split; [cbn; now rewrite Hlen |].
    now constructor.
Qed.

Lemma run_keeps_books_in_step_witness :
  exists states,
    run_events demo_sizing demo_limits demo_events demo_state = Ok states
    /\ length states = 4%nat
    /\ Forall books_in_step states.
Proof.
  apply (run_keeps_books_in_step demo_sizing demo_limits demo_events
           demo_state).
  - split.
    + apply set_eq. intros k. rewrite !elem_of_dom. unfold demo_state.
      cbn [open_positions portfolio positions].
      rewrite !lookup_singleton_is_Some. reflexivity.
    + intros k e Hk. unfold demo_state in Hk. cbn [open_positions] in Hk.
      apply lookup_singleton_Some in Hk as [_ <-]. cbn. intros E.
      discriminate E.
  - repeat constructor; cbn; intros E; discriminate E.
Defined.

(** X28.  A bar moves at most one order: with a position in the symbol the
    order, if any, sells the whole holding and the symbol is flat afterwards;
    without one the order, if any, buys a positive quantity at the close,
    only on an entry signal, and the symbol has a position afterwards.  So
    the engine neither adds to a holding nor sells part of one or short. *)
Theorem one_order_per_bar (sizing : SizingConfig)
    (risk_params : Risk.RiskParameters) (ts : Z) (equity : Q)
    (price_snapshot : gmap string Q) (sym : string) (bar : PriceBar)
    (indicator_row : gmap string fl) (signal_row : Rules.Signal)
    (st st' : State) :
  process_symbol sizing risk_params ts equity price_snapshot sym bar
    indicator_row signal_row st = Ok st' ->
  orders st' = orders st
  \/ exists o,
       orders st' = orders st ++ [o] /\ order_symbol o = sym
       /\ match position (portfolio st) sym with
          | Some pos =>
              side o = "sell"%string /\ order_quantity o = quantity pos
              /\ position (portfolio st') sym = None
          | None =>
              side o = "buy"%string /\ 0 < order_quantity o
              /\ order_price o = close bar
              /\ Rules.sig_entry signal_row = true
              /\ is_Some (position (portfolio st') sym)
          end.
Proof.
  intros H. unfold process_symbol in H.
  destruct (any_nan indicator_row); [injection H as <-; now left |].
  unfold position in *.
  destruct (positions (portfolio st) !! sym) as [pos |] eqn:Hpos.
  - assert (Hclose : forall st0 pos0 price why,
               positions (portfolio st0) !! sym = Some pos0 ->
               quantity pos0 = quantity pos ->
               orders st0 = orders st ->
               close_position ts sym (quantity pos0) price why st0 = Ok st' ->
               exists o,
                 orders st' = orders st ++ [o] /\ order_symbol o = sym
                 /\ side o = "sell"%string /\ order_quantity o = quantity pos
                 /\ positions (portfolio st') !! sym = None).
    { intros st0 pos0 price why Hpos0 Hq Hord Hc.
      pose proof (close_position_positions _ _ _ _ _ _ _ Hpos0 Hc) as Hp'.
      unfold close_position in Hc.
      destruct (remove_position _ _); [| discriminate]. cbn [rbind] in Hc.
      destruct (open_positions st0 !! sym); [| discriminate].
      destruct (py_div _ _); [| discriminate]. cbn [rbind] in Hc.
      injection Hc as <-. cbn [orders portfolio] in *. rewrite Hord.
      eexists. split; [reflexivity |]. cbn [order_symbol side order_quantity].
      repeat (split; [reflexivity || exact Hq |]).
      rewrite Hp'. apply lookup_delete_eq. }
    destruct (match stop_price pos with
              | Some stop => if Qle_bool (low bar) stop then Some stop else None
              | None => None
              end) as [stop |].
    { right. eapply Hclose; eauto. }
    destruct (Rules.sig_trailing_stop signal_row) as [[n |] |].
    + destruct (Rules.sig_exit_reasons signal_row);
        [injection H as <-; now left |].
      right. rewrite <- (update_stop_quantity pos n) in H.
      eapply (Hclose (store_position sym (update_stop pos n) st));
        [| | | exact H].
      * cbn [store_position portfolio positions]. apply lookup_insert_eq.
      * apply update_stop_quantity.
      * reflexivity.
    + destruct (Rules.sig_exit_reasons signal_row);
        [injection H as <-; now left |].
      right. eapply Hclose; eauto.
    + destruct (Rules.sig_exit_reasons signal_row);
        [injection H as <-; now left |].
      right. eapply Hclose; eauto.
  - destruct (negb (Rules.sig_entry signal_row)) eqn:Hentry;
      [injection H as <-; now left |].
    apply negb_false_iff in Hentry.
    destruct (try_entry_inv _ _ _ _ _ _ _ _ _ _ Hpos H)
      as [-> | (qty & pos & Hq & Hord & _ & _ & Hp' & _)]; [now left |].
    right. eexists. split; [exact Hord |].
    cbn [order_symbol side order_quantity order_price].
    repeat (split; [reflexivity || assumption |]).
    rewrite Hp', lookup_insert_eq. eauto.
Qed.

Lemma one_order_per_bar_witness :
  exists o,
    orders (mkState (mkPortfolio 99000
                       {["AAA"%string :=
                           mkPosition "AAA" 10 100 (Some (100 - 2 * 2)) None]}
                       [])
                    [] [mkOrder "AAA" 10 100 "buy" "entry"]
                    {["AAA"%string := mkEntry 1 100]})
    = [] ++ [o]
    /\ side o = "buy"%string /\ 0 < order_quantity o.
Proof.
  destruct (one_order_per_bar demo_sizing demo_limits 1 100000
              {["AAA"%string := 100]} "AAA" (mkBar 1 100 101 96 100 1000)
              {["atr"%string := F 2]}
              (Rules.mkSignal 1 true [] None {["atr"%string := F 2]})
              (mkState (mkPortfolio 100000 ∅ []) [] [] ∅)
              (mkState (mkPortfolio 99000
                          {["AAA"%string :=
                              mkPosition "AAA" 10 100 (Some (100 - 2 * 2)) None]}
                          [])
                       [] [mkOrder "AAA" 10 100 "buy" "entry"]
                       {["AAA"%string := mkEntry 1 100]}))
    as [Hnone | (o & Ho & _ & Hside & Hq & _)].
  - vm_compute. reflexivity.
  - discriminate Hnone.
  - exists o. split; [exact Ho |]. split; [exact Hside | exact Hq].
Defined.



(** X30.  A bar whose indicator row holds a not-a-number value is skipped
    altogether: the state is returned as it is, so during the warm-up of any
    indicator no position is opened, no exit rule is applied and no stop is
    checked, even for a position that is open. *)
Theorem nan_row_skips_the_bar (sizing : SizingConfig)
    (risk_params : Risk.RiskParameters) (ts : Z) (equity : Q)
    (price_snapshot : gmap string Q) (sym : string) (bar : PriceBar)
    (indicator_row : gmap string fl) (signal_row : Rules.Signal)
    (st : State) (k : string) :
  indicator_row !! k = Some NaN ->
  process_symbol sizing risk_params ts equity price_snapshot sym bar
    indicator_row signal_row st = Ok st.
Proof.
  intros Hk. unfold process_symbol.
  now rewrite (proj2 (any_nan_spec indicator_row) (ex_intro _ k Hk)).
Qed.

Lemma nan_row_skips_the_bar_witness :
  process_symbol demo_sizing demo_limits 1 2000 {["AAA"%string := 100]}
    "AAA" (mkBar 1 85 86 80 82 1000)
    {["atr"%string := F 2; "sma"%string := NaN]}
    (Rules.mkSignal 1 true ["close < 90"%string] None
       {["atr"%string := F 2; "sma"%string := NaN]})
    demo_state = Ok demo_state.
Proof.
  apply (nan_row_skips_the_bar _ _ _ _ _ _ _ _ _ _ "sma"%string).
  vm_compute. reflexivity.
Defined.

End EngineProps.
